(** * CopyFilesOverSSH: file selection, path mapping, directory planning and
      transfer orchestration

    A shallow embedding of [copyfilesoverssh.ts] (the batched variant under
    [_generated/CopyFilesOverSSHV0_Node20] and the older single-burst variant)
    together with the properties its specification states about it.

    Conventions.
    - A JavaScript string is its sequence of code units, here the ones below
      256, held in a Rocq [string].
    - The libraries the task calls ([path], [minimatch], [azure-pipelines-task-lib],
      [./utils], [./sshhelper]) are interfaces: type classes whose methods
      are the calls the source makes.  Theorems hold for every instance;
      closed examples use the instances of the modules [Posix], [Glob] and
      [Demo].
    - A call to the outside answers by its arguments: it returns a value or
      throws one.
    - [run] is an [async] function.  It is embedded in a state monad over the
      task's mutable variable [sshHelper] and the trace of what the task did,
      with JavaScript's completions ([Normal], [Throw], [Return]).  The
      callbacks of a [Promise.allSettled] are kept apart in the trace, each
      with its own operations, so that no order among them is implied. *)

From Stdlib Require Import List String Ascii Bool Arith Lia.
From stdpp Require Import gmap strings.
Import ListNotations.

Local Open Scope string_scope.
Local Open Scope list_scope.

(** ** JavaScript strings *)

Module JsString.

(** [s.substring(n)] *)
Fixpoint substring_from (n : nat) (s : string) : string :=
  match n, s with
  | 0, _ => s
  | S n', String _ s' => substring_from n' s'
  | S _, EmptyString => EmptyString
  end.

(** [s.substring(0, n)] *)
Fixpoint substring_to (n : nat) (s : string) : string :=
  match n, s with
  | 0, _ => EmptyString
  | S n', String c s' => String c (substring_to n' s')
  | S _, EmptyString => EmptyString
  end.

(** [s.startsWith(p)] *)
Definition startsWith (s p : string) : bool := String.prefix p s.

(** White space and line terminators of [String.prototype.trim], among the
    code units below 256: TAB, LF, VT, FF, CR, SP, NBSP. *)
Definition isWhiteSpace (c : ascii) : bool :=
  let n := nat_of_ascii c in
  ((9 <=? n) && (n <=? 13) || (n =? 32) || (n =? 160))%nat.

Fixpoint trimStart (s : string) : string :=
  match s with
  | String c s' => if isWhiteSpace c then trimStart s' else s
  | EmptyString => EmptyString
  end.

Fixpoint trimEnd (s : string) : string :=
  match s with
  | String c s' =>
      match trimEnd s' with
      | EmptyString => if isWhiteSpace c then EmptyString else String c EmptyString
      | t => String c t
      end
  | EmptyString => EmptyString
  end.

(** [s.trim()] *)
Definition trim (s : string) : string := trimEnd (trimStart s).

(** [s.replace(/^c/g, "")] for a single character [c]: the anchored
    pattern can match at position 0 only. *)
Definition stripLeading (c : ascii) (s : string) : string :=
  match s with
  | String d s' => if Ascii.eqb c d then s' else s
  | EmptyString => EmptyString
  end.

(** [s.replace(/^~\//, "./")] *)
Definition replaceHomePrefix (s : string) : string :=
  match s with
  | String "~" (String "/" s') => String "." (String "/" s')
  | _ => s
  end.

(** Default [Array.prototype.sort] on strings: ascending code-unit order. *)
Fixpoint insertSorted (x : string) (l : list string) : list string :=
  match l with
  | [] => [x]
  | y :: l' => if String.leb x y then x :: l else y :: insertSorted x l'
  end.

Definition sort (l : list string) : list string :=
  fold_right insertSorted [] l.

End JsString.

(** ** The libraries the task calls *)

(** Node's [path] module.  [path.join], [path.basename], [path.dirname] and
    [path.isAbsolute] follow the platform the agent runs on, the [posix]
    ones do not. *)
Class NodePath := {
  path_join : string -> string -> string;
  path_basename : string -> string;
  path_dirname : string -> string;
  path_isAbsolute : string -> bool;
  path_posix_join : string -> string -> string;
  path_posix_dirname : string -> string;
}.

(** [tl.MatchOptions] as the task fills it. *)
Record MatchOptions := {
  matchBase : bool;
  dot : bool;
  nocase : bool;
}.

(** The [minimatch] package.  [glob_hit opts pattern f] is the positive part
    of [Minimatch.match]: whether [f] hits one of the compiled alternatives
    of [pattern], the pattern as it is after its leading negations were
    taken off. *)
Class Minimatch := {
  glob_hit : MatchOptions -> string -> string -> bool;
}.

(** What the task reads from its surroundings: [os.platform()], the file
    system through [tl.find] and [tl.stats], and the helpers of [./utils]. *)
Class Host := {
  os_platform : string;
  tl_find : string -> list string;
  tl_stats_isDirectory : string -> bool;
  utils_pathIsUNC : string -> bool;
  utils_unixyPath : string -> string;
  utils_getCleanTargetFolderCmd : string -> bool -> bool -> string;
}.

(** ** Values *)

(** The JavaScript values the task logs, throws and passes on.  [VLoc key
    args] is the message [tl.loc(key, ...args)]; [VCat a b] is [a + b] where
    one side is a string. *)
#[local] Unset Elimination Schemes.
Inductive Value : Type :=
| VUndefined
| VBool (b : bool)
| VNum (n : nat)
| VStr (s : string)
| VCat (a b : Value)
| VArr (items : list Value)
| VObj (fields : list (string * Value))
| VLoc (key : string) (args : list Value).
#[local] Set Elimination Schemes.

(** A call that returns a [T] or throws (rejects with) a value. *)
Definition Exc (T : Type) : Type := (Value + T)%type.

(** A loop whose body may throw:
    [for (const x of xs) { acc = body(acc, x) }]. *)
Fixpoint foldExc {A B} (body : A -> B -> Exc A) (xs : list B) (acc : A) : Exc A :=
  match xs with
  | [] => inr acc
  | x :: xs' =>
      match body acc x with
      | inl e => inl e
      | inr acc' => foldExc body xs' acc'
      end
  end.

(** ** File selection: [getFilesToCopy] *)

(** [getFilesToCopy] is embedded as the function from the source folder and
    the patterns to the array it returns or the error it throws; its
    [tl.debug] lines do not bear on either and are left out. *)

Section Selection.

Context `{NodePath} `{Minimatch} `{Host}.

(** The inner loop over the characters of a pattern: toggles [negate] and
    counts [numberOfNegations] while the character is [!]. *)
Fixpoint scanNegations (pattern : string) (negate : bool)
    (numberOfNegations : nat) : bool * nat :=
  match pattern with
  | String c rest =>
      if Ascii.eqb c "!"
      then scanNegations rest (negb negate) (S numberOfNegations)
      else (negate, numberOfNegations)
  | EmptyString => (negate, numberOfNegations)
  end.

(** One round of the classification loop, on a trimmed pattern. *)
Definition classifyOne (sourceFolder : string)
    (acc : list string * list string) (pattern : string)
    : list string * list string :=
  let '(includeContents, excludeContents) := acc in
  let '(negate, numberOfNegations) := scanNegations pattern false 0 in
  if negate then
    let realPattern :=
      JsString.substring_to numberOfNegations pattern
      +:+ path_join sourceFolder (JsString.substring_from numberOfNegations pattern) in
    (includeContents, excludeContents ++ [realPattern])
  else
    let realPattern := path_join sourceFolder pattern in
    (includeContents ++ [realPattern], excludeContents).

(** [(includeContents, excludeContents)] after the classification loop. *)
Definition classify (sourceFolder : string) (contents : list string)
    : list string * list string :=
  fold_left (classifyOne sourceFolder) (map JsString.trim contents) ([], []).

(** [allFiles]: the paths of [tl.find] that are not directories. *)
Definition allFiles (sourceFolder : string) : list string :=
  List.filter (fun p => negb (tl_stats_isDirectory p)) (tl_find sourceFolder).

Definition matchOptions : MatchOptions :=
  {| matchBase := true; dot := true; nocase := String.eqb os_platform "win32" |}.

(** [Minimatch.match] on one path.  The pattern is trimmed; a comment
    pattern matches nothing, the empty pattern matches the empty path, and
    otherwise the answer is the hit, flipped when the pattern has an odd
    number of leading [!] ([parseNegate] is the loop of [scanNegations]). *)
Definition minimatch (f pattern : string) (options : MatchOptions) : bool :=
  let pattern := JsString.trim pattern in
  match pattern with
  | EmptyString => String.eqb f ""
  | String "#" _ => false
  | _ =>
      let '(negate, negateOffset) := scanNegations pattern false 0 in
      xorb negate (glob_hit options (JsString.substring_from negateOffset pattern) f)
  end.

(** [minimatch.match(list, pattern, options)] ([nonull] is not set). *)
Definition minimatch_match (paths : list string) (pattern : string)
    (options : MatchOptions) : list string :=
  List.filter (fun f => minimatch f pattern options) paths.

(** [pathsSeen] is a plain object, [{}], used as a map: it is held as the
    finite map of its own properties.  What it inherits from
    [Object.prototype] shows in the two operations the loop uses. *)

(** The [TypeError] of calling a property that is not a function. *)
Definition notAFunction : Value :=
  VStr "TypeError: pathsSeen.hasOwnProperty is not a function".

(** [pathsSeen.hasOwnProperty(key)].  The method is looked up on the object
    first: an own property named [hasOwnProperty], which the loop sets to
    [true], hides the method of [Object.prototype], and the call throws. *)
Definition hasOwnProperty (pathsSeen : gmap string bool) (key : string) : Exc bool :=
  match pathsSeen !! "hasOwnProperty" with
  | Some _ => inl notAFunction
  | None =>
      inr (match pathsSeen !! key with
           | Some _ => true
           | None => false
           end)
  end.

(** [pathsSeen[key] = true].  The key [__proto__] reaches the setter that
    [Object.prototype] has for it, which ignores a value that is not an
    object and leaves [pathsSeen] without an own property; every other key
    becomes an own property. *)
Definition setProperty (pathsSeen : gmap string bool) (key : string)
    : gmap string bool :=
  if String.eqb key "__proto__" then pathsSeen else <[key := true]> pathsSeen.

(** The loop over the matches of one include pattern: [pathsSeen] is the
    object used as a map, [files] the result array. *)
Definition includeMatch (acc : gmap string bool * list string)
    (matchPath : string) : Exc (gmap string bool * list string) :=
  let '(pathsSeen, files) := acc in
  match hasOwnProperty pathsSeen matchPath with
  | inl e => inl e
  | inr true => inr acc
  | inr false => inr (setProperty pathsSeen matchPath, files ++ [matchPath])
  end.

Definition applyInclude (all : list string)
    (acc : gmap string bool * list string) (pattern : string)
    : Exc (gmap string bool * list string) :=
  foldExc includeMatch (minimatch_match all pattern matchOptions) acc.

(** One exclude pattern: [files] is replaced by what [minimatch.match]
    returns on it. *)
Definition applyExclude (files : list string) (pattern : string) : list string :=
  minimatch_match files pattern matchOptions.

Definition withImplicitInclude (includeContents excludeContents : list string)
    : list string :=
  if ((length includeContents =? 0) && (0 <? length excludeContents))%nat
  then includeContents ++ ["**"]
  else includeContents.

Definition getFilesToCopy (sourceFolder : string) (contents : list string)
    : Exc (list string) :=
  let '(includeContents, excludeContents) := classify sourceFolder contents in
  let all := allFiles sourceFolder in
  let includeContents := withImplicitInclude includeContents excludeContents in
  match foldExc (applyInclude all) includeContents (∅, []) with
  | inl e => inl e
  | inr (_, files) => inr (fold_left applyExclude excludeContents files)
  end.

(** ** Path mapping: [prepareFiles] *)

Definition remotePath (sourceFolder targetFolder : string)
    (flattenFolders : bool) (x : string) : string :=
  let targetPath :=
    path_posix_join targetFolder
      (if flattenFolders
       then path_basename x
       else JsString.stripLeading "/"
              (JsString.stripLeading "\"
                 (JsString.substring_from (String.length sourceFolder) x))) in
  let targetPath :=
    if negb (path_isAbsolute targetPath) && negb (utils_pathIsUNC targetPath)
    then "./" +:+ targetPath
    else targetPath in
  utils_unixyPath targetPath.

Definition prepareFiles (filesToCopy : list string)
    (sourceFolder targetFolder : string) (flattenFolders : bool)
    : list (string * string) :=
  map (fun x => (x, remotePath sourceFolder targetFolder flattenFolders x))
      filesToCopy.

(** ** Directory planning *)

(** A [Set<string>] keeps its members in insertion order; it is held as
    the list of its members. *)
Definition set_has (s : list string) (x : string) : bool :=
  existsb (String.eqb x) s.

Definition set_add (s : list string) (x : string) : list string := s ++ [x].

(** [getUniqueFolders] of the batched variant. *)
Definition getUniqueFolders (filesToCopy : list string) : list string :=
  fold_left
    (fun foldersSet filePath =>
       let folderPath := path_dirname filePath in
       if set_has foldersSet folderPath then foldersSet
       else set_add foldersSet folderPath)
    filesToCopy [].

(** The [reduce] of [createRemoteFolders] in the single-burst variant:
    [uniqueRemotePaths]. *)
Definition uniqueRemotePaths (paths : list (string * string)) : list string :=
  fold_left
    (fun acc cur =>
       let directoryPath := path_posix_dirname (snd cur) in
       if (length (List.filter (fun x => JsString.startsWith x directoryPath) acc) =? 0)%nat
       then acc ++ [directoryPath]
       else acc)
    paths [].

End Selection.

(** ** Events and the task's effects *)

Inductive TaskResult : Type := Succeeded | Failed.

(** What the task does to the outside, each remote call with the answer it
    got ([None] or [inr]: it returned; [Some e] or [inl e]: it threw [e]). *)
Inductive Op : Type :=
| tl_setResourcePath (p : string)
| tl_debug (message : Value)
| console_log (message : Value)
| tl_warning (message : Value)
| tl_error (message : Value)
| tl_setResult (result : TaskResult) (message : Value)
| new_SshHelper (sshConfig : Value) (r : option Value)
| setupConnection (r : option Value)
| checkRemotePathExists (path : string) (r : Exc bool)
| runCommandOnRemoteMachine (command : string) (r : option Value)
| uploadFolder (sourceFolder targetFolder : string) (r : Exc Value)
| createRemoteDirectory (path : string) (r : option Value)
| uploadFile (sourceFile dest : string) (r : Exc Value)
| closeConnection (r : option Value)
| sftpClient_exists (path : string) (r : Exc bool)
| sftpClient_mkdir (path : string) (recursive : bool) (r : option Value).

(** How a promise settled. *)
Inductive Settled : Type :=
| fulfilled (value : Value)
| rejected (reason : Value).

(** One [async] callback of a [Promise.allSettled]: what it did, in its own
    order, and how its promise settled. *)
Record TaskRun := {
  task_ops : list Op;
  task_settled : Settled;
}.

(** The trace of a run: single steps, batches of callbacks that run
    interleaved until all of them have settled, and callbacks that are
    started and never awaited, so that they run along with what follows. *)
Inductive Event : Type :=
| Step (op : Op)
| AllSettled (tasks : list TaskRun)
| Detached (tasks : list TaskRun).

(** [./sshhelper]: what each call answers. *)
Class SshHelper := {
  ssh_new : Value -> option Value;
  ssh_setupConnection : option Value;
  ssh_checkRemotePathExists : string -> Exc bool;
  ssh_runCommandOnRemoteMachine : string -> option Value;
  ssh_uploadFolder : string -> string -> Exc Value;
  ssh_createRemoteDirectory : string -> option Value;
  ssh_uploadFile : string -> string -> Exc Value;
  ssh_closeConnection : option Value;
}.

(** [this.sftpClient] inside [createRemoteFolders] of the single-burst
    variant: what each call answers, whatever [this] is bound to there (a
    call on an undefined client throws a [TypeError]). *)
Class SftpClient := {
  sftp_exists : string -> Exc bool;
  sftp_mkdir : string -> bool -> option Value;
}.

(** The input-reading layer of [azure-pipelines-task-lib], the process
    environment, [__dirname] and [parseInt]. *)
Class TaskLib := {
  dirname__ : string;
  process_env : string -> option string;
  parseInt : string -> nat -> Value;
  tl_getInput : string -> bool -> Exc (option string);
  tl_getEndpointAuthorizationParameter : string -> string -> bool -> Exc (option string);
  tl_getEndpointDataParameter : string -> string -> bool -> Exc (option string);
  tl_getDelimitedInput : string -> string -> bool -> Exc (list string);
  tl_getPathInput : string -> bool -> bool -> Exc (option string);
  tl_getBoolInput : string -> bool -> Exc bool;
}.

(** Completion of a statement list inside [run]. *)
Inductive Completion (A : Type) : Type :=
| Normal (a : A)
| Throw (e : Value)
| Return.

Arguments Normal {A} a.
Arguments Throw {A} e.
Arguments Return {A}.

(** The value of the variable [sshHelper]. *)
Inductive SshHandle : Type := TheSshHelper (sshConfig : Value).

Record Outcome (A : Type) := {
  completion : Completion A;
  sshHelper : option SshHandle;
  emitted : list Event;
}.

Arguments completion {A} o.
Arguments sshHelper {A} o.
Arguments emitted {A} o.

(** A computation reads and writes the variable [sshHelper] and appends to
    the trace. *)
Definition M (A : Type) : Type := option SshHandle -> Outcome A.

Definition ret {A} (a : A) : M A :=
  fun v => {| completion := Normal a; sshHelper := v; emitted := [] |}.

Definition throw {A} (e : Value) : M A :=
  fun v => {| completion := Throw e; sshHelper := v; emitted := [] |}.

Definition return_ {A} : M A :=
  fun v => {| completion := Return; sshHelper := v; emitted := [] |}.

Definition bind {A B} (m : M A) (k : A -> M B) : M B :=
  fun v =>
    let o := m v in
    match completion o with
    | Normal a =>
        let o' := k a (sshHelper o) in
        {| completion := completion o'; sshHelper := sshHelper o';
           emitted := emitted o ++ emitted o' |}
    | Throw e => {| completion := Throw e; sshHelper := sshHelper o; emitted := emitted o |}
    | Return => {| completion := Return; sshHelper := sshHelper o; emitted := emitted o |}
    end.

Declare Scope m_scope.
Delimit Scope m_scope with M.
Notation "x <- m ;; k" := (bind m (fun x => k))
  (at level 100, m at next level, right associativity) : m_scope.
Notation "m ;;; k" := (bind m (fun _ => k))
  (at level 100, right associativity) : m_scope.

Definition emit (op : Op) : M unit :=
  fun v => {| completion := Normal tt; sshHelper := v; emitted := [Step op] |}.

Definition emitEvent (ev : Event) : M unit :=
  fun v => {| completion := Normal tt; sshHelper := v; emitted := [ev] |}.

Definition setSshHelper (h : SshHandle) : M unit :=
  fun _ => {| completion := Normal tt; sshHelper := Some h; emitted := [] |}.

Definition getSshHelper : M (option SshHandle) :=
  fun v => {| completion := Normal v; sshHelper := v; emitted := [] |}.

(** A library call that may throw. *)
Definition liftExc {A} (r : Exc A) : M A :=
  match r with
  | inl e => throw e
  | inr a => ret a
  end.

(** An awaited remote call that resolves to nothing or rejects. *)
Definition await_ (op : option Value -> Op) (r : option Value) : M unit :=
  bind (emit (op r)) (fun _ => match r with Some e => throw e | None => ret tt end).

(** An awaited remote call that resolves to a value or rejects. *)
Definition await {A} (op : Exc A -> Op) (r : Exc A) : M A :=
  bind (emit (op r)) (fun _ => liftExc r).

(** [try { m } catch (err) { handler err }] *)
Definition try_catch {A} (m : M A) (handler : Value -> M A) : M A :=
  fun v =>
    let o := m v in
    match completion o with
    | Throw e =>
        let o' := handler e (sshHelper o) in
        {| completion := completion o'; sshHelper := sshHelper o';
           emitted := emitted o ++ emitted o' |}
    | _ => o
    end.

(** [try { m } finally { cleanup }]: the completion of [m] stands unless
    [cleanup] completes abruptly. *)
Definition try_finally {A} (m : M A) (cleanup : M unit) : M A :=
  fun v =>
    let o := m v in
    let o' := cleanup (sshHelper o) in
    {| completion :=
         match completion o' with
         | Normal _ => completion o
         | Throw e => Throw e
         | Return => Return
         end;
       sshHelper := sshHelper o';
       emitted := emitted o ++ emitted o' |}.

(** The promise of a call of an async function: a [return] in the body
    resolves it, a [throw] that leaves the body rejects it. *)
Definition callAsync (m : M unit) : M unit :=
  fun v =>
    let o := m v in
    {| completion := match completion o with Return => Normal tt | c => c end;
       sshHelper := sshHelper o;
       emitted := emitted o |}.

(** [for (const x of xs) { body x }] *)
Fixpoint forOf {A} (xs : list A) (body : A -> M unit) : M unit :=
  match xs with
  | [] => ret tt
  | x :: xs' => bind (body x) (fun _ => forOf xs' body)
  end.

(** The callbacks of a batch each keep a log and settle. *)
Definition Task (A : Type) : Type := (list Op * Exc A)%type.

Definition task_ret {A} (a : A) : Task A := ([], inr a).
Definition task_throw {A} (e : Value) : Task A := ([], inl e).
Definition task_emit (op : Op) : Task unit := ([op], inr tt).

Definition task_bind {A B} (t : Task A) (k : A -> Task B) : Task B :=
  match t with
  | (ops, inr a) => let '(ops', r) := k a in (ops ++ ops', r)
  | (ops, inl e) => (ops, inl e)
  end.

Definition task_await {A} (op : Exc A -> Op) (r : Exc A) : Task A := ([op r], r).

Definition task_await_ (op : option Value -> Op) (r : option Value) : Task unit :=
  ([op r], match r with Some e => inl e | None => inr tt end).

(** [try { t } catch (error) { handler error }] inside a callback *)
Definition task_try_catch {A} (t : Task A) (handler : Value -> Task A) : Task A :=
  match t with
  | (ops, inl e) => let '(ops', r) := handler e in (ops ++ ops', r)
  | (ops, inr a) => (ops, inr a)
  end.

Definition settle (t : Task Value) : TaskRun :=
  {| task_ops := fst t;
     task_settled := match snd t with inr v => fulfilled v | inl e => rejected e end |}.

Definition isRejected (t : TaskRun) : bool :=
  match task_settled t with rejected _ => true | fulfilled _ => false end.

Definition isFulfilled (t : TaskRun) : bool :=
  match task_settled t with fulfilled _ => true | rejected _ => false end.

Definition reasonOf (t : TaskRun) : Value :=
  match task_settled t with rejected reason => reason | fulfilled _ => VUndefined end.

(** ** Transfer orchestration: [run] of the batched variant *)

Definition LF : string := String (ascii_of_nat 10) EmptyString.

(** Truthiness of a string that may be [undefined]. *)
Definition truthy (s : option string) : bool :=
  match s with
  | Some (String _ _) => true
  | _ => false
  end.

(** Truthiness of an array: every object is truthy, also the empty array. *)
Definition array_truthy {A} (xs : list A) : bool := true.

(** A string that may be [undefined], inside a string concatenation. *)
Definition js_str (s : option string) : string := default "undefined" s.

Definition VOpt (s : option string) : Value :=
  match s with Some x => VStr x | None => VUndefined end.

Definition chunkSize : nat := 10.

(** [Math.ceil(n / chunkSize)] *)
Definition chunkCount (n : nat) : nat := (n + (chunkSize - 1)) / chunkSize.

(** [xs.slice(from, to)] for [from <= to] *)
Definition slice {A} (xs : list A) (from to : nat) : list A :=
  firstn (to - from) (skipn from xs).

Section Orchestration.

Context `{NodePath} `{Minimatch} `{Host} `{SshHelper} `{TaskLib}.

Local Open Scope m_scope.

Definition getReadyTimeoutVariable : M Value :=
  readyTimeoutString <- liftExc (tl_getInput "readyTimeout" true) ;;
  ret (parseInt (js_str readyTimeoutString) 10).

(** The callback of the [chunk.map] inside [Promise.allSettled]. *)
Definition uploadTask (overwrite : bool) (pathTuple : string * string) : Task Value :=
  let '(fileToCopy, targetPath) := pathTuple in
  task_bind (task_emit (tl_debug (VCat (VStr "fileToCopy = ") (VStr fileToCopy)))) (fun _ =>
  task_bind (task_emit (console_log (VLoc "StartedFileCopy" [VStr fileToCopy; VStr targetPath]))) (fun _ =>
  task_bind
    (if negb overwrite then
       task_bind (task_await (checkRemotePathExists targetPath)
                    (ssh_checkRemotePathExists targetPath)) (fun fileExists =>
       if (fileExists : bool)
       then task_throw (VLoc "FileExists" [VStr targetPath])
       else task_ret tt)
     else task_ret tt) (fun _ =>
  task_await (uploadFile fileToCopy targetPath) (ssh_uploadFile fileToCopy targetPath)))).

(** [await Promise.allSettled(chunk.map(...))] *)
Definition allSettled (overwrite : bool) (chunk : list (string * string))
    : M (list TaskRun) :=
  let results := map (fun pathTuple => settle (uploadTask overwrite pathTuple)) chunk in
  emitEvent (AllSettled results) ;;;
  ret results.

(** The loop [for (let i = 0; i < chunks; i++)], entered at [i] with
    [todo = chunks - i] rounds to go; it yields [successedFiles]. *)
Fixpoint uploadChunks (overwrite : bool) (preparedFiles : list (string * string))
    (todo i successedFiles : nat) : M nat :=
  match todo with
  | 0 => ret successedFiles
  | S todo' =>
      let chunk := slice preparedFiles (i * chunkSize) (i * chunkSize + chunkSize) in
      results <- allSettled overwrite chunk ;;
      let errors := List.filter isRejected results in
      if (0 <? length errors)%nat then
        forOf errors (fun x => emit (tl_error (reasonOf x))) ;;;
        emit (tl_setResult Failed (VLoc "NumberFailed" [VNum (length errors)])) ;;;
        return_
      else
        uploadChunks overwrite preparedFiles todo' (S i)
          (successedFiles + length (List.filter isFulfilled results))
  end.

(** "Upload files to remote machine", up to the final [CopyCompleted]. *)
Definition uploadFiles (overwrite : bool) (preparedFiles : list (string * string))
    : M unit :=
  let chunks := chunkCount (length preparedFiles) in
  successedFiles <- uploadChunks overwrite preparedFiles chunks 0 0 ;;
  emit (console_log (VLoc "CopyCompleted" [VNum successedFiles])).

(** "Create remote folders structure": the loop over [folderStructure]. *)
Definition createFolders (folderStructure : list string) : M unit :=
  forOf folderStructure (fun foldersPath =>
    try_catch
      (await_ (createRemoteDirectory foldersPath) (ssh_createRemoteDirectory foldersPath) ;;;
       emit (console_log (VLoc "FolderCreated" [VStr foldersPath])))
      (fun error => throw (VLoc "TargetNotCreated" [VStr foldersPath; error]))).

Definition VTuple (p : string * string) : Value := VArr [VStr (fst p); VStr (snd p)].

(** The statement [if (filesToCopy) { ... } else ...] of [run]: map, create
    folders, upload.  The test is on an array. *)
Definition copySelected (filesToCopy : list string) (sourceFolder targetFolder : string)
    (overwrite failOnEmptySource flattenFolders : bool) : M unit :=
  if array_truthy filesToCopy then
    let preparedFiles := prepareFiles filesToCopy sourceFolder targetFolder flattenFolders in
    emit (tl_debug (VCat (VStr "Number of files to copy = ") (VNum (length preparedFiles)))) ;;;
    emit (tl_debug (VCat (VStr "filesToCopy = ") (VArr (map VTuple preparedFiles)))) ;;;
    emit (console_log (VLoc "CopyingFiles" [VNum (length preparedFiles)])) ;;;
    let folderStructure := getUniqueFolders (JsString.sort (map snd preparedFiles)) in
    createFolders folderStructure ;;;
    emit (console_log (VLoc "FoldersCreated" [VNum (length folderStructure)])) ;;;
    uploadFiles overwrite preparedFiles
  else if failOnEmptySource then
    throw (VLoc "NothingToCopy" [])
  else
    emit (tl_warning (VLoc "NothingToCopy" [])).

(** The [else] branch of [run]: the selection, which may throw, then the
    copy of what it returned. *)
Definition copyFiles (sourceFolder targetFolder : string) (contents : list string)
    (overwrite failOnEmptySource flattenFolders : bool) : M unit :=
  filesToCopy <- liftExc (getFilesToCopy sourceFolder contents) ;;
  copySelected filesToCopy sourceFolder targetFolder overwrite failOnEmptySource
    flattenFolders.

(** The branch for the single pattern ["**"]. *)
Definition copyDirectory (sourceFolder targetFolder : string) : M unit :=
  emit (tl_debug (VStr "Upload a directory to a remote machine")) ;;;
  try_catch
    (completedDirectory <- await (uploadFolder sourceFolder targetFolder)
                             (ssh_uploadFolder sourceFolder targetFolder) ;;
     emit (console_log (VLoc "CopyDirectoryCompleted" [completedDirectory])))
    (fun err => throw (VLoc "CopyDirectoryFailed" [VStr sourceFolder; err])).

(** "read SSH endpoint input" and "set up the SSH connection
    configuration": yields [sshConfig]. *)
Definition readSshConfig : M Value :=
  sshEndpoint <- liftExc (tl_getInput "sshEndpoint" true) ;;
  let sshEndpoint := js_str sshEndpoint in
  username <- liftExc (tl_getEndpointAuthorizationParameter sshEndpoint "username" false) ;;
  password <- liftExc (tl_getEndpointAuthorizationParameter sshEndpoint "password" true) ;;
  let privateKey := process_env ("ENDPOINT_DATA_" +:+ sshEndpoint +:+ "_PRIVATEKEY") in
  hostname <- liftExc (tl_getEndpointDataParameter sshEndpoint "host" false) ;;
  port <- liftExc (tl_getEndpointDataParameter sshEndpoint "port" true) ;;
  port <- (if truthy port then ret port
           else emit (console_log (VLoc "UseDefaultPort" [])) ;;; ret (Some "22")) ;;
  readyTimeout <- getReadyTimeoutVariable ;;
  let useFastPut :=
    negb (match process_env "USE_FAST_PUT" with
          | Some s => String.eqb s "false"
          | None => false
          end) in
  if truthy privateKey then
    emit (tl_debug (VStr "Using private key for ssh connection.")) ;;;
    ret (VObj [("host", VOpt hostname); ("port", VOpt port); ("username", VOpt username);
               ("privateKey", VOpt privateKey); ("passphrase", VOpt password);
               ("readyTimeout", readyTimeout); ("useFastPut", VBool useFastPut)])
  else
    emit (tl_debug (VStr "Using username and password for ssh connection.")) ;;;
    ret (VObj [("host", VOpt hostname); ("port", VOpt port); ("username", VOpt username);
               ("password", VOpt password);
               ("readyTimeout", readyTimeout); ("useFastPut", VBool useFastPut)]).

(** "clean target folder" before the copy *)
Definition cleanTarget (cleanTargetFolder : bool) (targetFolder : string) : M unit :=
  doClean <- (if cleanTargetFolder
              then await (checkRemotePathExists targetFolder)
                     (ssh_checkRemotePathExists targetFolder)
              else ret false) ;;
  if (doClean : bool) then
    emit (console_log (VLoc "CleanTargetFolder" [VStr targetFolder])) ;;;
    isWindowsOnTarget <- liftExc (tl_getBoolInput "isWindowsOnTarget" false) ;;
    cleanHiddenFilesInTarget <- liftExc (tl_getBoolInput "cleanHiddenFilesInTarget" false) ;;
    let cleanTargetFolderCmd :=
      utils_getCleanTargetFolderCmd targetFolder isWindowsOnTarget cleanHiddenFilesInTarget in
    try_catch
      (await_ (runCommandOnRemoteMachine cleanTargetFolderCmd)
         (ssh_runCommandOnRemoteMachine cleanTargetFolderCmd))
      (fun err => throw (VLoc "CleanTargetFolderFailed" [err]))
  else ret tt.

(** [sshHelper = new SshHelper(sshConfig)] *)
Definition newSshHelper (sshConfig : Value) : M unit :=
  emit (new_SshHelper sshConfig (ssh_new sshConfig)) ;;;
  match ssh_new sshConfig with
  | Some e => throw e
  | None => setSshHelper (TheSshHelper sshConfig)
  end.

(** The [try] block of [run]. *)
Definition runBody : M unit :=
  emit (tl_setResourcePath (path_join dirname__ "task.json")) ;;;
  sshConfig <- readSshConfig ;;
  contents <- liftExc (tl_getDelimitedInput "contents" LF true) ;;
  sourceFolder <- liftExc (tl_getPathInput "sourceFolder" true true) ;;
  let sourceFolder := js_str sourceFolder in
  targetFolder <- liftExc (tl_getInput "targetFolder" false) ;;
  let targetFolder :=
    if negb (truthy targetFolder) then "./"
    else JsString.replaceHomePrefix (js_str targetFolder) in
  cleanTargetFolder <- liftExc (tl_getBoolInput "cleanTargetFolder" false) ;;
  overwrite <- liftExc (tl_getBoolInput "overwrite" false) ;;
  failOnEmptySource <- liftExc (tl_getBoolInput "failOnEmptySource" false) ;;
  flattenFolders <- liftExc (tl_getBoolInput "flattenFolders" false) ;;
  (if negb (tl_stats_isDirectory sourceFolder)
   then throw (VLoc "SourceNotFolder" [])
   else ret tt) ;;;
  newSshHelper sshConfig ;;;
  await_ setupConnection ssh_setupConnection ;;;
  cleanTarget cleanTargetFolder targetFolder ;;;
  match contents with
  | [only] =>
      if String.eqb only "**"
      then copyDirectory sourceFolder targetFolder
      else copyFiles sourceFolder targetFolder contents overwrite failOnEmptySource flattenFolders
  | _ => copyFiles sourceFolder targetFolder contents overwrite failOnEmptySource flattenFolders
  end.

(** The [finally] block of [run]. *)
Definition runFinally : M unit :=
  h <- getSshHelper ;;
  match h with
  | Some _ =>
      emit (tl_debug (VStr "Closing the client connection")) ;;;
      await_ closeConnection ssh_closeConnection
  | None => ret tt
  end.

Definition run : M unit :=
  try_finally
    (try_catch runBody (fun err => emit (tl_setResult Failed err)))
    runFinally.

(** The run of the task from the start: [sshHelper] is not yet assigned. *)
Definition runTask : Outcome unit := run None.

(** The statement at the end of the module:
    [run().then(() => debug(...)).catch(err => debug(...))]. *)
Definition main : Outcome unit :=
  try_catch
    (callAsync run ;;; emit (tl_debug (VStr "Task successfully accomplished")))
    (fun err => emit (tl_debug (VCat (VStr "Run was unexpectedly failed due to: ") err)))
    None.

End Orchestration.

(** ** The single-burst variant *)

(** The older [copyfilesoverssh.ts]: it plans the remote folders with a
    prefix test, starts their creation without awaiting it, and uploads
    all files in one batch.  Its [getFilesToCopy], and its [run] outside of
    the copy branch, are those of the batched variant. *)
Module SingleBurst.

Section Run.

Context `{NodePath} `{Minimatch} `{Host} `{SshHelper} `{SftpClient} `{TaskLib}.

Local Open Scope m_scope.

(** The callback of [uniqueRemotePaths.forEach]: its errors are caught and
    returned. *)
Definition folderTask (x : string) : Task Value :=
  task_try_catch
    (task_bind (task_await (sftpClient_exists x) (sftp_exists x)) (fun found =>
     if negb found
     then task_bind (task_await_ (sftpClient_mkdir x true) (sftp_mkdir x true))
            (fun _ => task_ret VUndefined)
     else task_ret VUndefined))
    (fun error => task_ret (VLoc "TargetNotCreated" [VStr x])).

(** [createRemoteFolders]: an [async] function whose callbacks nobody
    awaits. *)
Definition createRemoteFolders (filesToCopy : list string)
    (targetFolder sourceFolder : string) (flattenFolders : bool) : M unit :=
  let paths :=
    map (fun fileToCopy =>
           let targetPath :=
             path_posix_join targetFolder
               (if flattenFolders
                then path_basename fileToCopy
                else JsString.stripLeading "/"
                       (JsString.stripLeading "\"
                          (JsString.substring_from (String.length sourceFolder)
                             fileToCopy))) in
           let targetPath :=
             if negb (path_isAbsolute targetPath) && negb (utils_pathIsUNC targetPath)
             then "./" +:+ targetPath
             else targetPath in
           let targetPath := utils_unixyPath targetPath in
           (fileToCopy, targetPath))
        filesToCopy in
  emitEvent (Detached (map (fun x => settle (folderTask x)) (uniqueRemotePaths paths))).

(** The callback of [filesToCopy.map] inside [Promise.allSettled]. *)
Definition uploadTask (sourceFolder targetFolder : string)
    (overwrite flattenFolders : bool) (fileToCopy : string) : Task Value :=
  task_bind (task_emit (tl_debug (VCat (VStr "fileToCopy = ") (VStr fileToCopy)))) (fun _ =>
  let relativePath :=
    if flattenFolders
    then path_basename fileToCopy
    else JsString.stripLeading "/"
           (JsString.stripLeading "\"
              (JsString.substring_from (String.length sourceFolder) fileToCopy)) in
  task_bind (task_emit (tl_debug (VCat (VStr "relativePath = ") (VStr relativePath)))) (fun _ =>
  let targetPath := path_posix_join targetFolder relativePath in
  let targetPath :=
    if negb (path_isAbsolute targetPath) && negb (utils_pathIsUNC targetPath)
    then "./" +:+ targetPath
    else targetPath in
  task_bind (task_emit (console_log (VLoc "StartedFileCopy" [VStr fileToCopy; VStr targetPath]))) (fun _ =>
  task_bind
    (if negb overwrite then
       task_bind (task_await (checkRemotePathExists targetPath)
                    (ssh_checkRemotePathExists targetPath)) (fun fileExists =>
       if (fileExists : bool)
       then task_throw (VLoc "FileExists" [VStr targetPath])
       else task_ret tt)
     else task_ret tt) (fun _ =>
  let targetPath := utils_unixyPath targetPath in
  task_await (uploadFile fileToCopy targetPath) (ssh_uploadFile fileToCopy targetPath))))).

(** The statement [if (filesToCopy) { ... } else ...] of [run]. *)
Definition copySelected (filesToCopy : list string) (sourceFolder targetFolder : string)
    (overwrite failOnEmptySource flattenFolders : bool) : M unit :=
  if array_truthy filesToCopy then
    emit (tl_debug (VCat (VStr "Number of files to copy = ") (VNum (length filesToCopy)))) ;;;
    emit (tl_debug (VCat (VStr "filesToCopy = ") (VArr (map VStr filesToCopy)))) ;;;
    emit (console_log (VLoc "CopyingFiles" [VNum (length filesToCopy)])) ;;;
    createRemoteFolders filesToCopy targetFolder sourceFolder flattenFolders ;;;
    let results :=
      map (fun fileToCopy =>
             settle (uploadTask sourceFolder targetFolder overwrite flattenFolders fileToCopy))
          filesToCopy in
    emitEvent (AllSettled results) ;;;
    let errors := List.filter isRejected results in
    (if (0 <? length errors)%nat then
       forOf errors (fun x => emit (tl_error (reasonOf x))) ;;;
       emit (tl_setResult Failed (VLoc "NumberFailed" [VNum (length errors)]))
     else ret tt) ;;;
    let successedFiles := List.filter isFulfilled results in
    emit (console_log (VLoc "CopyCompleted" [VNum (length successedFiles)]))
  else if failOnEmptySource then
    throw (VLoc "NothingToCopy" [])
  else
    emit (tl_warning (VLoc "NothingToCopy" [])).

(** The [else] branch of [run]: the selection, which may throw, then the
    copy of what it returned. *)
Definition copyFiles (sourceFolder targetFolder : string) (contents : list string)
    (overwrite failOnEmptySource flattenFolders : bool) : M unit :=
  filesToCopy <- liftExc (getFilesToCopy sourceFolder contents) ;;
  copySelected filesToCopy sourceFolder targetFolder overwrite failOnEmptySource
    flattenFolders.

(** The branch for the single pattern ["**"]. *)
Definition copyDirectory (sourceFolder targetFolder : string) : M unit :=
  emit (tl_debug (VStr "Upload all files to a remote machine")) ;;;
  try_catch
    (completedDirectory <- await (uploadFolder sourceFolder targetFolder)
                             (ssh_uploadFolder sourceFolder targetFolder) ;;
     emit (console_log (VLoc "CopyDirectoryCompleted" [completedDirectory])))
    (fun err => throw (VLoc "CopyDirectoryFailed" [VStr sourceFolder; err])).

(** The [try] block of [run]. *)
Definition runBody : M unit :=
  emit (tl_setResourcePath (path_join dirname__ "task.json")) ;;;
  sshConfig <- readSshConfig ;;
  contents <- liftExc (tl_getDelimitedInput "contents" LF true) ;;
  sourceFolder <- liftExc (tl_getPathInput "sourceFolder" true true) ;;
  let sourceFolder := js_str sourceFolder in
  targetFolder <- liftExc (tl_getInput "targetFolder" false) ;;
  let targetFolder :=
    if negb (truthy targetFolder) then "./"
    else JsString.replaceHomePrefix (js_str targetFolder) in
  cleanTargetFolder <- liftExc (tl_getBoolInput "cleanTargetFolder" false) ;;
  overwrite <- liftExc (tl_getBoolInput "overwrite" false) ;;
  failOnEmptySource <- liftExc (tl_getBoolInput "failOnEmptySource" false) ;;
  flattenFolders <- liftExc (tl_getBoolInput "flattenFolders" false) ;;
  (if negb (tl_stats_isDirectory sourceFolder)
   then throw (VLoc "SourceNotFolder" [])
   else ret tt) ;;;
  newSshHelper sshConfig ;;;
  await_ setupConnection ssh_setupConnection ;;;
  cleanTarget cleanTargetFolder targetFolder ;;;
  match contents with
  | [only] =>
      if String.eqb only "**"
      then copyDirectory sourceFolder targetFolder
      else copyFiles sourceFolder targetFolder contents overwrite failOnEmptySource flattenFolders
  | _ => copyFiles sourceFolder targetFolder contents overwrite failOnEmptySource flattenFolders
  end.

Definition run : M unit :=
  try_finally
    (try_catch runBody (fun err => emit (tl_setResult Failed err)))
    runFinally.

Definition runTask : Outcome unit := run None.

End Run.

End SingleBurst.


(** ** Instances for closed examples *)

(** Node's [path.posix], as [lib/path.js] computes it. *)
Module Posix.

Definition isSlash (c : ascii) : bool := Ascii.eqb c "/".

(** [s.split("/")] *)
Fixpoint split (s : string) : list string :=
  match s with
  | EmptyString => [EmptyString]
  | String c s' =>
      if isSlash c then EmptyString :: split s'
      else match split s' with
           | seg :: segs => String c seg :: segs
           | [] => [String c EmptyString]
           end
  end.

Fixpoint joinWith (sep : string) (segs : list string) : string :=
  match segs with
  | [] => EmptyString
  | [seg] => seg
  | seg :: segs' => seg +:+ sep +:+ joinWith sep segs'
  end.

(** [normalizeString]: the kept segments, last one first. *)
Definition normalizeStep (allowAboveRoot : bool) (res : list string) (seg : string)
    : list string :=
  if String.eqb seg "" || String.eqb seg "." then res
  else if String.eqb seg ".." then
    match res with
    | top :: res' =>
        if String.eqb top ".." then (if allowAboveRoot then seg :: res else res)
        else res'
    | [] => if allowAboveRoot then [seg] else []
    end
  else seg :: res.

Definition normalizeString (path : string) (allowAboveRoot : bool) : string :=
  joinWith "/" (rev (fold_left (normalizeStep allowAboveRoot) (split path) [])).

Definition isAbsolute (path : string) : bool :=
  match path with
  | String c _ => isSlash c
  | EmptyString => false
  end.

Fixpoint endsWithSlash (path : string) : bool :=
  match path with
  | EmptyString => false
  | String c EmptyString => isSlash c
  | String _ rest => endsWithSlash rest
  end.

Definition normalize (path : string) : string :=
  match path with
  | EmptyString => "."
  | _ =>
      let trailingSeparator := endsWithSlash path in
      let p := normalizeString path (negb (isAbsolute path)) in
      match p with
      | EmptyString =>
          if isAbsolute path then "/" else if trailingSeparator then "./" else "."
      | _ =>
          let p := if trailingSeparator then p +:+ "/" else p in
          if isAbsolute path then "/" +:+ p else p
      end
  end.

Definition join (a b : string) : string :=
  match a, b with
  | EmptyString, EmptyString => "."
  | EmptyString, _ => normalize b
  | _, EmptyString => normalize a
  | _, _ => normalize (a +:+ "/" +:+ b)
  end.

Fixpoint dropSlashes (cs : list ascii) : list ascii :=
  match cs with
  | c :: cs' => if isSlash c then dropSlashes cs' else cs
  | [] => []
  end.

Fixpoint dropSegment (cs : list ascii) : list ascii :=
  match cs with
  | c :: cs' => if isSlash c then cs else dropSegment cs'
  | [] => []
  end.

Fixpoint takeSegment (cs : list ascii) : list ascii :=
  match cs with
  | c :: cs' => if isSlash c then [] else c :: takeSegment cs'
  | [] => []
  end.

(** [dirname]: scanning from the end down to index 1, skip the trailing
    slashes and the last segment; [end] is the index of the slash met
    then. *)
Definition dirname (path : string) : string :=
  match list_ascii_of_string path with
  | [] => "."
  | c0 :: rest =>
      let hasRoot := isSlash c0 in
      match dropSegment (dropSlashes (rev rest)) with
      | [] => if hasRoot then "/" else "."
      | _slash :: before =>
          match before with
          | [] => if hasRoot then "//" else string_of_list_ascii [c0]
          | _ => string_of_list_ascii (c0 :: rev before)
          end
      end
  end.

(** [basename] with no suffix argument. *)
Definition basename (path : string) : string :=
  string_of_list_ascii
    (rev (takeSegment (dropSlashes (rev (list_ascii_of_string path))))).

#[export] Instance nodePath : NodePath := {|
  path_join := join;
  path_basename := basename;
  path_dirname := dirname;
  path_isAbsolute := isAbsolute;
  path_posix_join := join;
  path_posix_dirname := dirname;
|}.

End Posix.

(** The wildcard fragment of [minimatch] under [dot: true]: literal
    characters, [?], [*] within a path segment, and [**] as a whole
    segment.  Braces, character classes, extended globs and the backslash
    escape are outside of it and would be read as literal characters: the
    instance serves the closed examples only, whose patterns stay inside
    the fragment. *)
Module Glob.

Definition lower (c : ascii) : ascii :=
  let n := nat_of_ascii c in
  if ((65 <=? n) && (n <=? 90))%nat then ascii_of_nat (n + 32) else c.

Definition sameChar (nocase : bool) (c d : ascii) : bool :=
  if nocase then Ascii.eqb (lower c) (lower d) else Ascii.eqb c d.

(** One pattern segment against one path segment. *)
Fixpoint segment (nocase : bool) (p : string) : string -> bool :=
  match p with
  | EmptyString => fun f => match f with EmptyString => true | _ => false end
  | String c p' =>
      if Ascii.eqb c "*" then
        fix star (f : string) : bool :=
          segment nocase p' f
          || match f with String _ f' => star f' | EmptyString => false end
      else if Ascii.eqb c "?" then
        fun f => match f with String _ f' => segment nocase p' f' | EmptyString => false end
      else
        fun f => match f with
                 | String d f' => sameChar nocase c d && segment nocase p' f'
                 | EmptyString => false
                 end
  end.

Definition isDots (f : string) : bool := String.eqb f "." || String.eqb f "..".

Definition isMagic (c : ascii) : bool := Ascii.eqb c "*" || Ascii.eqb c "?".

Definition hasMagic (p : string) : bool := existsb isMagic (list_ascii_of_string p).

Definition startsMagic (p : string) : bool :=
  match p with String c _ => isMagic c | EmptyString => false end.

(** A segment with a wildcard does not match the empty segment, and one
    that starts with a wildcard does not match [.] and [..]. *)
Definition part (nocase : bool) (p f : string) : bool :=
  (if hasMagic p
   then negb (String.eqb f "") && negb (startsMagic p && isDots f)
   else true)
  && segment nocase p f.

(** [matchOne]: the pattern segments against the path segments.  A [**]
    that ends the pattern swallows the rest, which is not empty; elsewhere
    it swallows any number of leading segments other than [.] and [..]. *)
Fixpoint matchOne (nocase : bool) (pattern : list string) : list string -> bool :=
  match pattern with
  | [] => fun file => match file with [] => true | _ => false end
  | p :: pattern' =>
      if String.eqb p "**" then
        match pattern' with
        | [] => fun file =>
                  match file with
                  | [] => false
                  | _ => forallb (fun f => negb (isDots f)) file
                  end
        | _ => fix globstar (file : list string) : bool :=
                 match file with
                 | [] => false
                 | f :: file' =>
                     matchOne nocase pattern' file
                     || (negb (isDots f) && globstar file')
                 end
        end
      else
        fun file => match file with
                    | f :: file' => part nocase p f && matchOne nocase pattern' file'
                    | [] => false
                    end
  end.

(** The last non-empty segment of a path. *)
Definition filename (parts : list string) : string :=
  match List.filter (fun s => negb (String.eqb s "")) (rev parts) with
  | s :: _ => s
  | [] => EmptyString
  end.

Definition hit (options : MatchOptions) (pattern f : string) : bool :=
  let parts := Posix.split pattern in
  let file := Posix.split f in
  let file :=
    if matchBase options && (length parts =? 1)%nat then [filename file] else file in
  matchOne (nocase options) parts file.

#[export] Instance minimatch : Minimatch := {| glob_hit := hit |}.

End Glob.

(** An agent on Linux over a given file tree, a remote that answers from
    given lists, and task inputs given directly. *)
Module Demo.

Definition among (xs : list string) (x : string) : bool := existsb (String.eqb x) xs.

(** Modelled from the spec: [utils.pathIsUNC] of [./utils], which the spec
    describes as the test for a network-share path of the form
    [\\server\share]. *)
Definition pathIsUNC (path : string) : bool := String.prefix "\\" path.

(** Modelled from the spec: [utils.unixyPath] of [./utils], which the spec
    describes as converting all backslashes to forward slashes. *)
Fixpoint unixyPath (path : string) : string :=
  match path with
  | EmptyString => EmptyString
  | String c rest => String (if Ascii.eqb c "\" then "/"%char else c) (unixyPath rest)
  end.

(** Modelled from the spec: [utils.getCleanTargetFolderCmd] of [./utils].
    The spec says only that the command cleans the target folder; the text
    here stands for it. *)
Definition getCleanTargetFolderCmd (targetFolder : string)
    (isWindowsOnTarget cleanHiddenFilesInTarget : bool) : string :=
  "clean " +:+ targetFolder.

(** A tree given by its paths, directories listed apart. *)
Definition host (paths directories : list string) : Host := {|
  os_platform := "linux";
  tl_find := fun _ => paths;
  tl_stats_isDirectory := among directories;
  utils_pathIsUNC := pathIsUNC;
  utils_unixyPath := unixyPath;
  utils_getCleanTargetFolderCmd := getCleanTargetFolderCmd;
|}.

(** A remote where the paths of [existing] exist, creating a directory of
    [refusedDirectories] fails and uploading to a path of [refusedFiles]
    fails. *)
Definition remote (existing refusedDirectories refusedFiles : list string)
    : SshHelper := {|
  ssh_new := fun _ => None;
  ssh_setupConnection := None;
  ssh_checkRemotePathExists := fun p => inr (among existing p);
  ssh_runCommandOnRemoteMachine := fun _ => None;
  ssh_uploadFolder := fun _ t => inr (VStr t);
  ssh_createRemoteDirectory :=
    fun p => if among refusedDirectories p then Some (VStr "Permission denied") else None;
  ssh_uploadFile :=
    fun _ t => if among refusedFiles t then inl (VStr "Failure") else inr (VStr t);
  ssh_closeConnection := None;
|}.

(** The client of [createRemoteFolders] when [this] is undefined: every
    call throws. *)
Definition typeError : Value :=
  VStr "TypeError: Cannot read properties of undefined (reading 'sftpClient')".

Definition noClient : SftpClient := {|
  sftp_exists := fun _ => inl typeError;
  sftp_mkdir := fun _ _ => Some typeError;
|}.

(** A client on a remote without directories that refuses to create any. *)
Definition refusingClient : SftpClient := {|
  sftp_exists := fun _ => inr false;
  sftp_mkdir := fun _ _ => Some (VStr "Permission denied");
|}.

(** Task inputs: the endpoint [ep] with a password, the given patterns,
    source and target folders and flags. *)
Definition inputs (contents : list string) (sourceFolder targetFolder : string)
    (overwrite failOnEmptySource flattenFolders : bool) : TaskLib := {|
  dirname__ := "/task";
  process_env := fun _ => None;
  parseInt := fun _ _ => VNum 20;
  tl_getInput := fun name _ =>
    inr (if String.eqb name "sshEndpoint" then Some "ep"
         else if String.eqb name "readyTimeout" then Some "20"
         else if String.eqb name "targetFolder" then Some targetFolder
         else None);
  tl_getEndpointAuthorizationParameter := fun _ key _ =>
    inr (if String.eqb key "username" then Some "user" else Some "secret");
  tl_getEndpointDataParameter := fun _ key _ =>
    inr (if String.eqb key "host" then Some "example.org" else None);
  tl_getDelimitedInput := fun _ _ _ => inr contents;
  tl_getPathInput := fun _ _ _ => inr (Some sourceFolder);
  tl_getBoolInput := fun name _ =>
    inr (if String.eqb name "overwrite" then overwrite
         else if String.eqb name "failOnEmptySource" then failOnEmptySource
         else if String.eqb name "flattenFolders" then flattenFolders
         else false);
|}.

(** The tree of the specification's scenario. *)
Definition tree : Host :=
  host ["/src"; "/src/a.txt"; "/src/b.log"; "/src/sub"; "/src/sub/c.log"]
       ["/src"; "/src/sub"].

End Demo.

(** * Properties *)

(** ** Pattern classification *)

Definition isNegated (pattern : string) : bool := fst (scanNegations pattern false 0).

Definition negationCount (pattern : string) : nat := snd (scanNegations pattern false 0).

(** The glob body of a pattern: what follows its leading [!] characters. *)
Definition patternBody (pattern : string) : string :=
  JsString.substring_from (negationCount pattern) pattern.

Fixpoint bangs (k : nat) : string :=
  match k with
  | 0 => EmptyString
  | S k' => String "!" (bangs k')
  end.

Lemma scanNegations_acc pattern negate n :
  scanNegations pattern negate n =
  (xorb negate (isNegated pattern), n + negationCount pattern).
Proof.
  unfold isNegated, negationCount.
  revert negate n. induction pattern as [|c rest IH]; intros negate n; simpl.
  - now rewrite xorb_false_r, Nat.add_0_r.
  - destruct (Ascii.eqb c "!"); simpl.
    + rewrite (IH (negb negate) (S n)), (IH true 1). simpl.
      f_equal; [now destruct negate, (fst (scanNegations rest false 0)) | lia].
    + now rewrite xorb_false_r, Nat.add_0_r.
Qed.

Lemma scanNegations_pair pattern :
  scanNegations pattern false 0 = (isNegated pattern, negationCount pattern).
Proof. unfold isNegated, negationCount. now destruct (scanNegations pattern false 0). Qed.


Lemma substring_to_bangs pattern :
  JsString.substring_to (negationCount pattern) pattern = bangs (negationCount pattern).
Proof.
  induction pattern as [|c rest IH]; [reflexivity|].
  unfold negationCount in *. simpl.
  destruct (Ascii.eqb c "!") eqn:E; [|reflexivity].
  rewrite scanNegations_acc. simpl. apply Ascii.eqb_eq in E. subst c.
  f_equal. exact IH.
Qed.



Section SelectionFacts.

Context `{NodePath} `{Minimatch} `{Host}.

(** The anchored form of an exclude pattern: its [!] characters, then the
    source folder joined with its body. *)
Definition anchorExclude (sourceFolder pattern : string) : string :=
  bangs (negationCount pattern) +:+ path_join sourceFolder (patternBody pattern).

Lemma classifyOne_fold sourceFolder patterns inc exc :
  fold_left (classifyOne sourceFolder) patterns (inc, exc) =
  (inc ++ map (path_join sourceFolder)
            (List.filter (fun p => negb (isNegated p)) patterns),
   exc ++ map (anchorExclude sourceFolder) (List.filter isNegated patterns)).
Proof.
  revert inc exc. induction patterns as [|p ps IH]; intros inc exc; simpl.
  - now rewrite !app_nil_r.
  - rewrite scanNegations_pair. destruct (isNegated p) eqn:E; simpl; rewrite IH.
    + f_equal. rewrite <- app_assoc. simpl. unfold anchorExclude, patternBody.
      now rewrite substring_to_bangs.
    + f_equal. now rewrite <- app_assoc.
Qed.

Lemma classify_eq sourceFolder contents :
  classify sourceFolder contents =
  (map (path_join sourceFolder)
     (List.filter (fun p => negb (isNegated p)) (map JsString.trim contents)),
   map (anchorExclude sourceFolder)
     (List.filter isNegated (map JsString.trim contents))).
Proof. unfold classify. now rewrite classifyOne_fold. Qed.

Lemma filter_all {A} (f : A -> bool) (l : list A) :
  Forall (fun x => f x = true) l -> List.filter f l = l.
Proof. induction 1; simpl; [reflexivity|]. now rewrite H2, IHForall. Qed.

Lemma filter_none {A} (f : A -> bool) (l : list A) :
  Forall (fun x => f x = false) l -> List.filter f l = [].
Proof. induction 1; simpl; [reflexivity|]. now rewrite H2. Qed.

(** ** The include phase keeps first occurrences *)

(** Walk [l] and keep each element not among [seen] nor kept before. *)
Fixpoint firstSeen (seen l : list string) : list string :=
  match l with
  | [] => []
  | x :: l' =>
      if set_has seen x then firstSeen seen l'
      else x :: firstSeen (seen ++ [x]) l'
  end.

(** Deduplication by exact string, in order of first occurrence. *)
Definition dedup (l : list string) : list string := firstSeen [] l.

Lemma set_has_In s x : set_has s x = true <-> In x s.
Proof.
  unfold set_has. rewrite existsb_exists. split.
  - intros (y & Hy & E). apply String.eqb_eq in E. now subst.
  - intros Hx. exists x. split; [assumption | apply String.eqb_refl].
Qed.

Lemma set_has_false s x : set_has s x = false <-> ~ In x s.
Proof.
  rewrite <- set_has_In. destruct (set_has s x); split; intros; easy.
Qed.

Lemma firstSeen_app seen a b :
  firstSeen seen (a ++ b) = firstSeen seen a ++ firstSeen (seen ++ firstSeen seen a) b.
Proof.
  revert seen. induction a as [|x a IH]; intros seen; simpl.
  - now rewrite app_nil_r.
  - destruct (set_has seen x); [apply IH|].
    simpl. rewrite IH. now rewrite <- app_assoc.
Qed.

Lemma firstSeen_In seen l x :
  In x (firstSeen seen l) <-> In x l /\ ~ In x seen.
Proof.
  revert seen. induction l as [|y l IH]; intros seen; simpl; [tauto|].
  destruct (set_has seen y) eqn:E.
  - apply set_has_In in E. rewrite IH. split; [tauto|].
    intros [[->|Hl] Hs]; tauto.
  - apply set_has_false in E. simpl. rewrite IH, in_app_iff. simpl.
    destruct (String.eqb_spec y x) as [->|Hne]; [tauto|].
    split; [tauto|]. intros [[Hy|Hl] Hs]; [congruence|]. right. tauto.
Qed.

Lemma firstSeen_NoDup seen l : List.NoDup (firstSeen seen l).
Proof.
  revert seen. induction l as [|y l IH]; intros seen; simpl; [constructor|].
  destruct (set_has seen y); [apply IH|].
  constructor; [|apply IH]. rewrite firstSeen_In, in_app_iff. simpl. tauto.
Qed.

Lemma firstSeen_NoDup_id seen l :
  List.NoDup l -> (forall x, In x l -> ~ In x seen) -> firstSeen seen l = l.
Proof.
  intros Hl. revert seen. induction Hl as [|y l Hy Hl IH]; intros seen Hs; simpl; [reflexivity|].
  assert (E : set_has seen y = false) by (apply set_has_false, Hs; now left).
  rewrite E. f_equal. apply IH. intros x Hx. rewrite in_app_iff. simpl.
  intros [Hin|[->|[]]]; [|contradiction]. apply (Hs x); [now right | assumption].
Qed.

Lemma dedup_NoDup_id l : List.NoDup l -> dedup l = l.
Proof. intros Hl. apply firstSeen_NoDup_id; auto. Qed.

(** ** The object [pathsSeen], read off the array [files] *)

Definition isProto (x : string) : bool := String.eqb x "__proto__".

(** One round of the loop over the matches, on the array [files] alone:
    the own properties of [pathsSeen] are the paths pushed so far, but for
    [__proto__], which is never one. *)
Definition pushSeen (files : list string) (matchPath : string) : Exc (list string) :=
  if set_has files "hasOwnProperty" then inl notAFunction
  else if negb (isProto matchPath) && set_has files matchPath then inr files
  else inr (files ++ [matchPath]).

(** [pathsSeen] holds exactly the paths pushed to [files], [__proto__]
    apart. *)
Definition seenAgrees (pathsSeen : gmap string bool) (files : list string) : Prop :=
  forall x, pathsSeen !! x = None <-> isProto x = true \/ ~ In x files.

Lemma seenAgrees_has pathsSeen files x :
  seenAgrees pathsSeen files ->
  (match pathsSeen !! x with Some _ => true | None => false end)
  = negb (isProto x) && set_has files x.
Proof.
  intros Hm. specialize (Hm x). destruct (pathsSeen !! x) eqn:E.
  - destruct (isProto x); [exfalso; assert (D : Some b = None) by tauto; discriminate|].
    simpl. symmetry. apply set_has_In.
    destruct (set_has files x) eqn:F; [now apply set_has_In|].
    apply set_has_false in F. assert (D : Some b = None) by tauto. discriminate.
  - destruct (isProto x); [reflexivity|]. simpl. symmetry. apply set_has_false.
    destruct (proj1 Hm eq_refl) as [D|D]; [discriminate | assumption].
Qed.

Lemma includeMatch_pushSeen pathsSeen files x :
  seenAgrees pathsSeen files ->
  match includeMatch (pathsSeen, files) x with
  | inl e => pushSeen files x = inl e
  | inr (pathsSeen', files') =>
      pushSeen files x = inr files' /\ seenAgrees pathsSeen' files'
  end.
Proof.
  intros Hm. unfold includeMatch, hasOwnProperty, pushSeen.
  pose proof (seenAgrees_has pathsSeen files "hasOwnProperty" Hm) as Hh.
  pose proof (seenAgrees_has pathsSeen files x Hm) as Hx.
  change (negb (isProto "hasOwnProperty")) with true in Hh. simpl andb in Hh.
  rewrite <- Hh.
  destruct (pathsSeen !! "hasOwnProperty"); [reflexivity|].
  rewrite <- Hx. destruct (pathsSeen !! x) eqn:E; [now split|].
  split; [reflexivity|]. unfold setProperty. fold (isProto x).
  intros y. rewrite in_app_iff. simpl. destruct (isProto x) eqn:P.
  - rewrite (Hm y). split; [|tauto]. intros [Hy|Hy]; [tauto|].
    destruct (String.eqb_spec x y) as [<-|Hne]; [tauto|]. right. tauto.
  - destruct (decide (x = y)) as [<-|Hne].
    + rewrite lookup_insert_eq, P. split; [discriminate|]. intros [D|D]; [discriminate|].
      tauto.
    + rewrite lookup_insert_ne by assumption. rewrite (Hm y). tauto.
Qed.

Lemma foldExc_app {A B} (body : A -> B -> Exc A) (xs ys : list B) (acc : A) :
  foldExc body (xs ++ ys) acc
  = match foldExc body xs acc with
    | inl e => inl e
    | inr acc' => foldExc body ys acc'
    end.
Proof.
  revert acc. induction xs as [|x xs IH]; intros acc; simpl; [reflexivity|].
  destruct (body acc x); [reflexivity | apply IH].
Qed.

Lemma includeMatch_fold matches pathsSeen files :
  seenAgrees pathsSeen files ->
  match foldExc includeMatch matches (pathsSeen, files) with
  | inl e => foldExc pushSeen matches files = inl e
  | inr (pathsSeen', files') =>
      foldExc pushSeen matches files = inr files' /\ seenAgrees pathsSeen' files'
  end.
Proof.
  revert pathsSeen files.
  induction matches as [|x ms IH]; intros m files Hm; cbn [foldExc].
  - now split.
  - pose proof (includeMatch_pushSeen m files x Hm) as Hstep.
    destruct (includeMatch (m, files) x) as [e|[m1 files1]].
    + now rewrite Hstep.
    + destruct Hstep as [-> Hm1]. now apply IH.
Qed.

Lemma applyInclude_fold all patterns pathsSeen files :
  seenAgrees pathsSeen files ->
  match foldExc (applyInclude all) patterns (pathsSeen, files) with
  | inl e =>
      foldExc pushSeen
        (concat (map (fun p => minimatch_match all p matchOptions) patterns)) files
      = inl e
  | inr (pathsSeen', files') =>
      foldExc pushSeen
        (concat (map (fun p => minimatch_match all p matchOptions) patterns)) files
      = inr files'
      /\ seenAgrees pathsSeen' files'
  end.
Proof.
  revert pathsSeen files.
  induction patterns as [|p ps IH]; intros m files Hm; cbn [foldExc map concat].
  - now split.
  - rewrite foldExc_app. unfold applyInclude at 1.
    pose proof (includeMatch_fold (minimatch_match all p matchOptions) m files Hm)
      as Hstep.
    destruct (foldExc includeMatch (minimatch_match all p matchOptions) (m, files))
      as [e|[m1 files1]].
    + now rewrite Hstep.
    + destruct Hstep as [-> Hm1]. now apply IH.
Qed.

Lemma seenAgrees_empty : seenAgrees ∅ [].
Proof. intros x. rewrite lookup_empty. simpl. tauto. Qed.

(** The selection in closed form: the include patterns' matches, pushed in
    turn through the test on [pathsSeen], then narrowed by each exclude
    pattern in turn. *)
Lemma getFilesToCopy_eq sourceFolder contents :
  getFilesToCopy sourceFolder contents =
  let '(includeContents, excludeContents) := classify sourceFolder contents in
  match foldExc pushSeen
          (concat (map (fun p => minimatch_match (allFiles sourceFolder) p matchOptions)
                     (withImplicitInclude includeContents excludeContents))) []
  with
  | inl e => inl e
  | inr files => inr (fold_left applyExclude excludeContents files)
  end.
Proof.
  unfold getFilesToCopy. destruct (classify sourceFolder contents) as [inc exc].
  pose proof (applyInclude_fold (allFiles sourceFolder) (withImplicitInclude inc exc)
                ∅ [] seenAgrees_empty) as Hf.
  destruct (foldExc (applyInclude (allFiles sourceFolder))
              (withImplicitInclude inc exc) (∅, [])) as [e|[m files]].
  - now rewrite Hf.
  - destruct Hf as [-> _]. reflexivity.
Qed.

(** A path that is neither [__proto__] nor [hasOwnProperty]. *)
Definition ordinary (x : string) : bool :=
  negb (isProto x) && negb (String.eqb x "hasOwnProperty").

(** Over ordinary paths the object is a set of the paths seen: the loop
    keeps first occurrences. *)
Lemma pushSeen_ordinary matches files :
  Forall (fun x => ordinary x = true) matches ->
  ~ In "hasOwnProperty" files ->
  foldExc pushSeen matches files = inr (files ++ firstSeen files matches).
Proof.
  intros Hall. revert files. induction Hall as [|x ms Hx _ IH]; intros files Hh; simpl.
  - now rewrite app_nil_r.
  - unfold pushSeen at 1. rewrite (proj2 (set_has_false _ _) Hh).
    unfold ordinary in Hx. apply andb_prop in Hx as [Hp Hn]. rewrite Hp. simpl.
    destruct (set_has files x); [now apply IH|].
    rewrite IH, <- app_assoc; [reflexivity|].
    rewrite in_app_iff. simpl. intros [D|[D|[]]]; [contradiction|]. subst x.
    discriminate.
Qed.




End SelectionFacts.



(** ** Selection *)

Section SelectionTheorems.

Context `{NodePath} `{Minimatch} `{Host}.

Lemma set_has_app s1 s2 x : set_has (s1 ++ s2) x = set_has s1 x || set_has s2 x.
Proof. unfold set_has. apply existsb_app. Qed.

Lemma set_has_single y x : set_has [y] x = String.eqb x y.
Proof. unfold set_has. simpl. apply orb_false_r. Qed.

(** [firstSeen] reads [seen] as a set. *)
Lemma firstSeen_ext s1 s2 l :
  (forall z, set_has s1 z = set_has s2 z) -> firstSeen s1 l = firstSeen s2 l.
Proof.
  revert s1 s2. induction l as [|y l IH]; intros s1 s2 E; simpl; [reflexivity|].
  rewrite (E y). destruct (set_has s2 y); [now apply IH|].
  f_equal. apply IH. intros z. now rewrite !set_has_app, E.
Qed.

Lemma firstSeen_snoc seen x l :
  firstSeen (seen ++ [x]) l
  = firstSeen seen (List.filter (fun y => negb (String.eqb y x)) l).
Proof.
  revert seen. induction l as [|y l IH]; intros seen; simpl; [reflexivity|].
  rewrite set_has_app, set_has_single.
  destruct (String.eqb y x) eqn:E; simpl.
  - rewrite orb_true_r. apply IH.
  - rewrite orb_false_r. destruct (set_has seen y); [apply IH|].
    f_equal. rewrite <- IH. apply firstSeen_ext. intros z.
    rewrite !set_has_app, !set_has_single.
    now destruct (set_has seen z), (String.eqb z x), (String.eqb z y).
Qed.

(** [dedup] keeps the head and removes its later copies. *)
Lemma dedup_cons x l :
  dedup (x :: l) = x :: dedup (List.filter (fun y => negb (String.eqb y x)) l).
Proof. unfold dedup. simpl. f_equal. apply (firstSeen_snoc [] x l). Qed.

Lemma dedup_In l x : In x (dedup l) <-> In x l.
Proof. unfold dedup. rewrite firstSeen_In. simpl. tauto. Qed.

Lemma dedup_NoDup l : List.NoDup (dedup l).
Proof. apply firstSeen_NoDup. Qed.

(** What [minimatch.match] returns for the include pattern made from the
    raw pattern [p]. *)
Definition includeMatches (sourceFolder p : string) : list string :=
  minimatch_match (allFiles sourceFolder)
    (path_join sourceFolder (JsString.trim p)) matchOptions.

(** For a pattern list with no exclude pattern, over a listing of ordinary
    paths, the selection is the concatenation of the include patterns'
    match lists, in pattern order, deduplicated by exact path string
    keeping first occurrences. *)
Lemma include_only_ordinary (sourceFolder : string) (contents : list string) :
  Forall (fun p => isNegated (JsString.trim p) = false) contents ->
  Forall (fun f => ordinary f = true) (allFiles sourceFolder) ->
  getFilesToCopy sourceFolder contents
  = inr (dedup (concat (map (includeMatches sourceFolder) contents))).
Proof.
  intros Hinc Hord. rewrite getFilesToCopy_eq, classify_eq.
  rewrite (filter_none isNegated), (filter_all (fun p => negb (isNegated p))).
  - simpl map. unfold withImplicitInclude. simpl. rewrite andb_false_r.
    rewrite pushSeen_ordinary; [now rewrite !map_map | | intros []].
    apply List.Forall_forall. intros f Hf. apply in_concat in Hf as (ms & Hms & Hf).
    apply in_map_iff in Hms as (p & <- & _). unfold minimatch_match in Hf.
    apply List.filter_In in Hf as [Hf _]. rewrite List.Forall_forall in Hord. auto.
  - apply List.Forall_map. eapply List.Forall_impl; [|exact Hinc]. simpl. now intros p ->.
  - now apply List.Forall_map.
Qed.

(** ** Exclude-only pattern lists *)














(** ** Double negation *)

(** A pattern with an even number of leading [!] is pushed to the include
    patterns as the source folder joined with the whole pattern, its [!]
    characters included. *)
Lemma even_negation_is_include sourceFolder p :
  isNegated (JsString.trim p) = false ->
  classify sourceFolder [p] = ([path_join sourceFolder (JsString.trim p)], []).
Proof. intros E. unfold classify. simpl. now rewrite scanNegations_pair, E. Qed.

(** ** Path mapping *)

(** C10. [prepareFiles] returns one pair per selected file, in the order of
    its input, and the local side of the i-th pair is the i-th input path
    itself. *)
Theorem prepareFiles_keeps_selection (filesToCopy : list string)
    (sourceFolder targetFolder : string) (flattenFolders : bool) :
  length (prepareFiles filesToCopy sourceFolder targetFolder flattenFolders)
  = length filesToCopy
  /\ map fst (prepareFiles filesToCopy sourceFolder targetFolder flattenFolders)
     = filesToCopy
  /\ (forall i,
        nth_error (prepareFiles filesToCopy sourceFolder targetFolder flattenFolders) i
        = option_map
            (fun x => (x, remotePath sourceFolder targetFolder flattenFolders x))
            (nth_error filesToCopy i)).
Proof.
  unfold prepareFiles. split; [apply length_map|]. split.
  - rewrite map_map. simpl. apply map_id.
  - intros i. apply nth_error_map.
Qed.

(** ** Directory planning *)

Lemma getUniqueFolders_fold files foldersSet :
  fold_left
    (fun foldersSet filePath =>
       let folderPath := path_dirname filePath in
       if set_has foldersSet folderPath then foldersSet
       else set_add foldersSet folderPath)
    files foldersSet
  = foldersSet ++ firstSeen foldersSet (map path_dirname files).
Proof.
  revert foldersSet. induction files as [|f files IH]; intros acc; simpl.
  - now rewrite app_nil_r.
  - rewrite IH. destruct (set_has acc (path_dirname f)); [reflexivity|].
    unfold set_add. now rewrite <- app_assoc.
Qed.

Lemma prefix_refl s : String.prefix s s = true.
Proof.
  induction s as [|c s IH]; simpl; [reflexivity|].
  destruct (ascii_dec c c); [assumption | congruence].
Qed.

(** One round of the [reduce] of [createRemoteFolders]. *)
Definition planStep (acc : list string) (cur : string * string) : list string :=
  let directoryPath := path_posix_dirname (snd cur) in
  if (length (List.filter (fun x => JsString.startsWith x directoryPath) acc) =? 0)%nat
  then acc ++ [directoryPath]
  else acc.

Lemma planStep_cases acc cur :
  (Forall (fun x => JsString.startsWith x (path_posix_dirname (snd cur)) = false) acc
   /\ planStep acc cur = acc ++ [path_posix_dirname (snd cur)])
  \/ ((exists x, In x acc
                 /\ JsString.startsWith x (path_posix_dirname (snd cur)) = true)
      /\ planStep acc cur = acc).
Proof.
  unfold planStep. set (d := path_posix_dirname (snd cur)).
  destruct (List.filter (fun x => JsString.startsWith x d) acc) as [|x l] eqn:E; simpl.
  - left. split; [|reflexivity]. apply List.Forall_forall. intros x Hx.
    destruct (JsString.startsWith x d) eqn:Ex; [|reflexivity].
    assert (Hin : In x (List.filter (fun x => JsString.startsWith x d) acc))
      by (apply List.filter_In; now split).
    rewrite E in Hin. destruct Hin.
  - right. split; [|reflexivity]. exists x.
    apply (List.filter_In (fun x => JsString.startsWith x d)). rewrite E. now left.
Qed.

Lemma snoc_split {A} (acc : list A) d pre y post :
  acc ++ [d] = pre ++ y :: post ->
  (post = [] /\ y = d /\ pre = acc)
  \/ (exists post', post = post' ++ [d] /\ acc = pre ++ y :: post').
Proof.
  destruct (List.exists_last (l := y :: post)) as (l' & z & E); [discriminate|].
  intros Heq. rewrite E, app_assoc in Heq. apply app_inj_tail in Heq as [Hacc ->].
  destruct post as [|w post].
  - left. destruct l' as [|? [|? ?]]; simpl in E; try discriminate.
    inversion E; subst. rewrite app_nil_r. auto.
  - right. destruct (List.exists_last (l := w :: post)) as (post' & z' & E'); [discriminate|].
    rewrite E' in E. change (y :: post' ++ [z']) with ((y :: post') ++ [z']) in E.
    apply app_inj_tail in E as [<- <-]. exists post'. rewrite E'. auto.
Qed.

(** No planned directory is a prefix of one planned before it. *)
Definition noneStartsWithLater (plan : list string) : Prop :=
  forall pre y post,
    plan = pre ++ y :: post -> Forall (fun x => JsString.startsWith x y = false) pre.

Lemma uniqueRemotePaths_fold paths acc :
  noneStartsWithLater acc ->
  noneStartsWithLater (fold_left planStep paths acc)
  /\ (forall x, In x acc -> In x (fold_left planStep paths acc))
  /\ (forall p, In p paths ->
        exists x, In x (fold_left planStep paths acc)
                  /\ JsString.startsWith x (path_posix_dirname (snd p)) = true).
Proof.
  revert acc. induction paths as [|cur paths IH]; intros acc Hacc; simpl.
  - split; [assumption|]. split; [auto|]. intros p [].
  - assert (Hstep : noneStartsWithLater (planStep acc cur)).
    { destruct (planStep_cases acc cur) as [[Hall ->]|[_ ->]]; [|assumption].
      intros pre y post Heq. apply snoc_split in Heq as [(_ & -> & ->)|(post' & _ & ->)].
      - assumption.
      - now apply (Hacc pre y post'). }
    destruct (IH _ Hstep) as (Hinv & Hmono & Hcov).
    split; [assumption|]. split.
    + intros x Hx. apply Hmono.
      destruct (planStep_cases acc cur) as [[_ ->]|[_ ->]]; [|assumption].
      apply in_or_app. now left.
    + intros p [<-|Hp]; [|now apply Hcov].
      destruct (planStep_cases acc cur) as [[_ E]|[(x & Hx & Hs) E]].
      * exists (path_posix_dirname (snd cur)). split; [|apply prefix_refl].
        apply Hmono. rewrite E. apply in_or_app. right. now left.
      * exists x. split; [|assumption]. apply Hmono. now rewrite E.
Qed.

(** C3 (amended). [getUniqueFolders] returns the parent directories of its
    input paths deduplicated by exact string, each once, in order of first
    occurrence.  The plan of the single-burst variant adds a directory
    only if no directory added before starts with it: no entry is a prefix
    of an earlier entry, and every parent directory is a prefix of some
    entry. *)
Theorem folder_plans_deduplicate (filesToCopy : list string)
    (paths : list (string * string)) :
  getUniqueFolders filesToCopy = dedup (map path_dirname filesToCopy)
  /\ List.NoDup (getUniqueFolders filesToCopy)
  /\ (forall pre y post,
        uniqueRemotePaths paths = pre ++ y :: post ->
        Forall (fun x => JsString.startsWith x y = false) pre)
  /\ (forall p, In p paths ->
        exists x, In x (uniqueRemotePaths paths)
                  /\ JsString.startsWith x (path_posix_dirname (snd p)) = true).
Proof.
  assert (E : getUniqueFolders filesToCopy = dedup (map path_dirname filesToCopy)).
  { unfold getUniqueFolders. now rewrite getUniqueFolders_fold. }
  split; [exact E|]. split; [rewrite E; apply dedup_NoDup|].
  assert (Hnil : noneStartsWithLater []).
  { intros pre y post Heq. now destruct pre. }
  destruct (uniqueRemotePaths_fold paths [] Hnil) as (Hinv & _ & Hcov).
  split; [exact Hinv | exact Hcov].
Qed.

End SelectionTheorems.

(** ** Closed examples of the selection and planning *)

#[local] Existing Instances Posix.nodePath Glob.minimatch Demo.tree.

(** The scenario of the specification: [**] without the log files. *)
Example select_all_but_logs :
  getFilesToCopy "/src" ["**"; "!**/*.log"] = inr ["/src/a.txt"].
Proof. vm_compute. reflexivity. Qed.

(** The mapping of the specification's round trip. *)
Example map_round_trip :
  remotePath "root" "dest" false "root/a/b/c.txt" = "./dest/a/b/c.txt"
  /\ remotePath "root" "dest" true "root/a/b/c.txt" = "./dest/c.txt".
Proof. vm_compute. split; reflexivity. Qed.

(** Three include patterns over the tree, whose paths are ordinary. *)
Example include_only_ordinary_tree :
  getFilesToCopy "/src" ["*.log"; " **/sub/** "; "b.*"]
  = inr (dedup (concat (map (includeMatches "/src") ["*.log"; " **/sub/** "; "b.*"])))
  /\ getFilesToCopy "/src" ["*.log"; " **/sub/** "; "b.*"]
     = inr ["/src/b.log"; "/src/sub/c.log"].
Proof.
  split; [|vm_compute; reflexivity].
  apply include_only_ordinary; repeat constructor.
Qed.

(** A folder that holds the files [__proto__] and [a.txt], listed from
    [.]. *)
Definition protoTree : Host := Demo.host ["."; "__proto__"; "a.txt"] ["."].

(** A folder that holds the files [hasOwnProperty] and [z.txt], listed from
    [.]. *)
Definition methodTree : Host := Demo.host ["."; "hasOwnProperty"; "z.txt"] ["."].

(** C8. The object [pathsSeen] does not eliminate every duplicate.  With
    the include pattern [*] given twice over a folder that holds a file
    named [__proto__], that path is never recorded and is selected once
    for each pattern, where the deduplicated union of the matches holds it
    once.  Over a folder that holds a file named [hasOwnProperty], the
    path hides the method the test calls, and the selection throws at the
    next match instead of returning the union. *)
Theorem include_dedup_misses_object_keys :
  Forall (fun p => isNegated (JsString.trim p) = false) ["*"; "*"]
  /\ @getFilesToCopy Posix.nodePath Glob.minimatch protoTree "." ["*"; "*"]
     = inr ["__proto__"; "a.txt"; "__proto__"]
  /\ dedup (concat (map (@includeMatches Posix.nodePath Glob.minimatch protoTree ".")
                      ["*"; "*"]))
     = ["__proto__"; "a.txt"]
  /\ @getFilesToCopy Posix.nodePath Glob.minimatch methodTree "." ["*"]
     = inl notAFunction
  /\ dedup (concat (map (@includeMatches Posix.nodePath Glob.minimatch methodTree ".")
                      ["*"]))
     = ["hasOwnProperty"; "z.txt"].
Proof. vm_compute. repeat split; repeat constructor. Qed.




(** C4. At the pattern [!!a.txt] the code pushes the include pattern
    [/src/!!a.txt], whose [!] characters no longer lead the pattern and are
    matched as literal characters: the selection is empty, while the
    pattern [a.txt] selects [/src/a.txt]. *)
Theorem double_negation_keeps_bangs :
  isNegated "!!a.txt" = false
  /\ classify "/src" ["!!a.txt"] = (["/src/!!a.txt"], [])
  /\ getFilesToCopy "/src" ["!!a.txt"] = inr []
  /\ getFilesToCopy "/src" ["a.txt"] = inr ["/src/a.txt"].
Proof. vm_compute. repeat split; reflexivity. Qed.

(** Whether [x] is a path-prefix ancestor of [y]. *)
Definition isAncestor (x y : string) : bool := JsString.startsWith y (x +:+ "/").

Definition ancestorFree (plan : list string) : Prop :=
  forall x y, In x plan -> In y plan -> isAncestor x y = false.

(** The array of a selection that returned. *)
Definition selected (selection : Exc (list string)) : list string :=
  match selection with
  | inr files => files
  | inl _ => []
  end.

(** The files selected by the pattern [**/*] in the tree, mapped under
    [dest]. *)
Definition mappedTree : list (string * string) :=
  prepareFiles (selected (getFilesToCopy "/src" ["**/*"])) "/src" "dest" false.

(** C3 (counterexample). For the three files of the tree, both plans hold
    [./dest] and its subdirectory [./dest/sub]. *)
Lemma plan_holds_ancestor_and_descendant :
  map snd mappedTree = ["./dest/a.txt"; "./dest/b.log"; "./dest/sub/c.log"]
  /\ getUniqueFolders (JsString.sort (map snd mappedTree)) = ["./dest"; "./dest/sub"]
  /\ uniqueRemotePaths mappedTree = ["./dest"; "./dest/sub"]
  /\ ~ ancestorFree (getUniqueFolders (JsString.sort (map snd mappedTree)))
  /\ ~ ancestorFree (uniqueRemotePaths mappedTree).
Proof.
  assert (E1 : getUniqueFolders (JsString.sort (map snd mappedTree))
               = ["./dest"; "./dest/sub"]) by (vm_compute; reflexivity).
  assert (E2 : uniqueRemotePaths mappedTree = ["./dest"; "./dest/sub"])
    by (vm_compute; reflexivity).
  split; [vm_compute; reflexivity|]. split; [exact E1|]. split; [exact E2|].
  rewrite E1, E2.
  assert (Hno : ~ ancestorFree ["./dest"; "./dest/sub"]).
  { intros Hfree. specialize (Hfree "./dest" "./dest/sub").
    assert (Hfalse : isAncestor "./dest" "./dest/sub" = false).
    { apply Hfree; simpl; auto. }
    vm_compute in Hfalse. discriminate. }
  split; exact Hno.
Qed.

(** ** Reading traces *)

(** The operations of an event: a batch stands for the operations of its
    callbacks. *)
Definition opsOfEvent (ev : Event) : list Op :=
  match ev with
  | Step op => [op]
  | AllSettled tasks => concat (map task_ops tasks)
  | Detached tasks => concat (map task_ops tasks)
  end.

Definition opsOf (trace : list Event) : list Op := concat (map opsOfEvent trace).

(** The batches of a trace, in the order they were dispatched. *)
Fixpoint batchesOf (trace : list Event) : list (list TaskRun) :=
  match trace with
  | [] => []
  | AllSettled tasks :: trace' => tasks :: batchesOf trace'
  | Step _ :: trace' => batchesOf trace'
  | Detached _ :: trace' => batchesOf trace'
  end.

Definition isUploadFile (op : Op) : bool :=
  match op with uploadFile _ _ _ => true | _ => false end.

Definition isCloseConnection (op : Op) : bool :=
  match op with closeConnection _ => true | _ => false end.

Definition isWarning (op : Op) : bool :=
  match op with tl_warning _ => true | _ => false end.

Definition isSetResult (op : Op) : bool :=
  match op with tl_setResult _ _ => true | _ => false end.


Lemma opsOf_app t1 t2 : opsOf (t1 ++ t2) = opsOf t1 ++ opsOf t2.
Proof. unfold opsOf. now rewrite map_app, concat_app. Qed.

Lemma batchesOf_app t1 t2 : batchesOf (t1 ++ t2) = batchesOf t1 ++ batchesOf t2.
Proof.
  induction t1 as [|ev t1 IH]; [reflexivity|]. destruct ev; simpl; now rewrite IH.
Qed.

(** ** Batches *)

(** The batches of size [n] of a list: the i-th one is the slice from
    [i * n] to [i * n + n]. *)
Definition chunksOf {A} (n : nat) (xs : list A) : list (list A) :=
  map (fun i => slice xs (i * n) (i * n + n)) (seq 0 ((length xs + (n - 1)) / n)).

(** Whether some callback of a batch was rejected. *)
Definition anyRejected (batch : list TaskRun) : bool := existsb isRejected batch.

(** The batches up to, and with, the first one that has a rejection. *)
Fixpoint untilFailure (batches : list (list TaskRun)) : list (list TaskRun) :=
  match batches with
  | [] => []
  | batch :: rest => if anyRejected batch then [batch] else batch :: untilFailure rest
  end.

(** The first batch that has a rejection. *)
Definition firstFailure (batches : list (list TaskRun)) : option (list TaskRun) :=
  List.find anyRejected batches.

Lemma firstn_plus {A} (a b : nat) (xs : list A) :
  firstn (a + b) xs = firstn a xs ++ firstn b (skipn a xs).
Proof.
  revert xs. induction a as [|a IH]; intros xs; [reflexivity|].
  destruct xs as [|x xs]; simpl; [now rewrite firstn_nil | now rewrite IH].
Qed.

Lemma slices_concat {A} (n k : nat) (xs : list A) :
  concat (map (fun i => slice xs (i * n) (i * n + n)) (seq 0 k)) = firstn (k * n) xs.
Proof.
  induction k as [|k IH]; [reflexivity|].
  rewrite seq_S, map_app, concat_app, IH. simpl. rewrite app_nil_r.
  unfold slice. replace (k * n + n - k * n) with n by lia.
  replace (n + k * n) with (k * n + n) by lia. now rewrite firstn_plus.
Qed.

(** The batches partition the list, in order. *)
Lemma chunksOf_concat {A} (xs : list A) : concat (chunksOf chunkSize xs) = xs.
Proof.
  unfold chunksOf. rewrite slices_concat. apply firstn_all2.
  unfold chunkSize. simpl Nat.sub.
  pose proof (Nat.div_mod_eq (length xs + 9) 10) as Hdm.
  pose proof (Nat.mod_upper_bound (length xs + 9) 10) as Hlt. lia.
Qed.

Lemma chunksOf_length {A} (xs : list A) :
  length (chunksOf chunkSize xs) = chunkCount (length xs).
Proof. unfold chunksOf, chunkCount. now rewrite length_map, length_seq. Qed.

Lemma filter_concat {A} (f : A -> bool) (ls : list (list A)) :
  List.filter f (concat ls) = concat (map (List.filter f) ls).
Proof.
  induction ls as [|l ls IH]; [reflexivity|]. simpl. now rewrite List.filter_app, IH.
Qed.

Lemma isFulfilled_not_rejected t : isFulfilled t = negb (isRejected t).
Proof. unfold isFulfilled, isRejected. now destruct (task_settled t). Qed.

Lemma no_rejected_filter batch :
  anyRejected batch = false ->
  List.filter isRejected batch = [] /\ List.filter isFulfilled batch = batch.
Proof.
  unfold anyRejected. induction batch as [|t batch IH]; simpl; [auto|].
  rewrite isFulfilled_not_rejected. destruct (isRejected t); simpl; [discriminate|].
  intros E. destruct (IH E) as [-> ->]. auto.
Qed.

Lemma some_rejected_filter batch :
  anyRejected batch = true -> (0 <? length (List.filter isRejected batch))%nat = true.
Proof.
  unfold anyRejected. induction batch as [|t batch IH]; simpl; [discriminate|].
  destruct (isRejected t); simpl; [reflexivity | exact IH].
Qed.

(** Before the first failing batch no callback was rejected, so the
    rejections seen until then are those of the failing batch. *)
Lemma untilFailure_rejections batches failed :
  firstFailure batches = Some failed ->
  List.filter isRejected (concat (untilFailure batches)) = List.filter isRejected failed
  /\ exists ok, untilFailure batches = ok ++ [failed]
                /\ Forall (fun b => anyRejected b = false) ok.
Proof.
  unfold firstFailure. induction batches as [|b bs IH]; simpl; [discriminate|].
  destruct (anyRejected b) eqn:E.
  - intros [= ->]. simpl. rewrite app_nil_r. split; [reflexivity|]. now exists [].
  - intros Hf. destruct (IH Hf) as (Hc & ok & Hok & Hall). simpl.
    rewrite List.filter_app, Hc, (proj1 (no_rejected_filter b E)). split; [reflexivity|].
    exists (b :: ok). rewrite Hok. split; [reflexivity | now constructor].
Qed.

Lemma untilFailure_none batches :
  firstFailure batches = None ->
  untilFailure batches = batches
  /\ List.filter isFulfilled (concat batches) = concat batches.
Proof.
  unfold firstFailure. induction batches as [|b bs IH]; simpl; [auto|].
  destruct (anyRejected b) eqn:E; [discriminate|].
  intros Hf. destruct (IH Hf) as [-> Hc]. split; [reflexivity|].
  now rewrite List.filter_app, Hc, (proj2 (no_rejected_filter b E)).
Qed.

(** ** The upload phase *)

Section UploadTheorems.

Context `{SshHelper}.

Lemma outcome_eta {A} (o : Outcome A) :
  o = {| completion := completion o; sshHelper := sshHelper o; emitted := emitted o |}.
Proof. now destruct o. Qed.

Lemma bind_normal {A B} (m : M A) (k : A -> M B) v a :
  completion (m v) = Normal a ->
  bind m k v
  = {| completion := completion (k a (sshHelper (m v)));
       sshHelper := sshHelper (k a (sshHelper (m v)));
       emitted := emitted (m v) ++ emitted (k a (sshHelper (m v))) |}.
Proof. intros E. unfold bind. now rewrite E. Qed.

Lemma forOf_emit {A} (xs : list A) (f : A -> Op) v :
  forOf xs (fun x => emit (f x)) v
  = {| completion := Normal tt; sshHelper := v; emitted := map (fun x => Step (f x)) xs |}.
Proof.
  induction xs as [|x xs IH]; [reflexivity|].
  simpl. unfold bind. simpl. now rewrite IH.
Qed.

(** What the task reports when a batch has rejections. *)
Definition failureReport (failed : list TaskRun) : list Event :=
  map (fun x => Step (tl_error (reasonOf x))) (List.filter isRejected failed)
  ++ [Step (tl_setResult Failed
              (VLoc "NumberFailed" [VNum (length (List.filter isRejected failed))]))].

(** The settled callbacks of the batches of [preparedFiles] from the i-th
    on, [todo] of them. *)
Definition runsFrom (overwrite : bool) (preparedFiles : list (string * string))
    (i todo : nat) : list (list TaskRun) :=
  map (fun j =>
         map (fun pathTuple => settle (uploadTask overwrite pathTuple))
             (slice preparedFiles (j * chunkSize) (j * chunkSize + chunkSize)))
      (seq i todo).

Lemma allSettled_eq overwrite chunk v :
  allSettled overwrite chunk v
  = {| completion :=
         Normal (map (fun pathTuple => settle (uploadTask overwrite pathTuple)) chunk);
       sshHelper := v;
       emitted :=
         [AllSettled (map (fun pathTuple => settle (uploadTask overwrite pathTuple)) chunk)] |}.
Proof. reflexivity. Qed.

Lemma uploadChunks_eq overwrite preparedFiles todo i successedFiles v :
  uploadChunks overwrite preparedFiles todo i successedFiles v
  = {| completion :=
         match firstFailure (runsFrom overwrite preparedFiles i todo) with
         | Some _ => Return
         | None =>
             Normal (successedFiles
                     + length (List.filter isFulfilled
                                 (concat (runsFrom overwrite preparedFiles i todo))))
         end;
       sshHelper := v;
       emitted :=
         map AllSettled (untilFailure (runsFrom overwrite preparedFiles i todo))
         ++ match firstFailure (runsFrom overwrite preparedFiles i todo) with
            | Some failed => failureReport failed
            | None => []
            end |}.
Proof.
  revert i successedFiles. induction todo as [|todo IH]; intros i successedFiles.
  - simpl. unfold ret. f_equal. f_equal. lia.
  - change (runsFrom overwrite preparedFiles i (S todo))
      with (map (fun pathTuple => settle (uploadTask overwrite pathTuple))
              (slice preparedFiles (i * chunkSize) (i * chunkSize + chunkSize))
            :: runsFrom overwrite preparedFiles (S i) todo).
    cbn [uploadChunks]. unfold bind at 1. rewrite allSettled_eq.
    cbn [completion sshHelper emitted].
    remember (map (fun pathTuple => settle (uploadTask overwrite pathTuple))
                (slice preparedFiles (i * chunkSize) (i * chunkSize + chunkSize)))
      as results eqn:Hres.
    unfold firstFailure. cbn [List.find untilFailure].
    fold (firstFailure (runsFrom overwrite preparedFiles (S i) todo)).
    destruct (anyRejected results) eqn:E.
    + rewrite (some_rejected_filter _ E). unfold bind.
      rewrite forOf_emit. reflexivity.
    + destruct (no_rejected_filter _ E) as [E1 E2]. rewrite E1, E2.
      cbn [length Nat.ltb Nat.leb]. rewrite IH. cbn [completion sshHelper emitted].
      f_equal.
      destruct (firstFailure (runsFrom overwrite preparedFiles (S i) todo));
        [reflexivity|].
      f_equal. cbn [concat]. rewrite List.filter_app, E2, length_app. lia.
Qed.

(** The settled callbacks of every batch of [preparedFiles]. *)
Definition runsOf (overwrite : bool) (preparedFiles : list (string * string))
    : list (list TaskRun) :=
  map (map (fun pathTuple => settle (uploadTask overwrite pathTuple)))
      (chunksOf chunkSize preparedFiles).

Lemma runsFrom_all overwrite preparedFiles :
  runsFrom overwrite preparedFiles 0 (chunkCount (length preparedFiles))
  = runsOf overwrite preparedFiles.
Proof. unfold runsFrom, runsOf, chunksOf. now rewrite map_map. Qed.

Lemma runsOf_concat overwrite preparedFiles :
  concat (runsOf overwrite preparedFiles)
  = map (fun pathTuple => settle (uploadTask overwrite pathTuple)) preparedFiles.
Proof. unfold runsOf. now rewrite <- concat_map, chunksOf_concat. Qed.

(** C6. The batches of ten are dispatched in sequence, three of them for
    25 files.  The trace of the upload phase holds the batches up to the
    first one with a rejection, and with it; after that one the task logs
    its errors, reports failure with the number of rejections seen in the
    batches dispatched, returns, and starts no further batch.  When no
    batch has a rejection every batch is dispatched and the task logs the
    number of files copied, which is the number of all files. *)
Theorem batches_stop_at_first_failure (overwrite : bool)
    (preparedFiles : list (string * string)) (v : option SshHandle) :
  length (runsOf overwrite preparedFiles) = chunkCount (length preparedFiles)
  /\ chunkCount 25 = 3
  /\ batchesOf (emitted (uploadFiles overwrite preparedFiles v))
     = untilFailure (runsOf overwrite preparedFiles)
  /\ match firstFailure (runsOf overwrite preparedFiles) with
     | Some failed =>
         emitted (uploadFiles overwrite preparedFiles v)
         = map AllSettled (untilFailure (runsOf overwrite preparedFiles))
           ++ map (fun x => Step (tl_error (reasonOf x))) (List.filter isRejected failed)
           ++ [Step (tl_setResult Failed
                       (VLoc "NumberFailed"
                          [VNum (length
                                   (List.filter isRejected
                                      (concat (untilFailure
                                                 (runsOf overwrite preparedFiles)))))]))]
         /\ completion (uploadFiles overwrite preparedFiles v) = Return
     | None =>
         emitted (uploadFiles overwrite preparedFiles v)
         = map AllSettled (runsOf overwrite preparedFiles)
           ++ [Step (console_log (VLoc "CopyCompleted" [VNum (length preparedFiles)]))]
         /\ completion (uploadFiles overwrite preparedFiles v) = Normal tt
     end.
Proof.
  split; [unfold runsOf; now rewrite length_map, chunksOf_length|].
  split; [reflexivity|].
  unfold uploadFiles, bind. rewrite uploadChunks_eq, runsFrom_all. simpl.
  assert (Hb : forall bs, batchesOf (map AllSettled bs) = bs).
  { induction bs as [|b bs IH]; simpl; [reflexivity | now rewrite IH]. }
  destruct (firstFailure (runsOf overwrite preparedFiles)) as [failed|] eqn:E; simpl.
  - destruct (untilFailure_rejections _ _ E) as (Hc & _).
    split.
    + rewrite batchesOf_app, Hb. unfold failureReport. rewrite batchesOf_app.
      assert (Hn : forall l : list TaskRun,
                 batchesOf (map (fun x => Step (tl_error (reasonOf x))) l) = []).
      { induction l; simpl; auto. }
      rewrite Hn. simpl. now rewrite app_nil_r.
    + split; [|reflexivity]. unfold failureReport. now rewrite Hc.
  - destruct (untilFailure_none _ E) as (Hu & Hf). rewrite Hu, Hf.
    rewrite runsOf_concat, length_map, app_nil_r.
    split; [|split; reflexivity].
    rewrite batchesOf_app, Hb. simpl. apply app_nil_r.
Qed.


End UploadTheorems.

(** ** Invariants of a run *)

(** An invariant over the trace so far and the variable [sshHelper], with
    the events that keep it; assigning [sshHelper] keeps it too. *)
Record Inv := {
  holds : list Event -> option SshHandle -> Prop;
  okEvent : Event -> bool;
  holds_event : forall hist v ev,
    okEvent ev = true -> holds hist v -> holds (hist ++ [ev]) v;
  holds_set : forall hist v h, holds hist v -> holds hist (Some h);
}.

(** [m] keeps the invariant [J], however it completes. *)
Definition preserves (J : Inv) {A} (m : M A) : Prop :=
  forall hist v, holds J hist v -> holds J (hist ++ emitted (m v)) (sshHelper (m v)).

(** [J] accepts every step of the kind [k]. *)
Definition allows (J : Inv) (k : Op -> bool) : Prop :=
  forall op, k op = true -> okEvent J (Step op) = true.

Section PreservesRules.

Variable J : Inv.

Lemma preserves_ret {A} (a : A) : preserves J (ret a).
Proof. intros hist v Hh. simpl. now rewrite app_nil_r. Qed.

Lemma preserves_throw {A} (e : Value) : preserves J (@throw A e).
Proof. intros hist v Hh. simpl. now rewrite app_nil_r. Qed.

Lemma preserves_return {A} : preserves J (@return_ A).
Proof. intros hist v Hh. simpl. now rewrite app_nil_r. Qed.

Lemma preserves_getSshHelper : preserves J getSshHelper.
Proof. intros hist v Hh. simpl. now rewrite app_nil_r. Qed.

Lemma preserves_setSshHelper h : preserves J (setSshHelper h).
Proof. intros hist v Hh. simpl. rewrite app_nil_r. exact (holds_set J hist v h Hh). Qed.

Lemma preserves_liftExc {A} (r : Exc A) : preserves J (liftExc r).
Proof. destruct r; [apply preserves_throw | apply preserves_ret]. Qed.

Lemma preserves_emitEvent ev : okEvent J ev = true -> preserves J (emitEvent ev).
Proof. intros Hok hist v Hh. simpl. now apply holds_event. Qed.

Lemma preserves_emit op : okEvent J (Step op) = true -> preserves J (emit op).
Proof. intros Hok hist v Hh. simpl. now apply holds_event. Qed.

Lemma preserves_bind {A B} (m : M A) (k : A -> M B) :
  preserves J m -> (forall a, preserves J (k a)) -> preserves J (bind m k).
Proof.
  intros Hm Hk hist v Hh. unfold bind. specialize (Hm hist v Hh).
  destruct (completion (m v)) as [a| |]; simpl; try assumption.
  rewrite app_assoc. now apply Hk.
Qed.

Lemma preserves_await_ (op : option Value -> Op) r :
  okEvent J (Step (op r)) = true -> preserves J (await_ op r).
Proof.
  intros Hok. apply preserves_bind; [now apply preserves_emit|].
  intros _. destruct r; [apply preserves_throw | apply preserves_ret].
Qed.

Lemma preserves_await {A} (op : Exc A -> Op) r :
  okEvent J (Step (op r)) = true -> preserves J (await op r).
Proof.
  intros Hok. apply preserves_bind; [now apply preserves_emit|].
  intros _. apply preserves_liftExc.
Qed.

Lemma preserves_try_catch {A} (m : M A) (handler : Value -> M A) :
  preserves J m -> (forall e, preserves J (handler e)) -> preserves J (try_catch m handler).
Proof.
  intros Hm Hh hist v Hj. unfold try_catch. specialize (Hm hist v Hj).
  destruct (completion (m v)) as [a|e|]; simpl; try assumption.
  rewrite app_assoc. now apply Hh.
Qed.

Lemma preserves_try_finally {A} (m : M A) (cleanup : M unit) :
  preserves J m -> preserves J cleanup -> preserves J (try_finally m cleanup).
Proof.
  intros Hm Hc hist v Hj. unfold try_finally. simpl. rewrite app_assoc.
  apply Hc. now apply Hm.
Qed.

Lemma preserves_forOf {A} (xs : list A) (body : A -> M unit) :
  (forall x, preserves J (body x)) -> preserves J (forOf xs body).
Proof.
  intros Hb. induction xs as [|x xs IH]; simpl; [apply preserves_ret|].
  apply preserves_bind; [apply Hb | intros _; exact IH].
Qed.

End PreservesRules.

(** One step of a proof that a block keeps an invariant, by the shape of
    the block. *)
Ltac preserves_step :=
  lazymatch goal with
  | |- preserves _ (bind _ _) => apply preserves_bind; [|intros ?]
  | |- preserves _ (ret _) => apply preserves_ret
  | |- preserves _ (throw _) => apply preserves_throw
  | |- preserves _ return_ => apply preserves_return
  | |- preserves _ (liftExc _) => apply preserves_liftExc
  | |- preserves _ getSshHelper => apply preserves_getSshHelper
  | |- preserves _ (setSshHelper _) => apply preserves_setSshHelper
  | |- preserves _ (emit _) => apply preserves_emit
  | |- preserves _ (emitEvent _) => apply preserves_emitEvent
  | |- preserves _ (await_ _ _) => apply preserves_await_
  | |- preserves _ (await _ _) => apply preserves_await
  | |- preserves _ (try_catch _ _) => apply preserves_try_catch; [|intros ?]
  | |- preserves _ (forOf _ _) => apply preserves_forOf; intros ?
  | |- preserves _ (if ?b then _ else _) => destruct b
  | |- preserves _ (match ?x with _ => _ end) => destruct x
  end.

(** The kinds of steps. *)
Definition isPrefixOp (op : Op) : bool :=
  match op with
  | tl_setResourcePath _ | tl_debug _ | console_log _ | setupConnection _
  | checkRemotePathExists _ _ | runCommandOnRemoteMachine _ _ | uploadFolder _ _ _ => true
  | _ => false
  end.

Definition isPlainOp (op : Op) : bool :=
  match op with
  | new_SshHelper _ _ | closeConnection _ | tl_warning _ => false
  | _ => true
  end.

Definition isFolderOp (op : Op) : bool :=
  match op with
  | createRemoteDirectory _ _ | console_log _ => true
  | _ => false
  end.

Definition isReportOp (op : Op) : bool :=
  match op with
  | tl_debug _ | console_log _ | tl_error _ | tl_setResult _ _ => true
  | _ => false
  end.

Lemma allows_prefix_of_plain J : allows J isPlainOp -> allows J isPrefixOp.
Proof. intros Hp op Hop. apply Hp. now destruct op. Qed.

Lemma allows_folder_of_plain J : allows J isPlainOp -> allows J isFolderOp.
Proof. intros Hp op Hop. apply Hp. now destruct op. Qed.

Lemma allows_report_of_plain J : allows J isPlainOp -> allows J isReportOp.
Proof. intros Hp op Hop. apply Hp. now destruct op. Qed.

Section BlockInvariants.

Context `{NodePath} `{Minimatch} `{Host} `{SshHelper} `{TaskLib}.

Variable J : Inv.

Ltac by_kind Hk := apply Hk; reflexivity.

Lemma readSshConfig_preserves : allows J isPrefixOp -> preserves J readSshConfig.
Proof.
  intros Hk. unfold readSshConfig, getReadyTimeoutVariable.
  repeat (first [preserves_step | by_kind Hk]).
Qed.

Lemma cleanTarget_preserves cleanTargetFolder targetFolder :
  allows J isPrefixOp -> preserves J (cleanTarget cleanTargetFolder targetFolder).
Proof.
  intros Hk. unfold cleanTarget.
  repeat (first [preserves_step | by_kind Hk]).
Qed.

Lemma copyDirectory_preserves sourceFolder targetFolder :
  allows J isPrefixOp -> preserves J (copyDirectory sourceFolder targetFolder).
Proof.
  intros Hk. unfold copyDirectory.
  repeat (first [preserves_step | by_kind Hk]).
Qed.

Lemma createFolders_preserves folderStructure :
  allows J isFolderOp -> preserves J (createFolders folderStructure).
Proof.
  intros Hk. unfold createFolders.
  repeat (first [preserves_step | by_kind Hk]).
Qed.

Lemma uploadChunks_preserves overwrite preparedFiles todo i successedFiles :
  allows J isReportOp ->
  (forall chunk,
     okEvent J (AllSettled (map (fun pathTuple => settle (uploadTask overwrite pathTuple))
                              chunk)) = true) ->
  preserves J (uploadChunks overwrite preparedFiles todo i successedFiles).
Proof.
  intros Hk Hb. revert i successedFiles.
  induction todo as [|todo IH]; intros i successedFiles; simpl; [apply preserves_ret|].
  unfold allSettled.
  repeat (first [apply IH | apply Hb | preserves_step | by_kind Hk]).
Qed.

Lemma uploadFiles_preserves overwrite preparedFiles :
  allows J isReportOp ->
  (forall chunk,
     okEvent J (AllSettled (map (fun pathTuple => settle (uploadTask overwrite pathTuple))
                              chunk)) = true) ->
  preserves J (uploadFiles overwrite preparedFiles).
Proof.
  intros Hk Hb. unfold uploadFiles.
  repeat (first [now apply uploadChunks_preserves | preserves_step | by_kind Hk]).
Qed.

Lemma copyFiles_preserves sourceFolder targetFolder contents overwrite
    failOnEmptySource flattenFolders :
  allows J isPlainOp ->
  (forall chunk,
     okEvent J (AllSettled (map (fun pathTuple => settle (uploadTask overwrite pathTuple))
                              chunk)) = true) ->
  preserves J (copyFiles sourceFolder targetFolder contents overwrite
                 failOnEmptySource flattenFolders).
Proof.
  intros Hk Hb. unfold copyFiles, copySelected, array_truthy.
  pose proof (allows_folder_of_plain J Hk) as Hf.
  pose proof (allows_report_of_plain J Hk) as Hr.
  repeat (first [now apply uploadFiles_preserves | now apply createFolders_preserves
                | preserves_step | by_kind Hk]).
Qed.

Lemma runBody_preserves :
  allows J isPlainOp ->
  (forall overwrite chunk,
     okEvent J (AllSettled (map (fun pathTuple => settle (uploadTask overwrite pathTuple))
                              chunk)) = true) ->
  (forall sshConfig, preserves J (newSshHelper sshConfig)) ->
  preserves J runBody.
Proof.
  intros Hk Hb Hnew. pose proof (allows_prefix_of_plain J Hk) as Hp. unfold runBody.
  repeat (first [ now apply readSshConfig_preserves
                | now apply cleanTarget_preserves
                | now apply copyDirectory_preserves
                | now apply copyFiles_preserves
                | apply Hnew
                | preserves_step | by_kind Hk ]).
Qed.

End BlockInvariants.

(** Every event of the trace passes the test [P]. *)
Lemma eventsAll_event (P : Event -> bool) (hist : list Event) (v : option SshHandle) ev :
  P ev = true ->
  Forall (fun ev => P ev = true) hist -> Forall (fun ev => P ev = true) (hist ++ [ev]).
Proof. intros Hev Hh. apply Forall_app. split; [assumption | now constructor]. Qed.

Definition eventsAll (P : Event -> bool) : Inv := {|
  holds := fun hist _ => Forall (fun ev => P ev = true) hist;
  okEvent := P;
  holds_event := eventsAll_event P;
  holds_set := fun hist v h Hh => Hh;
|}.

Lemma eventsAll_emitted (P : Event -> bool) {A} (m : M A) v :
  preserves (eventsAll P) m -> Forall (fun ev => P ev = true) (emitted (m v)).
Proof. intros Hm. apply (Hm [] v). constructor. Qed.

(** No operation of the event passes the test [bad]. *)
Definition without (bad : Op -> bool) (ev : Event) : bool :=
  forallb (fun op => negb (bad op)) (opsOfEvent ev).

Lemma without_filter bad trace :
  Forall (fun ev => without bad ev = true) trace -> List.filter bad (opsOf trace) = [].
Proof.
  induction 1 as [|ev trace Hev _ IH]; [reflexivity|].
  change (opsOf (ev :: trace)) with (opsOfEvent ev ++ opsOf trace).
  rewrite List.filter_app, IH, app_nil_r. unfold without in Hev.
  induction (opsOfEvent ev) as [|op ops IHo]; [reflexivity|]. simpl in *.
  apply andb_prop in Hev as [Hop Hops]. destruct (bad op); [discriminate | auto].
Qed.

(** The session is tracked: once a [new SshHelper] has returned, the
    variable [sshHelper] is assigned. *)
Definition isNewOk (ev : Event) : bool :=
  match ev with
  | Step (new_SshHelper _ None) => true
  | _ => false
  end.

Lemma sessionTracked_event (hist : list Event) (v : option SshHandle) ev :
  negb (isNewOk ev) = true ->
  (existsb isNewOk hist = true -> v <> None) ->
  existsb isNewOk (hist ++ [ev]) = true -> v <> None.
Proof.
  intros Hev Hh. rewrite existsb_app. simpl. apply negb_true_iff in Hev. rewrite Hev.
  now rewrite !orb_false_r.
Qed.

Lemma sessionTracked_set (hist : list Event) (v : option SshHandle) (h : SshHandle) :
  (existsb isNewOk hist = true -> v <> None) ->
  existsb isNewOk hist = true -> Some h <> None.
Proof. discriminate. Qed.

Definition sessionTracked : Inv := {|
  holds := fun hist v => existsb isNewOk hist = true -> v <> None;
  okEvent := fun ev => negb (isNewOk ev);
  holds_event := sessionTracked_event;
  holds_set := sessionTracked_set;
|}.

(** An event other than a failed directory creation. *)
Definition noFailEv (ev : Event) : bool :=
  match ev with
  | Step (createRemoteDirectory _ (Some _)) => false
  | _ => true
  end.

(** A step that is neither a failed directory creation nor an upload of a
    file. *)
Definition cleanEv (ev : Event) : bool :=
  match ev with
  | Step (createRemoteDirectory _ (Some _)) | Step (uploadFile _ _ _)
  | AllSettled _ | Detached _ => false
  | _ => true
  end.

Lemma cleanEv_noFailEv ev : cleanEv ev = true -> noFailEv ev = true.
Proof. destruct ev as [[]| |]; simpl; try reflexivity; try discriminate. now destruct r. Qed.

Lemma cleanEv_no_upload trace :
  Forall (fun ev => cleanEv ev = true) trace ->
  List.filter isUploadFile (opsOf trace) = [] /\ batchesOf trace = [].
Proof.
  induction 1 as [|ev trace Hev _ [IH1 IH2]]; [auto|].
  destruct ev as [op|tasks|tasks]; [|discriminate|discriminate]. simpl.
  change (opsOf (Step op :: trace)) with (op :: opsOf trace). simpl.
  destruct op; simpl in *; auto; discriminate.
Qed.

Section RunTheorems.

Context `{NodePath} `{Minimatch} `{Host} `{SshHelper} `{TaskLib}.

(** The callbacks of a batch log, check the destination and upload. *)
Lemma uploadTask_ops overwrite pathTuple :
  Forall (fun op => match op with
                    | tl_debug _ | console_log _ | checkRemotePathExists _ _
                    | uploadFile _ _ _ => True
                    | _ => False
                    end)
         (task_ops (settle (uploadTask overwrite pathTuple))).
Proof.
  destruct pathTuple as [fileToCopy targetPath]. unfold uploadTask, settle. simpl.
  destruct overwrite; simpl; [repeat constructor|].
  destruct (ssh_checkRemotePathExists targetPath) as [e|[|]]; simpl; repeat constructor.
Qed.

Lemma batch_without bad overwrite chunk :
  (forall op, bad op = true ->
     match op with
     | tl_debug _ | console_log _ | checkRemotePathExists _ _ | uploadFile _ _ _ => False
     | _ => True
     end) ->
  without bad
    (AllSettled (map (fun pathTuple => settle (uploadTask overwrite pathTuple)) chunk))
  = true.
Proof.
  intros Hbad. unfold without. simpl. apply forallb_forall. intros op Hop.
  apply in_concat in Hop as (ops & Hops & Hop).
  rewrite map_map in Hops. apply in_map_iff in Hops as (pathTuple & <- & _).
  pose proof (uploadTask_ops overwrite pathTuple) as Hall.
  rewrite List.Forall_forall in Hall. specialize (Hall op Hop).
  destruct (bad op) eqn:E; [|reflexivity]. specialize (Hbad op E).
  destruct op; contradiction.
Qed.

Lemma newSshHelper_tracked sshConfig : preserves sessionTracked (newSshHelper sshConfig).
Proof.
  intros hist v Hh. unfold newSshHelper, bind. simpl.
  destruct (ssh_new sshConfig) as [e|]; simpl.
  - rewrite existsb_app. simpl. now rewrite !orb_false_r.
  - discriminate.
Qed.

Lemma newSshHelper_eventsAll P sshConfig :
  (forall r, P (Step (new_SshHelper sshConfig r)) = true) ->
  preserves (eventsAll P) (newSshHelper sshConfig).
Proof.
  intros HP. unfold newSshHelper.
  repeat (first [preserves_step | apply HP]).
Qed.

(** The [try] block never closes the connection. *)
Lemma runBody_never_closes v :
  List.filter isCloseConnection (opsOf (emitted (runBody v))) = [].
Proof.
  apply without_filter. apply (eventsAll_emitted (without isCloseConnection)).
  apply runBody_preserves.
  - intros op Hop. now destruct op.
  - intros overwrite chunk. apply batch_without. intros op Hop. now destruct op.
  - intros sshConfig. now apply newSshHelper_eventsAll.
Qed.

(** The task never emits a warning. *)
Lemma runBody_never_warns v :
  List.filter isWarning (opsOf (emitted (runBody v))) = [].
Proof.
  apply without_filter. apply (eventsAll_emitted (without isWarning)).
  apply runBody_preserves.
  - intros op Hop. now destruct op.
  - intros overwrite chunk. apply batch_without. intros op Hop. now destruct op.
  - intros sshConfig. now apply newSshHelper_eventsAll.
Qed.

Lemma runBody_tracks_session :
  existsb isNewOk (emitted (runBody None)) = true -> sshHelper (runBody None) <> None.
Proof.
  assert (Hp : preserves sessionTracked runBody).
  { apply runBody_preserves.
    - intros op Hop. now destruct op.
    - reflexivity.
    - apply newSshHelper_tracked. }
  apply (Hp [] None). discriminate.
Qed.

(** The trace of a run: the [try] block, the [catch] block when the [try]
    block threw, the [finally] block. *)
Definition catchEvents (o : Outcome unit) : list Event :=
  match completion o with
  | Throw err => [Step (tl_setResult Failed err)]
  | _ => []
  end.

Definition finallyEvents (v : option SshHandle) : list Event :=
  match v with
  | Some _ => [Step (tl_debug (VStr "Closing the client connection"));
               Step (closeConnection ssh_closeConnection)]
  | None => []
  end.

(** The trace of [try { body } catch (err) { setResult } finally { close }]
    started with [sshHelper] unassigned. *)
Lemma try_catch_finally_emitted (body : M unit) :
  emitted (try_finally (try_catch body (fun err => emit (tl_setResult Failed err)))
             runFinally None)
  = emitted (body None) ++ catchEvents (body None)
    ++ finallyEvents (sshHelper (body None)).
Proof.
  unfold try_finally, try_catch, catchEvents, finallyEvents, runFinally.
  generalize (body None). intros [c s e].
  destruct c, s, ssh_closeConnection; simpl; now rewrite ?app_nil_r, <- ?app_assoc.
Qed.

Lemma runTask_emitted :
  emitted runTask
  = emitted (runBody None) ++ catchEvents (runBody None)
    ++ finallyEvents (sshHelper (runBody None)).
Proof. apply try_catch_finally_emitted. Qed.

(** A [try] block that never closes the connection and tracks the session
    is closed once, at the end, by the [finally] block. *)
Lemma closed_once_at_the_end (body : M unit) (sshConfig : Value) :
  List.filter isCloseConnection (opsOf (emitted (body None))) = [] ->
  (existsb isNewOk (emitted (body None)) = true -> sshHelper (body None) <> None) ->
  In (Step (new_SshHelper sshConfig None))
     (emitted (body None) ++ catchEvents (body None)
      ++ finallyEvents (sshHelper (body None))) ->
  length (List.filter isCloseConnection
            (opsOf (emitted (body None) ++ catchEvents (body None)
                    ++ finallyEvents (sshHelper (body None))))) = 1
  /\ exists before,
       emitted (body None) ++ catchEvents (body None)
       ++ finallyEvents (sshHelper (body None))
       = before ++ [Step (closeConnection ssh_closeConnection)].
Proof.
  intros Hclose Htrack Hnew.
  assert (Hbody : existsb isNewOk (emitted (body None)) = true).
  { apply existsb_exists. exists (Step (new_SshHelper sshConfig None)).
    split; [|reflexivity].
    apply in_app_or in Hnew as [Hin|Hin]; [assumption|]. exfalso.
    apply in_app_or in Hin as [Hin|Hin].
    - unfold catchEvents in Hin. destruct (completion (body None)); simpl in Hin;
        intuition discriminate.
    - unfold finallyEvents in Hin. destruct (sshHelper (body None)); simpl in Hin;
        intuition discriminate. }
  pose proof (Htrack Hbody) as Hvar.
  destruct (sshHelper (body None)) as [h|]; [|congruence]. split.
  - rewrite !opsOf_app, !List.filter_app, Hclose.
    unfold catchEvents. now destruct (completion (body None)).
  - eexists. unfold finallyEvents. rewrite !app_assoc.
    change [Step (tl_debug (VStr "Closing the client connection"));
            Step (closeConnection ssh_closeConnection)]
      with ([Step (tl_debug (VStr "Closing the client connection"))]
            ++ [Step (closeConnection ssh_closeConnection)]).
    rewrite app_assoc. reflexivity.
Qed.

(** C9. In every run in which [new SshHelper] returned, whether the run
    then succeeds, fails or throws, [closeConnection] is called exactly
    once, and it is the last thing the run does. *)
Theorem close_exactly_once (sshConfig : Value) :
  In (Step (new_SshHelper sshConfig None)) (emitted runTask) ->
  length (List.filter isCloseConnection (opsOf (emitted runTask))) = 1
  /\ exists before,
       emitted runTask = before ++ [Step (closeConnection ssh_closeConnection)].
Proof.
  rewrite runTask_emitted. apply closed_once_at_the_end.
  - apply runBody_never_closes.
  - apply runBody_tracks_session.
Qed.

(** ** A failed directory creation *)

(** The block stopped at a failed directory creation: until then it did
    clean steps only, and it threw [TargetNotCreated] for that directory. *)
Definition failShape {A} (o : Outcome A) : Prop :=
  exists pre d e,
    emitted o = pre ++ [Step (createRemoteDirectory d (Some e))]
    /\ Forall (fun ev => cleanEv ev = true) pre
    /\ completion o = Throw (VLoc "TargetNotCreated" [VStr d; e]).

Definition cleanOrFails {A} (m : M A) : Prop :=
  forall v, Forall (fun ev => cleanEv ev = true) (emitted (m v)) \/ failShape (m v).

Definition neverFailsOrStops {A} (m : M A) : Prop :=
  forall v, Forall (fun ev => noFailEv ev = true) (emitted (m v)) \/ failShape (m v).

Lemma cleanOrFails_of_preserves {A} (m : M A) :
  preserves (eventsAll cleanEv) m -> cleanOrFails m.
Proof. intros Hm v. left. now apply eventsAll_emitted. Qed.

Lemma neverFailsOrStops_of_preserves {A} (m : M A) :
  preserves (eventsAll noFailEv) m -> neverFailsOrStops m.
Proof. intros Hm v. left. now apply eventsAll_emitted. Qed.

Lemma neverFailsOrStops_of_clean {A} (m : M A) : cleanOrFails m -> neverFailsOrStops m.
Proof.
  intros Hm v. destruct (Hm v) as [Hc|Hf]; [left | now right].
  eapply List.Forall_impl; [|exact Hc]. apply cleanEv_noFailEv.
Qed.

Lemma failShape_bind {A B} (m : M A) (k : A -> M B) v :
  failShape (m v) -> failShape (bind m k v).
Proof.
  intros (pre & d & e & He & Hp & Hc). unfold bind. rewrite Hc. simpl.
  exists pre, d, e. auto.
Qed.

Lemma failShape_after {A B} (m : M A) (k : A -> M B) v a :
  completion (m v) = Normal a ->
  Forall (fun ev => cleanEv ev = true) (emitted (m v)) ->
  failShape (k a (sshHelper (m v))) -> failShape (bind m k v).
Proof.
  intros Hn Hm (pre & d & e & He & Hp & Hc). rewrite (bind_normal m k v a Hn). simpl.
  exists (emitted (m v) ++ pre), d, e. rewrite He, app_assoc.
  split; [reflexivity|]. split; [|assumption]. apply Forall_app. now split.
Qed.

Lemma cleanOrFails_bind {A B} (m : M A) (k : A -> M B) :
  cleanOrFails m -> (forall a, cleanOrFails (k a)) -> cleanOrFails (bind m k).
Proof.
  intros Hm Hk v. destruct (Hm v) as [Hc|Hf]; [|right; now apply failShape_bind].
  destruct (completion (m v)) as [a| |] eqn:E.
  - destruct (Hk a (sshHelper (m v))) as [Hc'|Hf'].
    + left. rewrite (bind_normal m k v a E). simpl. apply Forall_app. now split.
    + right. now apply (failShape_after m k v a).
  - left. unfold bind. now rewrite E.
  - left. unfold bind. now rewrite E.
Qed.

Lemma neverFailsOrStops_bind {A B} (m : M A) (k : A -> M B) :
  cleanOrFails m -> (forall a, neverFailsOrStops (k a)) -> neverFailsOrStops (bind m k).
Proof.
  intros Hm Hk v. destruct (Hm v) as [Hc|Hf]; [|right; now apply failShape_bind].
  assert (Hn : Forall (fun ev => noFailEv ev = true) (emitted (m v))).
  { eapply List.Forall_impl; [|exact Hc]. apply cleanEv_noFailEv. }
  destruct (completion (m v)) as [a| |] eqn:E.
  - destruct (Hk a (sshHelper (m v))) as [Hc'|Hf'].
    + left. rewrite (bind_normal m k v a E). simpl. apply Forall_app. now split.
    + right. now apply (failShape_after m k v a).
  - left. unfold bind. now rewrite E.
  - left. unfold bind. now rewrite E.
Qed.

Lemma createFolders_cleanOrFails folderStructure :
  cleanOrFails (createFolders folderStructure).
Proof.
  unfold createFolders. induction folderStructure as [|d ds IH]; simpl.
  - intros v. left. constructor.
  - apply cleanOrFails_bind; [|intros _; exact IH].
    intros v. unfold try_catch, await_, bind. simpl.
    destruct (ssh_createRemoteDirectory d) as [e|]; simpl.
    + right. exists [], d, e. auto.
    + left. repeat constructor.
Qed.

Lemma allows_clean_prefix : allows (eventsAll cleanEv) isPrefixOp.
Proof. intros op Hop. now destruct op. Qed.

Lemma allows_noFail_report : allows (eventsAll noFailEv) isReportOp.
Proof. intros op Hop. now destruct op. Qed.

Ltac clean_block :=
  first [ apply createFolders_cleanOrFails
        | apply cleanOrFails_of_preserves;
          first [ apply readSshConfig_preserves; apply allows_clean_prefix
                | apply cleanTarget_preserves; apply allows_clean_prefix
                | apply newSshHelper_eventsAll; reflexivity
                | solve [repeat (first [preserves_step | reflexivity])] ] ].

Ltac stops_step :=
  lazymatch goal with
  | |- neverFailsOrStops (bind _ _) => apply neverFailsOrStops_bind; [clean_block | intros ?]
  | |- neverFailsOrStops (if ?b then _ else _) => destruct b
  | |- neverFailsOrStops (match ?x with _ => _ end) => destruct x
  end.

Lemma copyFiles_stops sourceFolder targetFolder contents overwrite failOnEmptySource
    flattenFolders :
  neverFailsOrStops (copyFiles sourceFolder targetFolder contents overwrite
                       failOnEmptySource flattenFolders).
Proof.
  unfold copyFiles, copySelected, array_truthy. cbv zeta. cbv iota.
  do 6 stops_step.
  apply neverFailsOrStops_of_preserves. apply uploadFiles_preserves.
  - apply allows_noFail_report.
  - reflexivity.
Qed.

Lemma copyDirectory_stops sourceFolder targetFolder :
  neverFailsOrStops (copyDirectory sourceFolder targetFolder).
Proof.
  apply neverFailsOrStops_of_clean, cleanOrFails_of_preserves, copyDirectory_preserves.
  apply allows_clean_prefix.
Qed.

Lemma runBody_stops : neverFailsOrStops runBody.
Proof.
  unfold runBody.
  repeat (first [apply copyFiles_stops | apply copyDirectory_stops | stops_step]).
Qed.

(** X20. In the batched variant, when the creation of a planned directory
    fails, the run stops there: the next thing it does is to set the result
    [Failed] with the message [TargetNotCreated] for that directory, and
    only the [finally] block follows.  The run uploads no file and
    dispatches no batch. *)
Theorem directory_failure_is_fatal (d : string) (e : Value) :
  In (Step (createRemoteDirectory d (Some e))) (emitted runTask) ->
  (exists before,
     emitted runTask
     = before
       ++ [Step (createRemoteDirectory d (Some e));
           Step (tl_setResult Failed (VLoc "TargetNotCreated" [VStr d; e]))]
       ++ finallyEvents (sshHelper (runBody None)))
  /\ List.filter isUploadFile (opsOf (emitted runTask)) = []
  /\ batchesOf (emitted runTask) = [].
Proof.
  intros Hin. rewrite runTask_emitted in *.
  assert (Hfin : forall ev, In ev (finallyEvents (sshHelper (runBody None))) ->
                 cleanEv ev = true).
  { intros ev. unfold finallyEvents. destruct (sshHelper (runBody None)); simpl;
      intuition (subst; reflexivity). }
  assert (Hcatch : forall ev, In ev (catchEvents (runBody None)) -> cleanEv ev = true).
  { intros ev. unfold catchEvents. destruct (completion (runBody None)); simpl;
      intuition (subst; reflexivity). }
  destruct (runBody_stops None) as [Hnf | (pre & d' & e' & He & Hp & Hc)].
  - exfalso. apply in_app_or in Hin as [Hb|Hr].
    + rewrite List.Forall_forall in Hnf. specialize (Hnf _ Hb). discriminate.
    + apply in_app_or in Hr as [Hr|Hr]; [apply Hcatch in Hr | apply Hfin in Hr];
        discriminate.
  - assert (Heq : d' = d /\ e' = e).
    { rewrite He in Hin. apply in_app_or in Hin as [Hb|Hr].
      - apply in_app_or in Hb as [Hb|[Hb|[]]].
        + rewrite List.Forall_forall in Hp. specialize (Hp _ Hb). discriminate.
        + now inversion Hb.
      - apply in_app_or in Hr as [Hr|Hr]; [apply Hcatch in Hr | apply Hfin in Hr];
          discriminate. }
    destruct Heq as [-> ->].
    assert (Hce : catchEvents (runBody None)
                  = [Step (tl_setResult Failed (VLoc "TargetNotCreated" [VStr d; e]))]).
    { unfold catchEvents. now rewrite Hc. }
    rewrite He, Hce. split.
    + exists pre. now rewrite <- !app_assoc.
    + destruct (cleanEv_no_upload pre Hp) as [Hu Hb].
      assert (Hf : Forall (fun ev => cleanEv ev = true)
                     (finallyEvents (sshHelper (runBody None))))
        by now apply List.Forall_forall.
      destruct (cleanEv_no_upload _ Hf) as [Hu' Hb'].
      rewrite !opsOf_app, !List.filter_app, !batchesOf_app, Hu, Hb, Hu', Hb'.
      split; reflexivity.
Qed.

(** ** An empty selection *)

(** On an empty selection [copyFiles] still takes the copy path: it plans
    no folder, dispatches no batch and reports zero files copied, whatever
    [failOnEmptySource] says. *)
Lemma empty_selection_takes_copy_path sourceFolder targetFolder contents overwrite
    failOnEmptySource flattenFolders v :
  getFilesToCopy sourceFolder contents = inr [] ->
  copyFiles sourceFolder targetFolder contents overwrite failOnEmptySource
    flattenFolders v
  = {| completion := Normal tt;
       sshHelper := v;
       emitted :=
         [Step (tl_debug (VCat (VStr "Number of files to copy = ") (VNum 0)));
          Step (tl_debug (VCat (VStr "filesToCopy = ") (VArr [])));
          Step (console_log (VLoc "CopyingFiles" [VNum 0]));
          Step (console_log (VLoc "FoldersCreated" [VNum 0]));
          Step (console_log (VLoc "CopyCompleted" [VNum 0]))] |}.
Proof. intros E. unfold copyFiles. rewrite E. reflexivity. Qed.

(** No run emits a warning. *)
Lemma run_never_warns : List.filter isWarning (opsOf (emitted runTask)) = [].
Proof.
  rewrite runTask_emitted, !opsOf_app, !List.filter_app, runBody_never_warns.
  unfold catchEvents, finallyEvents.
  now destruct (completion (runBody None)), (sshHelper (runBody None)).
Qed.

End RunTheorems.

(** ** The single-burst variant keeps or misses these properties *)

Section SingleBurstFacts.

Context `{NodePath} `{Minimatch} `{Host} `{SshHelper} `{SftpClient} `{TaskLib}.

(** The pairs that [createRemoteFolders] plans from are those of
    [prepareFiles]. *)
Lemma singleBurst_plan filesToCopy targetFolder sourceFolder flattenFolders v :
  SingleBurst.createRemoteFolders filesToCopy targetFolder sourceFolder flattenFolders v
  = {| completion := Normal tt;
       sshHelper := v;
       emitted :=
         [Detached
            (map (fun x => settle (SingleBurst.folderTask x))
               (uniqueRemotePaths
                  (prepareFiles filesToCopy sourceFolder targetFolder flattenFolders)))] |}.
Proof. reflexivity. Qed.

(** A callback of [createRemoteFolders] is never rejected: a failure of
    [exists] or [mkdir] ends as the value the callback returns, which nobody
    reads. *)
Lemma singleBurst_folderTask_fulfilled x :
  isRejected (settle (SingleBurst.folderTask x)) = false.
Proof.
  unfold SingleBurst.folderTask, settle, isRejected, task_try_catch, task_bind, task_await.
  destruct (sftp_exists x) as [e|[|]]; simpl; try reflexivity.
  now destruct (sftp_mkdir x true).
Qed.

Lemma singleBurst_folderTask_ops x :
  Forall (fun op => match op with
                    | sftpClient_exists _ _ | sftpClient_mkdir _ _ _ => True
                    | _ => False
                    end)
         (task_ops (settle (SingleBurst.folderTask x))).
Proof.
  unfold SingleBurst.folderTask, settle, task_try_catch, task_bind, task_await.
  destruct (sftp_exists x) as [e|[|]]; simpl; repeat constructor.
  destruct (sftp_mkdir x true); simpl; repeat constructor.
Qed.

Lemma singleBurst_uploadTask_ops sourceFolder targetFolder overwrite flattenFolders f :
  Forall (fun op => match op with
                    | tl_debug _ | console_log _ | checkRemotePathExists _ _
                    | uploadFile _ _ _ => True
                    | _ => False
                    end)
         (task_ops (settle (SingleBurst.uploadTask sourceFolder targetFolder overwrite
                              flattenFolders f))).
Proof.
  unfold SingleBurst.uploadTask, settle. simpl.
  destruct overwrite; simpl; [repeat constructor|].
  match goal with |- context [ssh_checkRemotePathExists ?p] =>
    destruct (ssh_checkRemotePathExists p) as [e|[|]] end; simpl; repeat constructor.
Qed.

Lemma singleBurst_events_without bad tasks :
  (forall t, In t tasks -> Forall (fun op => bad op = false) (task_ops t)) ->
  forallb (fun op => negb (bad op)) (concat (map task_ops tasks)) = true.
Proof.
  intros Hall. apply forallb_forall. intros op Hop.
  apply in_concat in Hop as (ops & Hops & Hop).
  apply in_map_iff in Hops as (t & <- & Ht).
  specialize (Hall t Ht). rewrite List.Forall_forall in Hall. now rewrite (Hall op Hop).
Qed.

Lemma singleBurst_copyFiles_preserves J sourceFolder targetFolder contents overwrite
    failOnEmptySource flattenFolders :
  allows J isPlainOp ->
  (forall tasks : list string,
     okEvent J (AllSettled
                  (map (fun f => settle (SingleBurst.uploadTask sourceFolder targetFolder
                                           overwrite flattenFolders f)) tasks)) = true) ->
  (forall dirs : list string,
     okEvent J (Detached (map (fun x => settle (SingleBurst.folderTask x)) dirs)) = true) ->
  preserves J (SingleBurst.copyFiles sourceFolder targetFolder contents overwrite
                 failOnEmptySource flattenFolders).
Proof.
  intros Hk Hb Hd. unfold SingleBurst.copyFiles, SingleBurst.copySelected,
    SingleBurst.createRemoteFolders,
    array_truthy.
  repeat (first [apply Hb | apply Hd | preserves_step | apply Hk; reflexivity]).
Qed.

Lemma singleBurst_runBody_preserves J :
  allows J isPlainOp ->
  (forall sourceFolder targetFolder overwrite flattenFolders (tasks : list string),
     okEvent J (AllSettled
                  (map (fun f => settle (SingleBurst.uploadTask sourceFolder targetFolder
                                           overwrite flattenFolders f)) tasks)) = true) ->
  (forall dirs : list string,
     okEvent J (Detached (map (fun x => settle (SingleBurst.folderTask x)) dirs)) = true) ->
  (forall sshConfig, preserves J (newSshHelper sshConfig)) ->
  preserves J SingleBurst.runBody.
Proof.
  intros Hk Hb Hd Hnew. pose proof (allows_prefix_of_plain J Hk) as Hp.
  unfold SingleBurst.runBody, SingleBurst.copyDirectory.
  repeat (first [ now apply readSshConfig_preserves
                | now apply cleanTarget_preserves
                | now apply singleBurst_copyFiles_preserves
                | apply Hnew
                | preserves_step | apply Hk; reflexivity ]).
Qed.

Lemma singleBurst_without bad :
  (forall op, bad op = true ->
     match op with
     | closeConnection _ | tl_warning _ => True
     | _ => False
     end) ->
  forall v, List.filter bad (opsOf (emitted (SingleBurst.runBody v))) = [].
Proof.
  intros Hbad v. apply without_filter. apply (eventsAll_emitted (without bad)).
  assert (Hop : forall op, (bad op = true -> False) -> bad op = false).
  { intros op Hn. destruct (bad op); [now exfalso | reflexivity]. }
  apply singleBurst_runBody_preserves.
  - intros op Hplain. unfold eventsAll, without. simpl. rewrite andb_true_r.
    apply negb_true_iff, Hop. intros Hb. specialize (Hbad op Hb).
    destruct op; try contradiction; discriminate.
  - intros. apply singleBurst_events_without. intros t Ht.
    apply in_map_iff in Ht as (f & <- & _).
    eapply List.Forall_impl; [|apply singleBurst_uploadTask_ops].
    intros op Hm. apply Hop. intros Hb. specialize (Hbad op Hb).
    destruct op; contradiction.
  - intros. apply singleBurst_events_without. intros t Ht.
    apply in_map_iff in Ht as (x & <- & _).
    eapply List.Forall_impl; [|apply singleBurst_folderTask_ops].
    intros op Hm. apply Hop. intros Hb. specialize (Hbad op Hb).
    destruct op; contradiction.
  - intros sshConfig. apply newSshHelper_eventsAll. intros r.
    unfold without. simpl. rewrite andb_true_r. apply negb_true_iff, Hop.
    intros Hb. exact (Hbad _ Hb).
Qed.

(** With overwrite off, on a remote where the destination exists, the
    callback of the single-burst variant is rejected without an upload. *)
Lemma singleBurst_overwrite_protection sourceFolder targetFolder flattenFolders f :
  (forall p, ssh_checkRemotePathExists p = inr true) ->
  isRejected (settle (SingleBurst.uploadTask sourceFolder targetFolder false
                        flattenFolders f)) = true
  /\ List.filter isUploadFile
       (task_ops (settle (SingleBurst.uploadTask sourceFolder targetFolder false
                            flattenFolders f))) = [].
Proof.
  intros Hex. unfold SingleBurst.uploadTask, settle, isRejected. simpl.
  rewrite Hex. simpl. auto.
Qed.

(** X18. The single-burst variant closes the connection once, at the end,
    too: whenever its run has constructed the helper, the trace holds one
    [closeConnection] and it is the last event. *)
Lemma singleBurst_close_exactly_once (sshConfig : Value) :
  In (Step (new_SshHelper sshConfig None)) (emitted SingleBurst.runTask) ->
  length (List.filter isCloseConnection (opsOf (emitted SingleBurst.runTask))) = 1
  /\ exists before,
       emitted SingleBurst.runTask
       = before ++ [Step (closeConnection ssh_closeConnection)].
Proof.
  unfold SingleBurst.runTask, SingleBurst.run.
  rewrite try_catch_finally_emitted. apply closed_once_at_the_end.
  - apply singleBurst_without. intros op Hop. now destruct op.
  - assert (Hp : preserves sessionTracked SingleBurst.runBody).
    { apply singleBurst_runBody_preserves.
      - intros op Hop. now destruct op.
      - reflexivity.
      - reflexivity.
      - apply newSshHelper_tracked. }
    apply (Hp [] None). discriminate.
Qed.

(** The single-burst variant emits no warning either. *)
Lemma singleBurst_never_warns v :
  List.filter isWarning (opsOf (emitted (SingleBurst.runBody v))) = [].
Proof. apply singleBurst_without. intros op Hop. now destruct op. Qed.

End SingleBurstFacts.

(** ** Closed runs *)

(** A run on the tree of module [Demo]. *)
Definition demoRun (remote : SshHelper) (inputs : TaskLib) : Outcome unit :=
  @runTask Posix.nodePath Glob.minimatch Demo.tree remote inputs.

(** C1. A pattern that matches nothing, on a remote where every call
    succeeds: with [failOnEmptySource] set the run completes normally and
    sets no result, with it unset the run emits no warning; in both it does
    the same, reporting zero files copied. *)
Theorem empty_selection_ignores_failOnEmptySource :
  getFilesToCopy "/src" ["*.none"] = inr []
  /\ completion (demoRun (Demo.remote [] [] [])
                   (Demo.inputs ["*.none"] "/src" "dest" false true false))
     = Normal tt
  /\ List.filter isSetResult
       (opsOf (emitted (demoRun (Demo.remote [] [] [])
                          (Demo.inputs ["*.none"] "/src" "dest" false true false))))
     = []
  /\ List.filter isWarning
       (opsOf (emitted (demoRun (Demo.remote [] [] [])
                          (Demo.inputs ["*.none"] "/src" "dest" false false false))))
     = []
  /\ emitted (demoRun (Demo.remote [] [] [])
                (Demo.inputs ["*.none"] "/src" "dest" false true false))
     = emitted (demoRun (Demo.remote [] [] [])
                  (Demo.inputs ["*.none"] "/src" "dest" false false false))
  /\ In (Step (console_log (VLoc "CopyCompleted" [VNum 0])))
        (emitted (demoRun (Demo.remote [] [] [])
                    (Demo.inputs ["*.none"] "/src" "dest" false true false))).
Proof.
  vm_compute. repeat split; try reflexivity.
  repeat (first [left; reflexivity | right]).
Qed.

Lemma directory_failure_is_fatal_witness :
  In (Step (createRemoteDirectory "./dest/sub" (Some (VStr "Permission denied"))))
     (emitted (demoRun (Demo.remote [] ["./dest/sub"] [])
                 (Demo.inputs ["**/*"] "/src" "dest" false false false)))
  /\ List.filter isUploadFile
       (opsOf (emitted (demoRun (Demo.remote [] ["./dest/sub"] [])
                          (Demo.inputs ["**/*"] "/src" "dest" false false false))))
     = [].
Proof.
  assert (Hin : In (Step (createRemoteDirectory "./dest/sub"
                            (Some (VStr "Permission denied"))))
                   (emitted (demoRun (Demo.remote [] ["./dest/sub"] [])
                               (Demo.inputs ["**/*"] "/src" "dest" false false false)))).
  { vm_compute. repeat (first [left; reflexivity | right]). }
  split; [exact Hin|].
  exact (proj1 (proj2 (@directory_failure_is_fatal Posix.nodePath Glob.minimatch
                         Demo.tree (Demo.remote [] ["./dest/sub"] [])
                         (Demo.inputs ["**/*"] "/src" "dest" false false false)
                         "./dest/sub" (VStr "Permission denied") Hin))).
Defined.

(** The configuration object of the runs of [Demo.inputs]. *)
Definition demoConfig : Value :=
  VObj [("host", VStr "example.org"); ("port", VStr "22"); ("username", VStr "user");
        ("password", VStr "secret"); ("readyTimeout", VNum 20);
        ("useFastPut", VBool true)].

Lemma close_exactly_once_witness :
  In (Step (new_SshHelper demoConfig None))
     (emitted (demoRun (Demo.remote ["./dest/a.txt"] [] [])
                 (Demo.inputs ["**/*"] "/src" "dest" false false false)))
  /\ length (List.filter isCloseConnection
               (opsOf (emitted (demoRun (Demo.remote ["./dest/a.txt"] [] [])
                                  (Demo.inputs ["**/*"] "/src" "dest" false false false)))))
     = 1.
Proof.
  assert (Hin : In (Step (new_SshHelper demoConfig None))
                   (emitted (demoRun (Demo.remote ["./dest/a.txt"] [] [])
                               (Demo.inputs ["**/*"] "/src" "dest" false false false)))).
  { vm_compute. repeat (first [left; reflexivity | right]). }
  split; [exact Hin|].
  exact (proj1 (@close_exactly_once Posix.nodePath Glob.minimatch Demo.tree
                  (Demo.remote ["./dest/a.txt"] [] [])
                  (Demo.inputs ["**/*"] "/src" "dest" false false false)
                  demoConfig Hin)).
Defined.


(** Twenty-five files under [/src], named by a letter each. *)
Definition letters : list string :=
  map (fun n => "/src/" +:+ String (ascii_of_nat (97 + n)) EmptyString) (seq 0 25).

Definition manyFiles : Host := Demo.host ("/src" :: letters) ["/src"].

Definition manyRun (remote : SshHelper) : Outcome unit :=
  @runTask Posix.nodePath Glob.minimatch manyFiles remote
    (Demo.inputs ["**/*"] "/src" "dest" true false false).

(** The scenario of the specification: 25 files give the batches of 10,
    10 and 5; when the upload of the twelfth file fails, the second batch
    is the last one and the run reports one failure. *)
Lemma batches_stop_at_first_failure_witness :
  chunkCount 25 = 3
  /\ map (@length TaskRun) (batchesOf (emitted (manyRun (Demo.remote [] [] []))))
     = [10; 10; 5]
  /\ In (Step (console_log (VLoc "CopyCompleted" [VNum 25])))
        (emitted (manyRun (Demo.remote [] [] [])))
  /\ map (@length TaskRun) (batchesOf (emitted (manyRun (Demo.remote [] [] ["./dest/l"]))))
     = [10; 10]
  /\ In (Step (tl_setResult Failed (VLoc "NumberFailed" [VNum 1])))
        (emitted (manyRun (Demo.remote [] [] ["./dest/l"]))).
Proof.
  split.
  - exact (proj1 (proj2 (@batches_stop_at_first_failure (Demo.remote [] [] [])
                           true [] None))).
  - vm_compute. repeat split; try reflexivity;
      repeat (first [left; reflexivity | right]).
Defined.

(** A run of the single-burst variant on the tree of module [Demo]. *)
Definition singleBurstRun (remote : SshHelper) (client : SftpClient) (inputs : TaskLib)
    : Outcome unit :=
  @SingleBurst.runTask Posix.nodePath Glob.minimatch Demo.tree remote client inputs.

(** The single-burst variant on an empty selection with [failOnEmptySource]
    set: it completes normally, sets no result, and reports zero files
    copied. *)
Example singleBurst_empty_selection :
  completion (singleBurstRun (Demo.remote [] [] []) Demo.noClient
                (Demo.inputs ["*.none"] "/src" "dest" false true false))
  = Normal tt
  /\ List.filter isSetResult
       (opsOf (emitted (singleBurstRun (Demo.remote [] [] []) Demo.noClient
                          (Demo.inputs ["*.none"] "/src" "dest" false true false))))
     = []
  /\ In (Step (console_log (VLoc "CopyCompleted" [VNum 0])))
        (emitted (singleBurstRun (Demo.remote [] [] []) Demo.noClient
                    (Demo.inputs ["*.none"] "/src" "dest" false true false))).
Proof.
  vm_compute. repeat split; try reflexivity.
  repeat (first [left; reflexivity | right]).
Qed.

(** C5. In the single-burst variant a directory that cannot be created is
    not fatal.  On a remote where creating [./dest] and [./dest/sub] fails,
    each callback of [createRemoteFolders] catches the failure and returns
    the message [TargetNotCreated] for its directory, which nobody reads:
    the run dispatches the batch of uploads all the same, uploads the three
    files, sets no result and completes normally. *)
Theorem singleBurst_swallows_directory_failure :
  In (Detached
        [{| task_ops :=
              [sftpClient_exists "./dest" (inr false);
               sftpClient_mkdir "./dest" true (Some (VStr "Permission denied"))];
            task_settled := fulfilled (VLoc "TargetNotCreated" [VStr "./dest"]) |};
         {| task_ops :=
              [sftpClient_exists "./dest/sub" (inr false);
               sftpClient_mkdir "./dest/sub" true (Some (VStr "Permission denied"))];
            task_settled := fulfilled (VLoc "TargetNotCreated" [VStr "./dest/sub"]) |}])
     (emitted (singleBurstRun (Demo.remote [] [] []) Demo.refusingClient
                 (Demo.inputs ["**/*"] "/src" "dest" false false false)))
  /\ completion (singleBurstRun (Demo.remote [] [] []) Demo.refusingClient
                   (Demo.inputs ["**/*"] "/src" "dest" false false false))
     = Normal tt
  /\ List.filter isSetResult
       (opsOf (emitted (singleBurstRun (Demo.remote [] [] []) Demo.refusingClient
                          (Demo.inputs ["**/*"] "/src" "dest" false false false))))
     = []
  /\ length (List.filter isUploadFile
               (opsOf (emitted (singleBurstRun (Demo.remote [] [] []) Demo.refusingClient
                                  (Demo.inputs ["**/*"] "/src" "dest" false false false)))))
     = 3
  /\ length (batchesOf
               (emitted (singleBurstRun (Demo.remote [] [] []) Demo.refusingClient
                           (Demo.inputs ["**/*"] "/src" "dest" false false false))))
     = 1.
Proof.
  vm_compute. split; [repeat (first [left; reflexivity | right])|].
  repeat split; reflexivity.
Qed.

(** * Further properties of the selection *)

Section MoreSelection.

Context `{NodePath} `{Minimatch} `{Host}.








Lemma filter_map_comm {A B} (f : B -> bool) (g : A -> B) (l : list A) :
  List.filter f (map g l) = map g (List.filter (fun x => f (g x)) l).
Proof.
  induction l as [|x l IH]; simpl; [reflexivity|].
  destruct (f (g x)); simpl; now rewrite IH.
Qed.

Lemma filter_idem {A} (f : A -> bool) (l : list A) :
  List.filter f (List.filter f l) = List.filter f l.
Proof.
  induction l as [|x l IH]; simpl; [reflexivity|].
  destruct (f x) eqn:E; simpl; [now rewrite E, IH | exact IH].
Qed.

Lemma filter_disjoint {A} (f g : A -> bool) (l : list A) :
  (forall x, g x = true -> f x = false) -> List.filter f (List.filter g l) = [].
Proof.
  intros Hd. induction l as [|x l IH]; simpl; [reflexivity|].
  destruct (g x) eqn:E; simpl; [now rewrite (Hd x E) | exact IH].
Qed.

(** The raw patterns that end as include patterns, and those that end as
    exclude patterns. *)
Definition rawIncludes (contents : list string) : list string :=
  List.filter (fun p => negb (isNegated (JsString.trim p))) contents.

Definition rawExcludes (contents : list string) : list string :=
  List.filter (fun p => isNegated (JsString.trim p)) contents.

Lemma classify_regrouped sourceFolder contents :
  classify sourceFolder (rawIncludes contents ++ rawExcludes contents)
  = classify sourceFolder contents.
Proof.
  rewrite !classify_eq, map_app, !List.filter_app, !filter_map_comm.
  unfold rawIncludes, rawExcludes.
  rewrite !filter_idem.
  rewrite (filter_disjoint (fun x => negb (isNegated (JsString.trim x)))
             (fun p => isNegated (JsString.trim p)))
    by (now intros x ->).
  rewrite (filter_disjoint (fun x => isNegated (JsString.trim x))
             (fun p => negb (isNegated (JsString.trim p))))
    by (intros x Hx; now apply negb_true_iff).
  now rewrite app_nil_r.
Qed.

(** X2. The selection does not depend on how include and exclude patterns
    are interleaved: it is the selection of the include patterns, in their
    order, followed by the exclude patterns, in theirs.  An include pattern
    written after an exclude pattern brings no file back. *)
Theorem selection_ignores_interleaving (sourceFolder : string) (contents : list string) :
  getFilesToCopy sourceFolder contents
  = getFilesToCopy sourceFolder (rawIncludes contents ++ rawExcludes contents).
Proof. unfold getFilesToCopy. now rewrite classify_regrouped. Qed.

(** X3. Appending an exclude pattern to a non-empty pattern list only
    narrows the selection: the new selection is what [minimatch.match]
    keeps of the old one for the anchored pattern, and it throws what the
    old one throws. *)
Theorem trailing_exclude_narrows (sourceFolder : string) (contents : list string)
    (p : string) :
  contents <> [] ->
  isNegated (JsString.trim p) = true ->
  match getFilesToCopy sourceFolder contents with
  | inr files =>
      getFilesToCopy sourceFolder (contents ++ [p])
      = inr (minimatch_match files
               (anchorExclude sourceFolder (JsString.trim p)) matchOptions)
      /\ Forall (fun f => In f files)
           (minimatch_match files
              (anchorExclude sourceFolder (JsString.trim p)) matchOptions)
  | inl e => getFilesToCopy sourceFolder (contents ++ [p]) = inl e
  end.
Proof.
  intros Hne Hneg.
  rewrite !getFilesToCopy_eq, !classify_eq, map_app, !List.filter_app, !map_app.
  simpl. rewrite Hneg. simpl. rewrite app_nil_r.
  match goal with
  | |- context [withImplicitInclude ?inc (?exc ++ [?x])] =>
      assert (Hw : withImplicitInclude inc (exc ++ [x]) = withImplicitInclude inc exc)
  end.
  { unfold withImplicitInclude. rewrite !length_map, length_app, !length_map.
    destruct contents as [|q qs]; [congruence|]. simpl.
    destruct (isNegated (JsString.trim q)); simpl; [|reflexivity].
    now rewrite Nat.add_comm. }
  rewrite Hw.
  match goal with
  | |- context [foldExc pushSeen ?m []] => destruct (foldExc pushSeen m [])
  end; [reflexivity|].
  rewrite fold_left_app. simpl. unfold applyExclude at 1.
  split; [reflexivity|]. apply List.Forall_forall. intros f Hf.
  unfold minimatch_match in Hf. now apply List.filter_In in Hf.
Qed.

(** Sorting keeps the members. *)
Lemma insertSorted_In x l y : In y (JsString.insertSorted x l) <-> y = x \/ In y l.
Proof.
  induction l as [|z l IH]; simpl; [intuition|].
  destruct (String.leb x z); simpl; [intuition|]. rewrite IH. intuition.
Qed.

Lemma sort_In l y : In y (JsString.sort l) <-> In y l.
Proof.
  induction l as [|x l IH]; simpl; [tauto|].
  rewrite insertSorted_In, IH. intuition.
Qed.

(** X4. The folders the batched variant creates are the parent directories
    of the mapped remote paths: every selected file has its parent
    directory planned, and nothing else is. *)
Theorem plan_is_the_parents (filesToCopy : list string)
    (sourceFolder targetFolder : string) (flattenFolders : bool) (d : string) :
  In d (getUniqueFolders
          (JsString.sort
             (map snd (prepareFiles filesToCopy sourceFolder targetFolder flattenFolders))))
  <-> exists x, In x filesToCopy
                /\ d = path_dirname (remotePath sourceFolder targetFolder flattenFolders x).
Proof.
  unfold getUniqueFolders. rewrite getUniqueFolders_fold. simpl.
  change (firstSeen [] ?l) with (dedup l). rewrite dedup_In, in_map_iff. split.
  - intros (r & <- & Hr). apply (proj1 (sort_In _ _)) in Hr.
    apply in_map_iff in Hr as ([x r'] & <- & Hp).
    unfold prepareFiles in Hp. apply in_map_iff in Hp as (x' & [= <- <-] & Hx). eauto.
  - intros (x & Hx & ->). eexists. split; [reflexivity|]. apply (proj2 (sort_In _ _)).
    apply in_map_iff. exists (x, remotePath sourceFolder targetFolder flattenFolders x).
    split; [reflexivity|]. unfold prepareFiles. apply in_map_iff. eauto.
Qed.

End MoreSelection.

(** * Further properties of a run *)

(** ** Closed forms of the folder loop and of the copy branch *)

Section CopyBranch.

Context `{NodePath} `{Minimatch} `{Host} `{SshHelper} `{TaskLib}.

(** What the loop over [folderStructure] does: it creates the folders in
    order and stops at the first one that is refused. *)
Fixpoint folderEvents (folderStructure : list string) : list Event :=
  match folderStructure with
  | [] => []
  | d :: rest =>
      match ssh_createRemoteDirectory d with
      | None =>
          Step (createRemoteDirectory d None)
          :: Step (console_log (VLoc "FolderCreated" [VStr d])) :: folderEvents rest
      | Some e => [Step (createRemoteDirectory d (Some e))]
      end
  end.

Fixpoint firstRefused (folderStructure : list string) : option (string * Value) :=
  match folderStructure with
  | [] => None
  | d :: rest =>
      match ssh_createRemoteDirectory d with
      | None => firstRefused rest
      | Some e => Some (d, e)
      end
  end.

Lemma createFolders_eq folderStructure v :
  createFolders folderStructure v
  = {| completion :=
         match firstRefused folderStructure with
         | Some (d, e) => Throw (VLoc "TargetNotCreated" [VStr d; e])
         | None => Normal tt
         end;
       sshHelper := v;
       emitted := folderEvents folderStructure |}.
Proof.
  unfold createFolders. revert v.
  induction folderStructure as [|d rest IH]; intros v; [reflexivity|].
  cbn [forOf folderEvents firstRefused]. unfold bind at 1.
  unfold try_catch at 1. unfold await_, bind at 1. unfold bind at 1.
  unfold emit at 1. cbn [completion sshHelper emitted].
  destruct (ssh_createRemoteDirectory d) as [e|]; simpl; [reflexivity|].
  rewrite IH. simpl. reflexivity.
Qed.

Lemma uploadFiles_eq overwrite preparedFiles v :
  uploadFiles overwrite preparedFiles v
  = {| completion :=
         match firstFailure (runsOf overwrite preparedFiles) with
         | Some _ => Return
         | None => Normal tt
         end;
       sshHelper := v;
       emitted :=
         map AllSettled (untilFailure (runsOf overwrite preparedFiles))
         ++ match firstFailure (runsOf overwrite preparedFiles) with
            | Some failed => failureReport failed
            | None =>
                [Step (console_log
                         (VLoc "CopyCompleted"
                            [VNum (length (List.filter isFulfilled
                                             (concat (runsOf overwrite preparedFiles))))]))]
            end |}.
Proof.
  unfold uploadFiles, bind. rewrite uploadChunks_eq, runsFrom_all. simpl.
  destruct (firstFailure (runsOf overwrite preparedFiles)); simpl;
    [reflexivity | now rewrite app_nil_r].
Qed.

(** The mapped files and the planned folders of the copy of
    [filesToCopy]. *)
Definition preparedOf (sourceFolder targetFolder : string) (filesToCopy : list string)
    (flattenFolders : bool) : list (string * string) :=
  prepareFiles filesToCopy sourceFolder targetFolder flattenFolders.

Definition foldersOf (sourceFolder targetFolder : string) (filesToCopy : list string)
    (flattenFolders : bool) : list string :=
  getUniqueFolders
    (JsString.sort
       (map snd (preparedOf sourceFolder targetFolder filesToCopy flattenFolders))).

(** The selection throws, or the copy of what it returned follows. *)
Lemma copyFiles_unfold sourceFolder targetFolder contents overwrite failOnEmptySource
    flattenFolders v :
  copyFiles sourceFolder targetFolder contents overwrite failOnEmptySource
    flattenFolders v
  = match getFilesToCopy sourceFolder contents with
    | inl e => throw e v
    | inr filesToCopy =>
        copySelected filesToCopy sourceFolder targetFolder overwrite failOnEmptySource
          flattenFolders v
    end.
Proof.
  unfold copyFiles, bind, liftExc.
  destruct (getFilesToCopy sourceFolder contents) as [e|files]; [reflexivity|].
  cbn [ret completion sshHelper emitted app].
  now destruct (copySelected files sourceFolder targetFolder overwrite failOnEmptySource
                  flattenFolders v).
Qed.

(** The log lines that open the copy branch. *)
Definition copyHeader (preparedFiles : list (string * string)) : list Event :=
  [Step (tl_debug (VCat (VStr "Number of files to copy = ") (VNum (length preparedFiles))));
   Step (tl_debug (VCat (VStr "filesToCopy = ") (VArr (map VTuple preparedFiles))));
   Step (console_log (VLoc "CopyingFiles" [VNum (length preparedFiles)]))].

Lemma copySelected_eq filesToCopy sourceFolder targetFolder overwrite failOnEmptySource
    flattenFolders v :
  copySelected filesToCopy sourceFolder targetFolder overwrite failOnEmptySource
    flattenFolders v
  = {| completion :=
         match firstRefused (foldersOf sourceFolder targetFolder filesToCopy flattenFolders)
         with
         | Some (d, e) => Throw (VLoc "TargetNotCreated" [VStr d; e])
         | None =>
             completion
               (uploadFiles overwrite
                  (preparedOf sourceFolder targetFolder filesToCopy flattenFolders) v)
         end;
       sshHelper := v;
       emitted :=
         copyHeader (preparedOf sourceFolder targetFolder filesToCopy flattenFolders)
         ++ folderEvents (foldersOf sourceFolder targetFolder filesToCopy flattenFolders)
         ++ match firstRefused (foldersOf sourceFolder targetFolder filesToCopy
                                  flattenFolders)
            with
            | Some _ => []
            | None =>
                Step (console_log
                        (VLoc "FoldersCreated"
                           [VNum (length (foldersOf sourceFolder targetFolder filesToCopy
                                            flattenFolders))]))
                :: emitted
                     (uploadFiles overwrite
                        (preparedOf sourceFolder targetFolder filesToCopy flattenFolders) v)
            end |}.
Proof.
  unfold copySelected, array_truthy. cbv zeta. cbv iota.
  fold (preparedOf sourceFolder targetFolder filesToCopy flattenFolders).
  fold (foldersOf sourceFolder targetFolder filesToCopy flattenFolders).
  unfold bind, emit. cbn [completion sshHelper emitted].
  rewrite createFolders_eq. cbn [completion sshHelper emitted].
  destruct (firstRefused (foldersOf sourceFolder targetFolder filesToCopy flattenFolders))
    as [[d e]|]; cbn [completion sshHelper emitted].
  - unfold copyHeader. simpl. now rewrite app_nil_r.
  - rewrite uploadFiles_eq. cbn [completion sshHelper emitted]. unfold copyHeader.
    reflexivity.
Qed.

End CopyBranch.

(** ** Traces that end in a distinguished block *)

(** What a completion throws, if it throws. *)
Definition thrown {A} (c : Completion A) : option Value :=
  match c with
  | Throw e => Some e
  | _ => None
  end.

(** The trace of [m] is a run of events that pass [Pre], followed by a
    tail that, with what [m] throws, satisfies [Q]. *)
Definition endsIn (Pre : Event -> bool) (Q : option Value -> list Event -> Prop)
    {A} (m : M A) : Prop :=
  forall v, exists pre post,
    emitted (m v) = pre ++ post
    /\ Forall (fun ev => Pre ev = true) pre
    /\ Q (thrown (completion (m v))) post.

Section EndsInRules.

Variable Pre : Event -> bool.
Variable Q : option Value -> list Event -> Prop.
Hypothesis Q_nil : forall t, Q t [].

Lemma endsIn_pre {A} (m : M A) : preserves (eventsAll Pre) m -> endsIn Pre Q m.
Proof.
  intros Hm v. exists (emitted (m v)), []. rewrite app_nil_r.
  split; [reflexivity|]. split; [now apply eventsAll_emitted | apply Q_nil].
Qed.

Lemma endsIn_block {A} (m : M A) :
  (forall v, Q (thrown (completion (m v))) (emitted (m v))) -> endsIn Pre Q m.
Proof. intros Hm v. exists [], (emitted (m v)). auto. Qed.

Lemma endsIn_bind {A B} (m : M A) (k : A -> M B) :
  preserves (eventsAll Pre) m -> (forall a, endsIn Pre Q (k a)) -> endsIn Pre Q (bind m k).
Proof.
  intros Hm Hk v. pose proof (eventsAll_emitted Pre m v Hm) as Hpre. unfold bind.
  destruct (completion (m v)) as [a|e|] eqn:E; cbn [completion emitted].
  - destruct (Hk a (sshHelper (m v))) as (pre & post & Heq & Hall & HQ).
    exists (emitted (m v) ++ pre), post. rewrite Heq, app_assoc.
    split; [reflexivity|]. split; [|assumption]. apply Forall_app. now split.
  - exists (emitted (m v)), []. rewrite app_nil_r. auto.
  - exists (emitted (m v)), []. rewrite app_nil_r. auto.
Qed.

End EndsInRules.

Section RunShape.

Context `{NodePath} `{Minimatch} `{Host} `{SshHelper} `{TaskLib}.

(** Everything [run] does before the copy passes [Pre]; the copy of the
    selected files is the distinguished block. *)
Lemma runBody_endsIn (Pre : Event -> bool) (Q : option Value -> list Event -> Prop) :
  (forall t, Q t []) ->
  allows (eventsAll Pre) isPrefixOp ->
  (forall sshConfig r, Pre (Step (new_SshHelper sshConfig r)) = true) ->
  (forall sourceFolder targetFolder contents overwrite failOnEmptySource flattenFolders,
     endsIn Pre Q (copyFiles sourceFolder targetFolder contents overwrite
                     failOnEmptySource flattenFolders)) ->
  endsIn Pre Q runBody.
Proof.
  intros Hnil Hk Hnew Hcopy. unfold runBody.
  repeat (first
    [ apply Hcopy
    | apply endsIn_pre; [assumption | now apply copyDirectory_preserves]
    | apply endsIn_bind;
      [ assumption
      | first [ now apply readSshConfig_preserves
              | now apply cleanTarget_preserves
              | unfold newSshHelper;
                repeat (first [preserves_step | apply Hnew | apply Hk; reflexivity]) ]
      | intros ? ]
    | match goal with
      | |- endsIn _ _ (match ?x with _ => _ end) => destruct x
      end ]).
Qed.

(** The trace of a run: the events before the copy, the tail of the copy,
    the report of the [catch] block and the events of the [finally] block. *)
Lemma runTask_endsIn (Pre : Event -> bool) (Q : option Value -> list Event -> Prop) :
  (forall t, Q t []) ->
  allows (eventsAll Pre) isPrefixOp ->
  (forall sshConfig r, Pre (Step (new_SshHelper sshConfig r)) = true) ->
  (forall sourceFolder targetFolder contents overwrite failOnEmptySource flattenFolders,
     endsIn Pre Q (copyFiles sourceFolder targetFolder contents overwrite
                     failOnEmptySource flattenFolders)) ->
  exists pre post,
    emitted runTask
    = pre ++ post ++ catchEvents (runBody None)
      ++ finallyEvents (sshHelper (runBody None))
    /\ Forall (fun ev => Pre ev = true) pre
    /\ Q (thrown (completion (runBody None))) post.
Proof.
  intros Hnil Hk Hnew Hcopy.
  destruct (runBody_endsIn Pre Q Hnil Hk Hnew Hcopy None) as (pre & post & Heq & Hpre & HQ).
  exists pre, post. rewrite runTask_emitted, Heq, <- app_assoc. auto.
Qed.

Lemma getUniqueFolders_In files d :
  In d (getUniqueFolders files) <-> In d (map path_dirname files).
Proof.
  unfold getUniqueFolders. rewrite getUniqueFolders_fold. simpl.
  change (firstSeen [] ?l) with (dedup l). apply dedup_In.
Qed.

Lemma getUniqueFolders_NoDup files : List.NoDup (getUniqueFolders files).
Proof.
  unfold getUniqueFolders. rewrite getUniqueFolders_fold. simpl.
  change (firstSeen [] ?l) with (dedup l). apply dedup_NoDup.
Qed.

Lemma foldersOf_parent sourceFolder targetFolder contents flattenFolders pathTuple :
  In pathTuple (preparedOf sourceFolder targetFolder contents flattenFolders) ->
  In (path_dirname (snd pathTuple))
     (foldersOf sourceFolder targetFolder contents flattenFolders).
Proof.
  intros Hin. unfold foldersOf. apply getUniqueFolders_In. apply in_map.
  apply (proj2 (sort_In _ _)). now apply in_map.
Qed.

(** ** Uploads follow the creation of their folder *)

(** The folders created so far, after the event [ev]. *)
Definition createdBy (created : list string) (ev : Event) : list string :=
  match ev with
  | Step (createRemoteDirectory d None) => d :: created
  | _ => created
  end.

(** An upload goes into a folder created so far. *)
Definition uploadsInto (created : list string) (op : Op) : bool :=
  match op with
  | uploadFile _ targetPath _ => set_has created (path_dirname targetPath)
  | _ => true
  end.

(** Every upload of the trace goes into a folder that an earlier event of
    the trace created. *)
Fixpoint uploadsFollowFolders (created : list string) (trace : list Event) : bool :=
  match trace with
  | [] => true
  | ev :: rest =>
      forallb (uploadsInto created) (opsOfEvent ev)
      && uploadsFollowFolders (createdBy created ev) rest
  end.

Lemma uploadsFollowFolders_app created t1 t2 :
  uploadsFollowFolders created (t1 ++ t2)
  = uploadsFollowFolders created t1
    && uploadsFollowFolders (fold_left createdBy t1 created) t2.
Proof.
  revert created. induction t1 as [|ev t1 IH]; intros created; simpl; [reflexivity|].
  now rewrite IH, andb_assoc.
Qed.

Lemma uploadsFollowFolders_none trace :
  Forall (fun ev => without isUploadFile ev = true) trace ->
  forall created, uploadsFollowFolders created trace = true.
Proof.
  induction 1 as [|ev trace Hev _ IH]; intros created; simpl; [reflexivity|].
  rewrite IH, andb_true_r. unfold without in Hev.
  apply forallb_forall. intros op Hop.
  rewrite forallb_forall in Hev. specialize (Hev op Hop). now destruct op.
Qed.

Lemma createdBy_keeps trace created d :
  In d created -> In d (fold_left createdBy trace created).
Proof.
  revert created. induction trace as [|ev trace IH]; intros created Hd; [assumption|].
  simpl. apply IH. destruct ev as [[]| |]; simpl; auto.
  destruct r; simpl; auto.
Qed.

Lemma folderEvents_cover folderStructure :
  firstRefused folderStructure = None ->
  forall created d,
    In d folderStructure -> In d (fold_left createdBy (folderEvents folderStructure) created).
Proof.
  induction folderStructure as [|x rest IH]; simpl; [intros _ created d []|].
  destruct (ssh_createRemoteDirectory x) as [e|]; [discriminate|].
  intros Hrest created d [->|Hd]; simpl.
  - apply createdBy_keeps. now left.
  - now apply IH.
Qed.

Lemma folderEvents_no_upload folderStructure :
  Forall (fun ev => without isUploadFile ev = true) (folderEvents folderStructure).
Proof.
  induction folderStructure as [|x rest IH]; simpl; [constructor|].
  destruct (ssh_createRemoteDirectory x); repeat constructor. exact IH.
Qed.

Lemma untilFailure_In batches batch :
  In batch (untilFailure batches) -> In batch batches.
Proof.
  induction batches as [|b bs IH]; simpl; [auto|].
  destruct (anyRejected b); simpl; intuition.
Qed.

(** The one upload of a callback is the upload to its target. *)
Lemma uploadTask_target overwrite pathTuple :
  Forall (fun op => match op with
                    | uploadFile _ targetPath _ => targetPath = snd pathTuple
                    | _ => True
                    end)
         (task_ops (settle (uploadTask overwrite pathTuple))).
Proof.
  destruct pathTuple as [fileToCopy targetPath]. unfold uploadTask, settle. simpl.
  destruct overwrite; simpl; [repeat constructor|].
  destruct (ssh_checkRemotePathExists targetPath) as [e|[|]]; simpl; repeat constructor.
Qed.

Lemma batches_follow_folders overwrite preparedFiles created batches :
  (forall pathTuple, In pathTuple preparedFiles ->
     In (path_dirname (snd pathTuple)) created) ->
  (forall batch, In batch batches -> In batch (runsOf overwrite preparedFiles)) ->
  forall rest,
    uploadsFollowFolders created (map AllSettled batches ++ rest)
    = uploadsFollowFolders created rest.
Proof.
  intros Hcov Hsub rest. induction batches as [|b bs IH]; [reflexivity|].
  simpl. rewrite IH by (intros ? ?; apply Hsub; now right).
  replace (forallb (uploadsInto created) (concat (map task_ops b))) with true;
    [reflexivity|].
  symmetry. apply forallb_forall. intros op Hop.
  apply in_concat in Hop as (ops & Hops & Hop).
  apply in_map_iff in Hops as (task & <- & Htask).
  assert (Hall : In task (concat (runsOf overwrite preparedFiles))).
  { apply in_concat. exists b. split; [apply Hsub; now left | assumption]. }
  rewrite runsOf_concat in Hall. apply in_map_iff in Hall as (pathTuple & <- & Hin).
  pose proof (uploadTask_target overwrite pathTuple) as Ht.
  rewrite List.Forall_forall in Ht. specialize (Ht op Hop).
  destruct op; try reflexivity. simpl in *. subst.
  apply set_has_In. now apply Hcov.
Qed.

Lemma copyFiles_follows_folders sourceFolder targetFolder contents overwrite
    failOnEmptySource flattenFolders v created :
  uploadsFollowFolders created
    (emitted (copyFiles sourceFolder targetFolder contents overwrite failOnEmptySource
                flattenFolders v))
  = true.
Proof.
  rewrite copyFiles_unfold.
  destruct (getFilesToCopy sourceFolder contents) as [err|files]; [reflexivity|].
  clear contents. rename files into contents.
  rewrite copySelected_eq. cbn [emitted]. rewrite !uploadsFollowFolders_app.
  rewrite (uploadsFollowFolders_none (copyHeader _)) by (repeat constructor).
  rewrite (uploadsFollowFolders_none (folderEvents _)) by apply folderEvents_no_upload.
  simpl andb.
  destruct (firstRefused (foldersOf sourceFolder targetFolder contents flattenFolders))
    as [[d e]|] eqn:E; [reflexivity|].
  rewrite uploadFiles_eq. cbn [emitted].
  cbn [uploadsFollowFolders opsOfEvent forallb uploadsInto createdBy andb].
  rewrite (batches_follow_folders overwrite
             (preparedOf sourceFolder targetFolder contents flattenFolders)).
  - apply uploadsFollowFolders_none.
    destruct (firstFailure _); [|repeat constructor]. unfold failureReport.
    apply Forall_app. split; [|repeat constructor].
    apply List.Forall_map. apply List.Forall_forall. reflexivity.
  - intros pathTuple Hin. apply folderEvents_cover; [assumption|].
    now apply foldersOf_parent.
  - intros batch. apply untilFailure_In.
Qed.

(** X5. A file is uploaded only into a folder that the same run has
    created before: the target of every [uploadFile] of a run has as its
    parent directory the argument of an earlier [createRemoteDirectory]
    that succeeded. *)
Theorem uploads_follow_their_folder :
  uploadsFollowFolders [] (emitted runTask) = true.
Proof.
  destruct (runTask_endsIn (without isUploadFile)
              (fun _ post => forall created, uploadsFollowFolders created post = true))
    as (pre & post & -> & Hpre & Hpost).
  - reflexivity.
  - intros op Hop. now destruct op.
  - reflexivity.
  - intros. apply endsIn_block. intros v created. apply copyFiles_follows_folders.
  - rewrite !uploadsFollowFolders_app, Hpost.
    rewrite (uploadsFollowFolders_none pre Hpre). cbn [andb].
    rewrite (uploadsFollowFolders_none (catchEvents _)).
    + apply uploadsFollowFolders_none. unfold finallyEvents.
      destruct (sshHelper (runBody None)); repeat constructor.
    + unfold catchEvents. destruct (completion (runBody None)); repeat constructor.
Qed.

(** ** Folders are created once *)

Definition isCreateDirectory (op : Op) : bool :=
  match op with createRemoteDirectory _ _ => true | _ => false end.

(** The folders a trace asks the remote to create, in order. *)
Definition createdFolders (trace : list Event) : list string :=
  flat_map (fun op => match op with createRemoteDirectory d _ => [d] | _ => [] end)
           (opsOf trace).

Lemma createdFolders_app t1 t2 :
  createdFolders (t1 ++ t2) = createdFolders t1 ++ createdFolders t2.
Proof. unfold createdFolders. now rewrite opsOf_app, flat_map_app. Qed.

Lemma createdFolders_none trace :
  Forall (fun ev => without isCreateDirectory ev = true) trace -> createdFolders trace = [].
Proof.
  intros Hall. apply without_filter in Hall. unfold createdFolders.
  induction (opsOf trace) as [|op ops IH]; [reflexivity|]. simpl in *.
  destruct op; simpl in *; try discriminate; auto.
Qed.

Lemma folderEvents_prefix folderStructure :
  exists rest, folderStructure = createdFolders (folderEvents folderStructure) ++ rest.
Proof.
  induction folderStructure as [|d ds [rest IH]]; [now exists []|]. simpl.
  destruct (ssh_createRemoteDirectory d); [now exists ds|].
  exists rest. unfold createdFolders, opsOf in *. simpl. now f_equal.
Qed.

Lemma uploadFiles_eventsAll (P : Event -> bool) overwrite preparedFiles v :
  allows (eventsAll P) isReportOp ->
  (forall chunk,
     P (AllSettled (map (fun pathTuple => settle (uploadTask overwrite pathTuple)) chunk))
     = true) ->
  Forall (fun ev => P ev = true) (emitted (uploadFiles overwrite preparedFiles v)).
Proof.
  intros Hk Hb. apply eventsAll_emitted. now apply uploadFiles_preserves.
Qed.

Lemma copySelected_createdFolders contents sourceFolder targetFolder overwrite
    failOnEmptySource flattenFolders v :
  createdFolders (emitted (copySelected contents sourceFolder targetFolder overwrite
                             failOnEmptySource flattenFolders v))
  = createdFolders
      (folderEvents (foldersOf sourceFolder targetFolder contents flattenFolders)).
Proof.
  rewrite copySelected_eq. cbn [emitted]. rewrite !createdFolders_app.
  rewrite (createdFolders_none (copyHeader _)) by (repeat constructor). simpl.
  rewrite <- (app_nil_r (createdFolders (folderEvents _))) at 2. f_equal.
  destruct (firstRefused _) as [[d e]|]; [reflexivity|].
  apply createdFolders_none. constructor; [reflexivity|].
  apply uploadFiles_eventsAll; [intros op Hop; now destruct op|].
  intros chunk. apply batch_without. intros op Hop. now destruct op.
Qed.

(** X6. A run asks the remote to create each folder at most once: the
    arguments of its [createRemoteDirectory] calls are pairwise distinct. *)
Theorem folders_are_created_once : List.NoDup (createdFolders (emitted runTask)).
Proof.
  destruct (runTask_endsIn (without isCreateDirectory)
              (fun _ post => List.NoDup (createdFolders post)))
    as (pre & post & -> & Hpre & Hpost).
  - intros _. constructor.
  - intros op Hop. now destruct op.
  - reflexivity.
  - intros. apply endsIn_block. intros v. rewrite copyFiles_unfold.
    destruct (getFilesToCopy sourceFolder contents) as [err|files]; [constructor|].
    clear contents. rename files into contents.
    rewrite copySelected_createdFolders.
    destruct (folderEvents_prefix
                (foldersOf sourceFolder targetFolder contents flattenFolders))
      as [rest Heq].
    pose proof (getUniqueFolders_NoDup
                  (JsString.sort
                     (map snd (preparedOf sourceFolder targetFolder contents
                                 flattenFolders)))) as Hnd.
    fold (foldersOf sourceFolder targetFolder contents flattenFolders) in Hnd.
    rewrite Heq in Hnd. now apply NoDup_app_remove_r in Hnd.
  - rewrite !createdFolders_app, (createdFolders_none pre Hpre).
    rewrite (createdFolders_none (catchEvents _)),
      (createdFolders_none (finallyEvents _)).
    + now rewrite !app_nil_r.
    + unfold finallyEvents. destruct (sshHelper (runBody None)); repeat constructor.
    + unfold catchEvents. destruct (completion (runBody None)); repeat constructor.
Qed.

(** ** The result is set at most once *)

(** The results a trace sets, in order. *)
Definition resultsOf (trace : list Event) : list Op :=
  List.filter isSetResult (opsOf trace).

Lemma resultsOf_app t1 t2 : resultsOf (t1 ++ t2) = resultsOf t1 ++ resultsOf t2.
Proof. unfold resultsOf. now rewrite opsOf_app, List.filter_app. Qed.

Lemma resultsOf_none trace :
  Forall (fun ev => without isSetResult ev = true) trace -> resultsOf trace = [].
Proof. apply without_filter. Qed.

Lemma resultsOf_failureReport failed :
  resultsOf (failureReport failed)
  = [tl_setResult Failed
       (VLoc "NumberFailed" [VNum (length (List.filter isRejected failed))])].
Proof.
  unfold failureReport. rewrite resultsOf_app.
  rewrite resultsOf_none; [reflexivity|].
  apply List.Forall_map. apply List.Forall_forall. reflexivity.
Qed.

Lemma batches_set_no_result overwrite preparedFiles batches :
  (forall batch, In batch batches -> In batch (runsOf overwrite preparedFiles)) ->
  resultsOf (map AllSettled batches) = [].
Proof.
  intros Hsub. apply resultsOf_none. apply List.Forall_map. apply List.Forall_forall.
  intros batch Hb. apply Hsub in Hb. unfold runsOf in Hb.
  apply in_map_iff in Hb as (chunk & <- & _).
  apply batch_without. intros op Hop. now destruct op.
Qed.

(** The copy of the selected files sets a result only when a batch has a
    rejection, and then it does not throw. *)
Lemma copyFiles_results sourceFolder targetFolder contents overwrite
    failOnEmptySource flattenFolders v :
  let o := copyFiles sourceFolder targetFolder contents overwrite failOnEmptySource
             flattenFolders v in
  resultsOf (emitted o) = []
  \/ (thrown (completion o) = None
      /\ exists err, resultsOf (emitted o) = [tl_setResult Failed err]).
Proof.
  cbv zeta. rewrite copyFiles_unfold.
  destruct (getFilesToCopy sourceFolder contents) as [err|files]; [now left|].
  clear contents. rename files into contents.
  rewrite copySelected_eq. cbn [emitted completion].
  rewrite !resultsOf_app.
  rewrite (resultsOf_none (copyHeader _)) by (repeat constructor).
  assert (Hf : forall fs, resultsOf (folderEvents fs) = []).
  { intros fs. apply resultsOf_none. induction fs as [|d ds IH]; simpl; [constructor|].
    destruct (ssh_createRemoteDirectory d); repeat constructor. exact IH. }
  rewrite Hf. cbn [app].
  destruct (firstRefused _) as [[d e]|]; [now left|].
  rewrite uploadFiles_eq. cbn [emitted completion].
  change (resultsOf (Step ?x :: ?t)) with (resultsOf ([Step x] ++ t)).
  rewrite !resultsOf_app.
  rewrite (batches_set_no_result overwrite
             (preparedOf sourceFolder targetFolder contents flattenFolders))
    by (intros batch; apply untilFailure_In).
  destruct (firstFailure _) as [failed|]; [|now left].
  right. split; [reflexivity|]. rewrite resultsOf_failureReport. eauto.
Qed.

(** X7. A run sets the task result at most once, and only to [Failed]:
    the task itself never reports success. *)
Theorem result_is_set_at_most_once :
  resultsOf (emitted runTask) = []
  \/ exists err, resultsOf (emitted runTask) = [tl_setResult Failed err].
Proof.
  destruct (runTask_endsIn (without isSetResult)
              (fun t post =>
                 resultsOf post = []
                 \/ (t = None /\ exists err, resultsOf post = [tl_setResult Failed err])))
    as (pre & post & -> & Hpre & Hpost).
  - intros t. now left.
  - intros op Hop. now destruct op.
  - reflexivity.
  - intros. apply endsIn_block. intros v. apply copyFiles_results.
  - rewrite !resultsOf_app, (resultsOf_none pre Hpre).
    rewrite (resultsOf_none (finallyEvents _))
      by (unfold finallyEvents; destruct (sshHelper (runBody None)); repeat constructor).
    rewrite app_nil_r. cbn [app]. unfold catchEvents.
    destruct Hpost as [->|[Ht (err & ->)]].
    + destruct (completion (runBody None)); [now left | | now left].
      right. now eexists.
    + destruct (completion (runBody None)); try discriminate; right; now eexists.
Qed.

(** ** The promise of [run] *)

(** X8. The statement that starts the task never leaves a rejection
    unhandled, and it logs one line after the run.  The line is the one of
    success, also when the run has set the result to [Failed]; it is the
    one of an unexpected failure only when closing the connection rejected,
    with that error. *)
Theorem main_logs_one_last_line :
  completion main = Normal tt
  /\ exists line,
       emitted main = emitted runTask ++ [Step (tl_debug line)]
       /\ (line = VStr "Task successfully accomplished"
           \/ exists err,
                line = VCat (VStr "Run was unexpectedly failed due to: ") err
                /\ ssh_closeConnection = Some err
                /\ In (Step (closeConnection (Some err))) (emitted runTask))
       /\ (ssh_closeConnection = None -> line = VStr "Task successfully accomplished").
Proof.
  unfold main, runTask, run, try_catch, try_finally, callAsync, bind, runFinally,
    getSshHelper, await_, bind, emit.
  generalize (runBody None). intros [c s e]. cbn [completion sshHelper emitted].
  destruct c as [[]|err|], s as [h|]; cbn [completion sshHelper emitted];
    destruct ssh_closeConnection as [err'|]; cbn [completion sshHelper emitted];
    (split; [reflexivity|]); eexists; (split; [reflexivity|]);
    (split; [|try discriminate; reflexivity]);
    first [ now left
          | right; exists err'; split; [reflexivity|]; split; [reflexivity|];
            rewrite !in_app_iff; simpl; tauto ].
Qed.

(** ** Awaited calls that end the run *)

(** The error with which the [try] block of [run] ends when the awaited
    call of the event fails: the rejection itself, or the message the
    handler around the call makes of it. *)
Definition fatalError (ev : Event) : option Value :=
  match ev with
  | Step (new_SshHelper _ (Some e)) => Some e
  | Step (setupConnection (Some e)) => Some e
  | Step (checkRemotePathExists _ (inl e)) => Some e
  | Step (runCommandOnRemoteMachine _ (Some e)) => Some (VLoc "CleanTargetFolderFailed" [e])
  | Step (uploadFolder sourceFolder _ (inl e)) =>
      Some (VLoc "CopyDirectoryFailed" [VStr sourceFolder; e])
  | Step (createRemoteDirectory d (Some e)) => Some (VLoc "TargetNotCreated" [VStr d; e])
  | _ => None
  end.

Definition nonFatal (ev : Event) : bool :=
  match fatalError ev with
  | None => true
  | Some _ => false
  end.

(** [m] has no failed call, or it has one, as its last event, and throws
    the error of that call. *)
Definition haltsAtFatal {A} (m : M A) : Prop :=
  forall v,
    Forall (fun ev => nonFatal ev = true) (emitted (m v))
    \/ exists pre ev err,
         emitted (m v) = pre ++ [ev]
         /\ Forall (fun ev => nonFatal ev = true) pre
         /\ fatalError ev = Some err
         /\ completion (m v) = Throw err.

Lemma halts_pre {A} (m : M A) : preserves (eventsAll nonFatal) m -> haltsAtFatal m.
Proof. intros Hm v. left. now apply eventsAll_emitted. Qed.

Lemma halts_bind {A B} (m : M A) (k : A -> M B) :
  haltsAtFatal m -> (forall a, haltsAtFatal (k a)) -> haltsAtFatal (bind m k).
Proof.
  intros Hm Hk v. unfold bind.
  destruct (Hm v) as [Hall|(pre & ev & err & Heq & Hpre & Hev & Hc)].
  - destruct (completion (m v)) as [a|e|]; cbn [completion emitted]; [|now left..].
    destruct (Hk a (sshHelper (m v))) as [Hall'|(pre & ev & err & Heq & Hpre & Hev & Hc)].
    + left. apply Forall_app. now split.
    + right. exists (emitted (m v) ++ pre), ev, err. rewrite Heq, app_assoc.
      split; [reflexivity|]. split; [|now split]. apply Forall_app. now split.
  - rewrite Hc. cbn [completion emitted]. right. exists pre, ev, err. auto.
Qed.

Ltac halts_here :=
  first
    [ solve [left; repeat constructor]
    | solve [right;
             (exists [] + eexists [_] + eexists [_; _] + eexists [_; _; _]);
             do 2 eexists; split; [reflexivity|]; repeat constructor] ].

Lemma newSshHelper_halts sshConfig : haltsAtFatal (newSshHelper sshConfig).
Proof.
  intros v. unfold newSshHelper, bind, emit, throw, setSshHelper. simpl.
  destruct (ssh_new sshConfig); simpl; halts_here.
Qed.

Lemma setupConnection_halts : haltsAtFatal (await_ setupConnection ssh_setupConnection).
Proof.
  intros v. unfold await_, bind, emit, throw, ret. simpl.
  destruct ssh_setupConnection; simpl; halts_here.
Qed.

Lemma cleanTarget_halts cleanTargetFolder targetFolder :
  haltsAtFatal (cleanTarget cleanTargetFolder targetFolder).
Proof.
  intros v. unfold cleanTarget, await, await_, try_catch, bind, emit, liftExc, throw, ret.
  destruct cleanTargetFolder; simpl; [|halts_here].
  destruct (ssh_checkRemotePathExists targetFolder) as [e|[|]]; simpl; try halts_here.
  destruct (tl_getBoolInput "isWindowsOnTarget" false) as [e|w]; simpl; try halts_here.
  destruct (tl_getBoolInput "cleanHiddenFilesInTarget" false) as [e|h]; simpl;
    try halts_here.
  destruct (ssh_runCommandOnRemoteMachine _); simpl; halts_here.
Qed.

Lemma copyDirectory_halts sourceFolder targetFolder :
  haltsAtFatal (copyDirectory sourceFolder targetFolder).
Proof.
  intros v. unfold copyDirectory, await, try_catch, bind, emit, liftExc, throw, ret.
  simpl. destruct (ssh_uploadFolder sourceFolder targetFolder); simpl; halts_here.
Qed.

Lemma folderEvents_halts folderStructure :
  match firstRefused folderStructure with
  | Some (d, e) =>
      exists pre,
        folderEvents folderStructure = pre ++ [Step (createRemoteDirectory d (Some e))]
        /\ Forall (fun ev => nonFatal ev = true) pre
  | None => Forall (fun ev => nonFatal ev = true) (folderEvents folderStructure)
  end.
Proof.
  induction folderStructure as [|x rest IH]; simpl; [constructor|].
  destruct (ssh_createRemoteDirectory x) as [e|]; [now exists []|].
  destruct (firstRefused rest) as [[d e]|].
  - destruct IH as (pre & -> & Hpre). eexists (_ :: _ :: pre).
    split; [reflexivity|]. now repeat constructor.
  - now repeat constructor.
Qed.

Lemma copyFiles_halts sourceFolder targetFolder contents overwrite failOnEmptySource
    flattenFolders :
  haltsAtFatal (copyFiles sourceFolder targetFolder contents overwrite failOnEmptySource
                  flattenFolders).
Proof.
  intros v. rewrite copyFiles_unfold.
  destruct (getFilesToCopy sourceFolder contents) as [err|files]; [left; constructor|].
  clear contents. rename files into contents.
  rewrite copySelected_eq. cbn [completion emitted].
  pose proof (folderEvents_halts
                (foldersOf sourceFolder targetFolder contents flattenFolders)) as Hf.
  destruct (firstRefused _) as [[d e]|].
  - destruct Hf as (pre & -> & Hpre). right.
    exists (copyHeader (preparedOf sourceFolder targetFolder contents flattenFolders)
            ++ pre), (Step (createRemoteDirectory d (Some e))). eexists.
    rewrite app_nil_r, app_assoc. split; [reflexivity|].
    split; [|now split]. apply Forall_app. split; [now repeat constructor | assumption].
  - left. apply Forall_app. split; [now repeat constructor|].
    apply Forall_app. split; [assumption|]. constructor; [reflexivity|].
    apply uploadFiles_eventsAll; [intros op Hop; now destruct op | reflexivity].
Qed.

Lemma runBody_halts : haltsAtFatal runBody.
Proof.
  unfold runBody.
  repeat (first
    [ apply newSshHelper_halts
    | apply setupConnection_halts
    | apply cleanTarget_halts
    | apply copyDirectory_halts
    | apply copyFiles_halts
    | apply halts_bind; [|intros ?]
    | apply halts_pre; unfold readSshConfig, getReadyTimeoutVariable;
      solve [repeat (first [preserves_step | reflexivity])]
    | match goal with
      | |- haltsAtFatal (match ?x with _ => _ end) => destruct x
      end ]).
Qed.

(** X9. When the constructor of the helper, the connection setup, the
    check of the target folder, the cleaning command, the upload of the
    whole folder or the creation of a folder fails, nothing more is
    attempted: the next event is the failure report, with the rejection or
    the message made of it, and after it the run only closes the
    connection.  A run has at most one such failed call. *)
Theorem failed_call_ends_the_run :
  Forall (fun ev => nonFatal ev = true) (emitted runTask)
  \/ exists pre ev err closing,
       emitted runTask = pre ++ [ev; Step (tl_setResult Failed err)] ++ closing
       /\ Forall (fun ev => nonFatal ev = true) pre
       /\ fatalError ev = Some err
       /\ (closing = []
           \/ closing = [Step (tl_debug (VStr "Closing the client connection"));
                         Step (closeConnection ssh_closeConnection)]).
Proof.
  rewrite runTask_emitted.
  assert (Hfin : forall s, Forall (fun ev => nonFatal ev = true) (finallyEvents s)).
  { intros [h|]; simpl; repeat constructor. }
  destruct (runBody_halts None) as [Hall|(pre & ev & err & Heq & Hpre & Hev & Hc)].
  - left. apply Forall_app. split; [assumption|]. apply Forall_app. split; [|apply Hfin].
    unfold catchEvents. destruct (completion (runBody None)); repeat constructor.
  - right. exists pre, ev, err, (finallyEvents (sshHelper (runBody None))).
    unfold catchEvents. rewrite Heq, Hc, <- app_assoc. split; [reflexivity|].
    split; [assumption|]. split; [assumption|].
    unfold finallyEvents. destruct (sshHelper (runBody None)); auto.
Qed.

(** ** The inputs behind a run *)

(** [o] after the events [events]. *)
Definition prepend {A} (events : list Event) (o : Outcome A) : Outcome A :=
  {| completion := completion o; sshHelper := sshHelper o;
     emitted := events ++ emitted o |}.

Lemma bind_emit {A} op (k : unit -> M A) v :
  bind (emit op) k v = prepend [Step op] (k tt v).
Proof. reflexivity. Qed.

Lemma bind_unfold {A B} (m : M A) (k : A -> M B) v :
  bind m k v
  = match completion (m v) with
    | Normal a => prepend (emitted (m v)) (k a (sshHelper (m v)))
    | Throw e => {| completion := Throw e; sshHelper := sshHelper (m v);
                    emitted := emitted (m v) |}
    | Return => {| completion := Return; sshHelper := sshHelper (m v);
                   emitted := emitted (m v) |}
    end.
Proof. reflexivity. Qed.

Lemma bind_liftExc {A B} (r : Exc A) (k : A -> M B) v :
  bind (liftExc r) k v = match r with inl e => throw e v | inr a => k a v end.
Proof.
  destruct r as [e|a]; unfold bind; simpl; [reflexivity | now destruct (k a v)].
Qed.

Lemma bind_guard {A} (b : bool) e (k : unit -> M A) v :
  bind (if b then throw e else ret tt) k v = if b then throw e v else k tt v.
Proof. destruct b; unfold bind; simpl; [reflexivity | now destruct (k tt v)]. Qed.

(** [m] leaves the variable [sshHelper] as it is and has no [return]. *)
Definition quiet {A} (m : M A) : Prop :=
  forall v, sshHelper (m v) = v /\ completion (m v) <> Return.

Lemma quiet_ret {A} (a : A) : quiet (ret a).
Proof. intros v. now split. Qed.

Lemma quiet_throw {A} e : quiet (@throw A e).
Proof. intros v. now split. Qed.

Lemma quiet_emit op : quiet (emit op).
Proof. intros v. now split. Qed.

Lemma quiet_liftExc {A} (r : Exc A) : quiet (liftExc r).
Proof. destruct r; [apply quiet_throw | apply quiet_ret]. Qed.

Lemma quiet_bind {A B} (m : M A) (k : A -> M B) :
  quiet m -> (forall a, quiet (k a)) -> quiet (bind m k).
Proof.
  intros Hm Hk v. unfold bind. destruct (Hm v) as [Hv Hr].
  destruct (completion (m v)) as [a|e|]; cbn [completion sshHelper].
  - rewrite Hv. apply Hk.
  - now split.
  - contradiction.
Qed.

Ltac quiet_step :=
  lazymatch goal with
  | |- quiet (bind _ _) => apply quiet_bind; [|intros ?]
  | |- quiet (ret _) => apply quiet_ret
  | |- quiet (throw _) => apply quiet_throw
  | |- quiet (emit _) => apply quiet_emit
  | |- quiet (liftExc _) => apply quiet_liftExc
  | |- quiet (if ?b then _ else _) => destruct b
  end.

Lemma readSshConfig_quiet : quiet readSshConfig.
Proof. unfold readSshConfig, getReadyTimeoutVariable. repeat quiet_step. Qed.

(** A line of the log. *)
Definition isLogEv (ev : Event) : bool :=
  match ev with
  | Step (tl_setResourcePath _) | Step (tl_debug _) | Step (console_log _) => true
  | _ => false
  end.

Lemma readSshConfig_logs v :
  Forall (fun ev => isLogEv ev = true) (emitted (readSshConfig v)).
Proof.
  apply eventsAll_emitted. unfold readSshConfig, getReadyTimeoutVariable.
  repeat (first [preserves_step | reflexivity]).
Qed.

(** The target folder that [run] makes of the input [targetFolder]. *)
Definition targetOf (targetFolder : option string) : string :=
  if negb (truthy targetFolder) then "./"
  else JsString.replaceHomePrefix (js_str targetFolder).

(** The last statement of the [try] block of [run]: the upload of the whole
    folder for the one pattern ["**"], the copy of the selected files
    otherwise. *)
Definition transfer (sourceFolder targetFolder : string) (contents : list string)
    (overwrite failOnEmptySource flattenFolders : bool) : M unit :=
  match contents with
  | [only] =>
      if String.eqb only "**"
      then copyDirectory sourceFolder targetFolder
      else copyFiles sourceFolder targetFolder contents overwrite failOnEmptySource
             flattenFolders
  | _ => copyFiles sourceFolder targetFolder contents overwrite failOnEmptySource
           flattenFolders
  end.

(** The [try] block of [run] from the construction of the helper on. *)
Definition session (sshConfig : Value) (cleanTargetFolder : bool)
    (sourceFolder targetFolder : string) (contents : list string)
    (overwrite failOnEmptySource flattenFolders : bool) : M unit :=
  (newSshHelper sshConfig ;;;
   await_ setupConnection ssh_setupConnection ;;;
   cleanTarget cleanTargetFolder targetFolder ;;;
   transfer sourceFolder targetFolder contents overwrite failOnEmptySource
     flattenFolders)%M.

(** The inputs of the task, as [run] reads them. *)
Definition inputsRead (contents : list string) (sourceFolder targetFolder : option string)
    (cleanTargetFolder overwrite failOnEmptySource flattenFolders : bool) : Prop :=
  tl_getDelimitedInput "contents" LF true = inr contents
  /\ tl_getPathInput "sourceFolder" true true = inr sourceFolder
  /\ tl_getInput "targetFolder" false = inr targetFolder
  /\ tl_getBoolInput "cleanTargetFolder" false = inr cleanTargetFolder
  /\ tl_getBoolInput "overwrite" false = inr overwrite
  /\ tl_getBoolInput "failOnEmptySource" false = inr failOnEmptySource
  /\ tl_getBoolInput "flattenFolders" false = inr flattenFolders.

(** The [try] block of [run] either stops while it reads the inputs, having
    only logged, or it has read every input, found the source folder to be
    a directory, and goes on with the session. *)
Lemma runBody_anatomy v :
  (Forall (fun ev => isLogEv ev = true) (emitted (runBody v))
   /\ sshHelper (runBody v) = v
   /\ exists e, completion (runBody v) = Throw e)
  \/ exists logs sshConfig contents sourceFolder targetFolder cleanTargetFolder
            overwrite failOnEmptySource flattenFolders,
       inputsRead contents sourceFolder targetFolder cleanTargetFolder overwrite
         failOnEmptySource flattenFolders
       /\ tl_stats_isDirectory (js_str sourceFolder) = true
       /\ Forall (fun ev => isLogEv ev = true) logs
       /\ runBody v
          = prepend logs
              (session sshConfig cleanTargetFolder (js_str sourceFolder)
                 (targetOf targetFolder) contents overwrite failOnEmptySource
                 flattenFolders v).
Proof.
  unfold runBody. rewrite bind_emit, (bind_unfold readSshConfig).
  destruct (readSshConfig_quiet v) as [Hv Hr]. pose proof (readSshConfig_logs v) as Hl.
  rewrite Hv.
  assert (Hstop : forall e,
             Forall (fun ev => isLogEv ev = true)
               (emitted (prepend [Step (tl_setResourcePath (path_join dirname__ "task.json"))]
                           (prepend (emitted (readSshConfig v)) (@throw unit e v))))).
  { intros e. simpl. rewrite app_nil_r. now constructor. }
  destruct (completion (readSshConfig v)) as [sshConfig|e|]; [| |contradiction].
  2:{ left. simpl. split; [now constructor|]. split; [reflexivity | eauto]. }
  rewrite bind_liftExc.
  destruct (tl_getDelimitedInput "contents" LF true) as [e|contents] eqn:E1;
    [left; split; [apply Hstop | split; [reflexivity | now exists e]]|].
  rewrite bind_liftExc.
  destruct (tl_getPathInput "sourceFolder" true true) as [e|sourceFolder] eqn:E2;
    [left; split; [apply Hstop | split; [reflexivity | now exists e]]|].
  rewrite bind_liftExc.
  destruct (tl_getInput "targetFolder" false) as [e|targetFolder] eqn:E3;
    [left; split; [apply Hstop | split; [reflexivity | now exists e]]|].
  rewrite bind_liftExc.
  destruct (tl_getBoolInput "cleanTargetFolder" false) as [e|cleanTargetFolder] eqn:E4;
    [left; split; [apply Hstop | split; [reflexivity | now exists e]]|].
  rewrite bind_liftExc.
  destruct (tl_getBoolInput "overwrite" false) as [e|overwrite] eqn:E5;
    [left; split; [apply Hstop | split; [reflexivity | now exists e]]|].
  rewrite bind_liftExc.
  destruct (tl_getBoolInput "failOnEmptySource" false) as [e|failOnEmptySource] eqn:E6;
    [left; split; [apply Hstop | split; [reflexivity | now exists e]]|].
  rewrite bind_liftExc.
  destruct (tl_getBoolInput "flattenFolders" false) as [e|flattenFolders] eqn:E7;
    [left; split; [apply Hstop | split; [reflexivity | now exists e]]|].
  rewrite bind_guard.
  destruct (tl_stats_isDirectory (js_str sourceFolder)) eqn:E8; cbn [negb];
    [|left; split; [apply Hstop | split; [reflexivity | eauto]]].
  right.
  exists (Step (tl_setResourcePath (path_join dirname__ "task.json"))
          :: emitted (readSshConfig v)),
    sshConfig, contents, sourceFolder, targetFolder, cleanTargetFolder, overwrite,
    failOnEmptySource, flattenFolders.
  split; [repeat split; assumption|]. split; [assumption|].
  split; [now constructor|]. unfold prepend. cbn [completion sshHelper emitted].
  now rewrite app_assoc.
Qed.

Lemma transfer_cases sourceFolder targetFolder contents overwrite failOnEmptySource
    flattenFolders :
  (contents = ["**"]
   /\ transfer sourceFolder targetFolder contents overwrite failOnEmptySource
        flattenFolders
      = copyDirectory sourceFolder targetFolder)
  \/ (contents <> ["**"]
      /\ transfer sourceFolder targetFolder contents overwrite failOnEmptySource
           flattenFolders
         = copyFiles sourceFolder targetFolder contents overwrite failOnEmptySource
             flattenFolders).
Proof.
  destruct contents as [|only [|other rest]]; simpl; [now right | | now right].
  destruct (String.eqb_spec only "**") as [->|Hne]; [now left|].
  right. split; [|reflexivity]. intros [= ->]. now apply Hne.
Qed.

Lemma In_bind {A B} ev (m : M A) (k : A -> M B) v :
  In ev (emitted (bind m k v)) ->
  In ev (emitted (m v)) \/ exists a, In ev (emitted (k a (sshHelper (m v)))).
Proof.
  unfold bind. destruct (completion (m v)) as [a|e|]; cbn [emitted]; auto.
  rewrite in_app_iff. intros [Hin|Hin]; eauto.
Qed.

Lemma In_eventsAll (P : Event -> bool) {A} (m : M A) v ev :
  preserves (eventsAll P) m -> In ev (emitted (m v)) -> P ev = true.
Proof.
  intros Hm Hin. pose proof (eventsAll_emitted P m v Hm) as Hall.
  rewrite List.Forall_forall in Hall. auto.
Qed.

(** The events of the [catch] and [finally] blocks. *)
Definition isEndEv (ev : Event) : bool :=
  match ev with
  | Step (tl_setResult _ _) | Step (tl_debug _) | Step (closeConnection _) => true
  | _ => false
  end.

Lemma end_events (o : Outcome unit) s ev :
  In ev (catchEvents o ++ finallyEvents s) -> isEndEv ev = true.
Proof.
  unfold catchEvents, finallyEvents. rewrite in_app_iff.
  destruct (completion o), s; simpl; intuition (subst; reflexivity).
Qed.

Lemma session_events sshConfig cleanTargetFolder sourceFolder targetFolder contents
    overwrite failOnEmptySource flattenFolders v ev :
  In ev (emitted (session sshConfig cleanTargetFolder sourceFolder targetFolder contents
                    overwrite failOnEmptySource flattenFolders v)) ->
  ev = Step (new_SshHelper sshConfig (ssh_new sshConfig))
  \/ ev = Step (setupConnection ssh_setupConnection)
  \/ (exists v', In ev (emitted (cleanTarget cleanTargetFolder targetFolder v')))
  \/ (exists v', In ev (emitted (transfer sourceFolder targetFolder contents overwrite
                                   failOnEmptySource flattenFolders v'))).
Proof.
  unfold session. intros Hin.
  apply In_bind in Hin as [Hin|[_ Hin]].
  { left. unfold newSshHelper, bind, emit in Hin.
    destruct (ssh_new sshConfig); simpl in Hin; intuition. }
  apply In_bind in Hin as [Hin|[_ Hin]].
  { right. left. unfold await_, bind, emit in Hin.
    destruct ssh_setupConnection; simpl in Hin; intuition. }
  apply In_bind in Hin as [Hin|[_ Hin]]; eauto 6.
Qed.

(** An event of a run is a line of the log, an event of the [catch] and
    [finally] blocks, or an event of the session that follows the reading
    of the inputs. *)
Lemma runTask_events ev :
  In ev (emitted runTask) ->
  isLogEv ev = true \/ isEndEv ev = true
  \/ exists sshConfig contents sourceFolder targetFolder cleanTargetFolder overwrite
            failOnEmptySource flattenFolders,
       inputsRead contents sourceFolder targetFolder cleanTargetFolder overwrite
         failOnEmptySource flattenFolders
       /\ tl_stats_isDirectory (js_str sourceFolder) = true
       /\ In ev (emitted (session sshConfig cleanTargetFolder (js_str sourceFolder)
                            (targetOf targetFolder) contents overwrite failOnEmptySource
                            flattenFolders None)).
Proof.
  rewrite runTask_emitted, in_app_iff. intros [Hin|Hin].
  2:{ right. left. now apply end_events in Hin. }
  destruct (runBody_anatomy None)
    as [(Hlogs & _)
       |(logs & sshConfig & contents & sourceFolder & targetFolder & cleanTargetFolder
         & overwrite & failOnEmptySource & flattenFolders & Hread & Hdir & Hlogs & Heq)].
  - left. rewrite List.Forall_forall in Hlogs. auto.
  - rewrite Heq in Hin. cbn [prepend emitted] in Hin. apply in_app_iff in Hin as [Hin|Hin].
    + left. rewrite List.Forall_forall in Hlogs. auto.
    + right. right. eauto 12.
Qed.

Lemma copyFiles_eventsAll (P : Event -> bool) sourceFolder targetFolder contents
    overwrite failOnEmptySource flattenFolders :
  allows (eventsAll P) isFolderOp ->
  allows (eventsAll P) isReportOp ->
  (forall chunk,
     P (AllSettled (map (fun pathTuple => settle (uploadTask overwrite pathTuple)) chunk))
     = true) ->
  preserves (eventsAll P)
    (copyFiles sourceFolder targetFolder contents overwrite failOnEmptySource
       flattenFolders).
Proof.
  intros Hf Hr Hb. unfold copyFiles, copySelected, array_truthy.
  repeat (first [ now apply uploadFiles_preserves | now apply createFolders_preserves
                | preserves_step | apply Hr; reflexivity ]).
Qed.

(** ** A source that is not a folder *)

(** X10. When the source folder is not a directory, the run only logs and
    then reports a failure as its last event: it constructs no helper,
    makes no call to the remote and has no connection to close. *)
Theorem source_must_be_a_folder (sourceFolder : option string) :
  tl_getPathInput "sourceFolder" true true = inr sourceFolder ->
  tl_stats_isDirectory (js_str sourceFolder) = false ->
  exists logs e,
    emitted runTask = logs ++ [Step (tl_setResult Failed e)]
    /\ Forall (fun ev => isLogEv ev = true) logs.
Proof.
  intros Hsrc Hdir. rewrite runTask_emitted.
  destruct (runBody_anatomy None)
    as [(Hlogs & Hv & e & Hc)
       |(logs & sshConfig & contents & sourceFolder' & targetFolder & cleanTargetFolder
         & overwrite & failOnEmptySource & flattenFolders & Hread & Hdir' & _)].
  - exists (emitted (runBody None)), e. unfold catchEvents. rewrite Hc, Hv. simpl.
    split; [reflexivity | assumption].
  - destruct Hread as (_ & Hsrc' & _). rewrite Hsrc in Hsrc'. injection Hsrc' as <-.
    congruence.
Qed.

(** ** The upload of the whole folder *)

Definition isUploadFolder (op : Op) : bool :=
  match op with uploadFolder _ _ _ => true | _ => false end.

Lemma copyDirectory_upload sourceFolder targetFolder v s t r :
  In (Step (uploadFolder s t r)) (emitted (copyDirectory sourceFolder targetFolder v)) ->
  s = sourceFolder /\ t = targetFolder /\ r = ssh_uploadFolder sourceFolder targetFolder.
Proof.
  unfold copyDirectory, await, try_catch, bind, emit, liftExc, throw, ret. simpl.
  destruct (ssh_uploadFolder sourceFolder targetFolder) as [e|done] eqn:E; simpl;
    intros Hin; repeat (destruct Hin as [Hin|Hin]; try discriminate);
    try contradiction; injection Hin as <- <- <-; auto.
Qed.

(** X11. The whole source folder is uploaded in one call only when the
    patterns are the one pattern ["**"], and then it is the source folder
    as read that goes to the target folder made of the input. *)
Theorem whole_folder_upload_needs_wildcard (s t : string) (r : Exc Value) :
  In (Step (uploadFolder s t r)) (emitted runTask) ->
  tl_getDelimitedInput "contents" LF true = inr ["**"]
  /\ exists sourceFolder targetFolder,
       tl_getPathInput "sourceFolder" true true = inr sourceFolder
       /\ tl_getInput "targetFolder" false = inr targetFolder
       /\ s = js_str sourceFolder /\ t = targetOf targetFolder
       /\ r = ssh_uploadFolder s t.
Proof.
  intros Hin. apply runTask_events in Hin as [Hin|[Hin|Hin]]; try discriminate.
  destruct Hin as (sshConfig & contents & sourceFolder & targetFolder & cleanTargetFolder
                   & overwrite & failOnEmptySource & flattenFolders & Hread & Hdir & Hin).
  destruct Hread as (Hc & Hs & Ht & _).
  apply session_events in Hin as [Hin|[Hin|[[v' Hin]|[v' Hin]]]]; try discriminate.
  - apply (In_eventsAll (without isUploadFolder)) in Hin; [discriminate|].
    unfold cleanTarget. repeat (first [preserves_step | reflexivity]).
  - destruct (transfer_cases (js_str sourceFolder) (targetOf targetFolder) contents
                overwrite failOnEmptySource flattenFolders) as [[-> Heq]|[_ Heq]];
      rewrite Heq in Hin.
    + apply copyDirectory_upload in Hin as (-> & -> & ->).
      split; [assumption|]. exists sourceFolder, targetFolder. auto.
    + apply (In_eventsAll (without isUploadFolder)) in Hin; [discriminate|].
      apply copyFiles_eventsAll; try (intros op Hop; now destruct op).
      intros chunk. apply batch_without. intros op Hop. now destruct op.
Qed.

(** A step that neither creates a folder nor uploads a file, outside a
    batch. *)
Definition noFileEv (ev : Event) : bool :=
  cleanEv ev && without isCreateDirectory ev.

(** X12. For the one pattern ["**"] the run handles no single file: it
    creates no folder, dispatches no batch and uploads no file. *)
Theorem wildcard_copies_no_single_file :
  tl_getDelimitedInput "contents" LF true = inr ["**"] ->
  createdFolders (emitted runTask) = []
  /\ batchesOf (emitted runTask) = []
  /\ List.filter isUploadFile (opsOf (emitted runTask)) = [].
Proof.
  intros Hc.
  assert (Hall : Forall (fun ev => noFileEv ev = true) (emitted runTask)).
  { apply List.Forall_forall. intros ev Hin.
    apply runTask_events in Hin as [Hin|[Hin|Hin]].
    - destruct ev as [[]| |]; try discriminate; reflexivity.
    - destruct ev as [[]| |]; try discriminate; reflexivity.
    - destruct Hin as (sshConfig & contents & sourceFolder & targetFolder
                       & cleanTargetFolder & overwrite & failOnEmptySource
                       & flattenFolders & Hread & Hdir & Hin).
      destruct Hread as (Hc' & _). rewrite Hc in Hc'. injection Hc' as <-.
      apply (In_eventsAll noFileEv) in Hin; [assumption|].
      unfold session, newSshHelper, cleanTarget, transfer, copyDirectory. simpl.
      repeat (first [preserves_step | reflexivity]). }
  split.
  - apply createdFolders_none. eapply List.Forall_impl; [|exact Hall].
    intros ev Hev. unfold noFileEv in Hev. now apply andb_prop in Hev.
  - apply and_comm. apply cleanEv_no_upload. eapply List.Forall_impl; [|exact Hall].
    intros ev Hev. unfold noFileEv in Hev. now apply andb_prop in Hev.
Qed.

(** ** The cleaning of the target folder *)

Definition isRunCommand (op : Op) : bool :=
  match op with runCommandOnRemoteMachine _ _ => true | _ => false end.

Lemma cleanTarget_command cleanTargetFolder targetFolder v c r :
  In (Step (runCommandOnRemoteMachine c r))
     (emitted (cleanTarget cleanTargetFolder targetFolder v)) ->
  cleanTargetFolder = true
  /\ ssh_checkRemotePathExists targetFolder = inr true
  /\ exists w h, c = utils_getCleanTargetFolderCmd targetFolder w h.
Proof.
  unfold cleanTarget, await, await_, try_catch, bind, emit, liftExc, throw, ret.
  destruct cleanTargetFolder; simpl; [|intros []].
  destruct (ssh_checkRemotePathExists targetFolder) as [e|[|]]; simpl;
    try (intros Hin; repeat (destruct Hin as [Hin|Hin]; try discriminate);
         contradiction).
  destruct (tl_getBoolInput "isWindowsOnTarget" false) as [e|w]; simpl;
    try (intros Hin; repeat (destruct Hin as [Hin|Hin]; try discriminate);
         contradiction).
  destruct (tl_getBoolInput "cleanHiddenFilesInTarget" false) as [e|h]; simpl;
    try (intros Hin; repeat (destruct Hin as [Hin|Hin]; try discriminate);
         contradiction).
  destruct (ssh_runCommandOnRemoteMachine _); simpl;
    intros Hin; repeat (destruct Hin as [Hin|Hin]; try discriminate);
    try contradiction; injection Hin as <- _; eauto.
Qed.

(** X13. A command runs on the remote only to clean the target folder:
    only when the input [cleanTargetFolder] is set and the remote has
    answered that the target folder exists, and the command is the
    cleaning command for that folder. *)
Theorem command_runs_only_to_clean (c : string) (r : option Value) :
  In (Step (runCommandOnRemoteMachine c r)) (emitted runTask) ->
  tl_getBoolInput "cleanTargetFolder" false = inr true
  /\ exists targetFolder w h,
       tl_getInput "targetFolder" false = inr targetFolder
       /\ ssh_checkRemotePathExists (targetOf targetFolder) = inr true
       /\ c = utils_getCleanTargetFolderCmd (targetOf targetFolder) w h.
Proof.
  intros Hin. apply runTask_events in Hin as [Hin|[Hin|Hin]]; try discriminate.
  destruct Hin as (sshConfig & contents & sourceFolder & targetFolder & cleanTargetFolder
                   & overwrite & failOnEmptySource & flattenFolders & Hread & Hdir & Hin).
  destruct Hread as (_ & _ & Ht & Hclean & _).
  apply session_events in Hin as [Hin|[Hin|[[v' Hin]|[v' Hin]]]]; try discriminate.
  - apply cleanTarget_command in Hin as (-> & Hex & w & h & ->).
    split; [assumption|]. exists targetFolder, w, h. auto.
  - assert (Hno : without isRunCommand (Step (runCommandOnRemoteMachine c r)) = true);
      [|discriminate].
    apply (In_eventsAll (without isRunCommand)) in Hin; [assumption|].
    destruct (transfer_cases (js_str sourceFolder) (targetOf targetFolder) contents
                overwrite failOnEmptySource flattenFolders) as [[_ ->]|[_ ->]].
    + unfold copyDirectory. repeat (first [preserves_step | reflexivity]).
    + apply copyFiles_eventsAll; try (intros op Hop; now destruct op).
      intros chunk. apply batch_without. intros op Hop. now destruct op.
Qed.

End RunShape.

(** * Further properties of the single-burst variant *)

Section SingleBurstMore.

Context `{NodePath} `{Minimatch} `{Host} `{SshHelper} `{TaskLib}.


End SingleBurstMore.

(** * The connection configuration *)

(** The value of the field [name] of an object. *)
Definition fieldOf (name : string) (o : Value) : option Value :=
  match o with
  | VObj fields =>
      option_map snd (List.find (fun field => String.eqb (fst field) name) fields)
  | _ => None
  end.

Section ConfigFacts.

Context `{TaskLib}.

(** X16. The connection configuration always names a port that is not
    empty, and it has the fields of one way to authenticate: a private key
    that is not empty together with a passphrase and no password, or a
    password and neither private key nor passphrase. *)
Theorem config_has_port_and_one_credential (v : option SshHandle) (sshConfig : Value) :
  completion (readSshConfig v) = Normal sshConfig ->
  (exists port, fieldOf "port" sshConfig = Some (VStr port) /\ port <> "")
  /\ match fieldOf "privateKey" sshConfig with
     | Some key =>
         (exists k, key = VStr k /\ k <> "")
         /\ fieldOf "password" sshConfig = None
         /\ fieldOf "passphrase" sshConfig <> None
     | None =>
         fieldOf "password" sshConfig <> None
         /\ fieldOf "passphrase" sshConfig = None
     end.
Proof.
  unfold readSshConfig, getReadyTimeoutVariable.
  repeat (rewrite bind_liftExc;
          match goal with
          | |- context [match ?r with inl _ => _ | inr _ => _ end] =>
              destruct r as [e|?]; [discriminate|]
          end).
  unfold bind, emit, ret, liftExc, throw.
  destruct (tl_getInput "readyTimeout" true) as [e|readyTimeoutString];
    [destruct (truthy o3); discriminate|].
  destruct (process_env ("ENDPOINT_DATA_" +:+ js_str o +:+ "_PRIVATEKEY"))
    as [[|c key]|], o3 as [[|d port]|]; simpl; intros [= <-]; simpl;
    repeat match goal with
           | |- _ /\ _ => split
           | |- exists _, _ => eexists
           | |- _ = _ => reflexivity
           | |- _ <> _ => discriminate
           end.
Qed.

End ConfigFacts.

(** * A remote that accepts everything *)








Section AcceptingRemote.

Context `{NodePath} `{Minimatch} `{Host} `{SshHelper} `{TaskLib}.

Hypothesis folders_accepted : forall d, ssh_createRemoteDirectory d = None.
Hypothesis uploads_accepted : forall f t, exists r, ssh_uploadFile f t = inr r.

Variable overwrite : bool.
Hypothesis nothing_in_the_way :
  overwrite = true \/ forall p, ssh_checkRemotePathExists p = inr false.






End AcceptingRemote.

(** * Remote work follows the connection setup *)

(** A call that works on the remote file system, or a batch of uploads. *)
Definition isRemoteWork (ev : Event) : bool :=
  match ev with
  | Step (checkRemotePathExists _ _) | Step (runCommandOnRemoteMachine _ _)
  | Step (uploadFolder _ _ _) | Step (createRemoteDirectory _ _)
  | Step (uploadFile _ _ _) | AllSettled _ | Detached _ => true
  | _ => false
  end.

Section SetupFirst.

Context `{NodePath} `{Minimatch} `{Host} `{SshHelper} `{TaskLib}.

Lemma newSshHelper_eq sshConfig v :
  newSshHelper sshConfig v
  = match ssh_new sshConfig with
    | Some e => {| completion := Throw e; sshHelper := v;
                   emitted := [Step (new_SshHelper sshConfig (Some e))] |}
    | None => {| completion := Normal tt; sshHelper := Some (TheSshHelper sshConfig);
                 emitted := [Step (new_SshHelper sshConfig None)] |}
    end.
Proof. unfold newSshHelper, bind, emit. simpl. now destruct (ssh_new sshConfig). Qed.

Lemma setupConnection_eq v :
  await_ setupConnection ssh_setupConnection v
  = match ssh_setupConnection with
    | Some e => {| completion := Throw e; sshHelper := v;
                   emitted := [Step (setupConnection (Some e))] |}
    | None => {| completion := Normal tt; sshHelper := v;
                 emitted := [Step (setupConnection None)] |}
    end.
Proof. unfold await_, bind, emit. simpl. now destruct ssh_setupConnection. Qed.

(** X19. A run does no work on the remote file system before the
    connection is set up: either it never checks a path, runs a command,
    creates a folder or uploads anything, or its trace begins with lines of
    the log followed by the construction of the helper and the setup of
    the connection, both successful. *)
Theorem remote_work_follows_the_setup :
  Forall (fun ev => isRemoteWork ev = false) (emitted runTask)
  \/ exists logs sshConfig rest,
       emitted runTask
       = logs ++ [Step (new_SshHelper sshConfig None); Step (setupConnection None)]
         ++ rest
       /\ Forall (fun ev => isLogEv ev = true) logs.
Proof.
  rewrite runTask_emitted.
  assert (Hlog : forall l, Forall (fun ev => isLogEv ev = true) l ->
                           Forall (fun ev => isRemoteWork ev = false) l).
  { intros l. apply List.Forall_impl. intros [[]| |]; simpl; congruence. }
  assert (Hend : forall (o : Outcome unit) s,
             Forall (fun ev => isRemoteWork ev = false)
               (catchEvents o ++ finallyEvents s)).
  { intros o s. apply List.Forall_forall. intros ev Hin. apply end_events in Hin.
    destruct ev as [[]| |]; simpl in *; congruence. }
  destruct (runBody_anatomy None)
    as [(Hlogs & _)
       |(logs & sshConfig & contents & sourceFolder & targetFolder & cleanTargetFolder
         & overwrite & failOnEmptySource & flattenFolders & _ & _ & Hlogs & Heq)].
  { left. apply Forall_app. split; [now apply Hlog | apply Hend]. }
  rewrite Heq. unfold session.
  rewrite (bind_unfold (newSshHelper sshConfig)), newSshHelper_eq.
  destruct (ssh_new sshConfig) as [e|]; cbn [completion sshHelper emitted prepend].
  { left. apply Forall_app. split; [|apply Hend].
    apply Forall_app. split; [now apply Hlog | now repeat constructor]. }
  rewrite (bind_unfold (await_ setupConnection ssh_setupConnection)), setupConnection_eq.
  destruct ssh_setupConnection as [e|]; cbn [completion sshHelper emitted prepend].
  { left. apply Forall_app. split; [|apply Hend].
    apply Forall_app. split; [now apply Hlog | now repeat constructor]. }
  right. eexists logs, sshConfig, _. split; [|assumption].
  rewrite <- !app_assoc. cbn [app]. reflexivity.
Qed.

End SetupFirst.

(** * Closed runs for the further properties *)

Lemma trailing_exclude_narrows_witness :
  ["**/*"] <> []
  /\ isNegated (JsString.trim " !**/*.log") = true
  /\ getFilesToCopy "/src" ["**/*"]
     = inr ["/src/a.txt"; "/src/b.log"; "/src/sub/c.log"]
  /\ getFilesToCopy "/src" (["**/*"] ++ [" !**/*.log"])
     = inr (minimatch_match ["/src/a.txt"; "/src/b.log"; "/src/sub/c.log"]
              (anchorExclude "/src" (JsString.trim " !**/*.log")) matchOptions)
  /\ getFilesToCopy "/src" (["**/*"] ++ [" !**/*.log"]) = inr ["/src/a.txt"].
Proof.
  assert (Hne : ["**/*"] <> @nil string) by discriminate.
  assert (Hneg : isNegated (JsString.trim " !**/*.log") = true) by reflexivity.
  assert (E : getFilesToCopy "/src" ["**/*"]
              = inr ["/src/a.txt"; "/src/b.log"; "/src/sub/c.log"])
    by (vm_compute; reflexivity).
  split; [exact Hne|]. split; [exact Hneg|]. split; [exact E|].
  split; [|vm_compute; reflexivity].
  assert (Hw := trailing_exclude_narrows "/src" ["**/*"] " !**/*.log" Hne Hneg).
  rewrite E in Hw. exact (proj1 Hw).
Defined.

(** A run whose source is a file of the tree. *)
Lemma source_must_be_a_folder_witness :
  tl_stats_isDirectory "/src/a.txt" = false
  /\ exists logs e,
       emitted (demoRun (Demo.remote [] [] [])
                  (Demo.inputs ["**/*"] "/src/a.txt" "dest" false false false))
       = logs ++ [Step (tl_setResult Failed e)]
       /\ Forall (fun ev => isLogEv ev = true) logs.
Proof.
  split; [reflexivity|].
  exact (@source_must_be_a_folder Posix.nodePath Glob.minimatch Demo.tree
           (Demo.remote [] [] [])
           (Demo.inputs ["**/*"] "/src/a.txt" "dest" false false false)
           (Some "/src/a.txt") eq_refl eq_refl).
Defined.

(** A run for the one pattern ["**"]. *)
Lemma whole_folder_upload_needs_wildcard_witness :
  In (Step (uploadFolder "/src" "dest" (inr (VStr "dest"))))
     (emitted (demoRun (Demo.remote [] [] [])
                 (Demo.inputs ["**"] "/src" "dest" false false false)))
  /\ @tl_getDelimitedInput (Demo.inputs ["**"] "/src" "dest" false false false)
       "contents" LF true
     = inr ["**"].
Proof.
  assert (Hin : In (Step (uploadFolder "/src" "dest" (inr (VStr "dest"))))
                   (emitted (demoRun (Demo.remote [] [] [])
                               (Demo.inputs ["**"] "/src" "dest" false false false)))).
  { vm_compute. repeat (first [left; reflexivity | right]). }
  split; [exact Hin|].
  exact (proj1 (@whole_folder_upload_needs_wildcard Posix.nodePath Glob.minimatch
                  Demo.tree (Demo.remote [] [] [])
                  (Demo.inputs ["**"] "/src" "dest" false false false)
                  "/src" "dest" (inr (VStr "dest")) Hin)).
Defined.

Lemma wildcard_copies_no_single_file_witness :
  createdFolders (emitted (demoRun (Demo.remote [] [] [])
                             (Demo.inputs ["**"] "/src" "dest" false false false)))
  = []
  /\ batchesOf (emitted (demoRun (Demo.remote [] [] [])
                           (Demo.inputs ["**"] "/src" "dest" false false false)))
     = []
  /\ List.filter isUploadFile
       (opsOf (emitted (demoRun (Demo.remote [] [] [])
                          (Demo.inputs ["**"] "/src" "dest" false false false))))
     = [].
Proof.
  exact (@wildcard_copies_no_single_file Posix.nodePath Glob.minimatch Demo.tree
           (Demo.remote [] [] [])
           (Demo.inputs ["**"] "/src" "dest" false false false) eq_refl).
Defined.

(** The inputs of [Demo.inputs] with [cleanTargetFolder] set. *)
Definition cleaningInputs (contents : list string) (sourceFolder targetFolder : string)
    : TaskLib := {|
  dirname__ := "/task";
  process_env := fun _ => None;
  parseInt := fun _ _ => VNum 20;
  tl_getInput := @tl_getInput (Demo.inputs contents sourceFolder targetFolder false false false);
  tl_getEndpointAuthorizationParameter :=
    @tl_getEndpointAuthorizationParameter
      (Demo.inputs contents sourceFolder targetFolder false false false);
  tl_getEndpointDataParameter :=
    @tl_getEndpointDataParameter
      (Demo.inputs contents sourceFolder targetFolder false false false);
  tl_getDelimitedInput := fun _ _ _ => inr contents;
  tl_getPathInput := fun _ _ _ => inr (Some sourceFolder);
  tl_getBoolInput := fun name _ => inr (String.eqb name "cleanTargetFolder");
|}.

(** A run that cleans the target folder [dest], which exists. *)
Lemma command_runs_only_to_clean_witness :
  In (Step (runCommandOnRemoteMachine "clean dest" None))
     (emitted (demoRun (Demo.remote ["dest"] [] []) (cleaningInputs ["**/*"] "/src" "dest")))
  /\ @tl_getBoolInput (cleaningInputs ["**/*"] "/src" "dest") "cleanTargetFolder" false
     = inr true.
Proof.
  assert (Hin : In (Step (runCommandOnRemoteMachine "clean dest" None))
                   (emitted (demoRun (Demo.remote ["dest"] [] [])
                               (cleaningInputs ["**/*"] "/src" "dest")))).
  { vm_compute. repeat (first [left; reflexivity | right]). }
  split; [exact Hin|].
  exact (proj1 (@command_runs_only_to_clean Posix.nodePath Glob.minimatch Demo.tree
                  (Demo.remote ["dest"] [] []) (cleaningInputs ["**/*"] "/src" "dest")
                  "clean dest" None Hin)).
Defined.

(** The configuration of the runs of [Demo.inputs]: the endpoint has no
    port and the environment no private key. *)
Lemma config_has_port_and_one_credential_witness :
  completion (@readSshConfig (Demo.inputs ["**/*"] "/src" "dest" false false false) None)
  = Normal demoConfig
  /\ fieldOf "port" demoConfig = Some (VStr "22")
  /\ (exists port, fieldOf "port" demoConfig = Some (VStr port) /\ port <> "").
Proof.
  assert (Hc : completion (@readSshConfig
                             (Demo.inputs ["**/*"] "/src" "dest" false false false) None)
               = Normal demoConfig) by reflexivity.
  split; [exact Hc|]. split; [reflexivity|].
  exact (proj1 (@config_has_port_and_one_credential
                  (Demo.inputs ["**/*"] "/src" "dest" false false false) None
                  demoConfig Hc)).
Defined.

(** A run of the single-burst variant that opens a session. *)
Lemma singleBurst_close_exactly_once_witness :
  In (Step (new_SshHelper demoConfig None))
     (emitted (singleBurstRun (Demo.remote [] [] []) Demo.refusingClient
                 (Demo.inputs ["**/*"] "/src" "dest" false false false)))
  /\ length (List.filter isCloseConnection
               (opsOf (emitted (singleBurstRun (Demo.remote [] [] []) Demo.refusingClient
                                  (Demo.inputs ["**/*"] "/src" "dest" false false
                                     false)))))
     = 1.
Proof.
  assert (Hin : In (Step (new_SshHelper demoConfig None))
                   (emitted (singleBurstRun (Demo.remote [] [] []) Demo.refusingClient
                               (Demo.inputs ["**/*"] "/src" "dest" false false false)))).
  { vm_compute. repeat (first [left; reflexivity | right]). }
  split; [exact Hin|].
  exact (proj1 (@singleBurst_close_exactly_once Posix.nodePath Glob.minimatch Demo.tree
                  (Demo.remote [] [] []) Demo.refusingClient
                  (Demo.inputs ["**/*"] "/src" "dest" false false false)
                  demoConfig Hin)).
Defined.

